(** * server.js: the Command Bridge and its callers

    A shallow embedding of [src/server.js].  The file has three parts the
    specification talks about:

    - [runPythonScript] (lines 21-80), the Command Bridge: it spawns the
      worker, accumulates its two output streams, and settles a promise from
      the [close] and [error] events of the child process;
    - the settings handlers (lines 98-155), which store values as text and
      sniff the text on the way back;
    - the chat handler (lines 213-252), which formats the report returned by
      the Bridge.

    JavaScript strings are sequences of UTF-16 code units, numbers are
    IEEE-754 binary64 values, objects are lists of own properties in
    enumeration order.  The built-ins the handlers call ([split], [trim],
    [startsWith], [JSON.parse], [JSON.stringify], [toFixed], the conversions
    of template literals) are written out from ECMA-262.

    A call of [runPythonScript] is modelled by the events its three
    listeners receive: the state of the call is folded over them, so that
    what a run has produced at any point, and whether it has produced
    anything, can be stated.

    The buffers the streams deliver are decoded one by one ([Utf8]); the
    admin routes ([Routes]) and the start-up of the server ([Startup]) are
    the other callers of the Bridge; [Store] is the settings handlers
    against a database that may refuse a statement.

    Layout: the definitions ([Str], [Num], [JSON], [Bridge], [Conv],
    [Stringify], [Settings], [Chat], [Scenario], then [Utf8], [Routes],
    [Startup], [Store] and the vocabulary of the later statements), then
    the properties. *)

From Stdlib Require Import List NArith ZArith Bool String Ascii Lia.
From Stdlib Require Import Floats.SpecFloat DecimalN.
Import ListNotations.

Local Open Scope N_scope.

(** ** Strings *)

Module Str.

(** A string value is its sequence of UTF-16 code units. *)
Definition jsstring := list N.

(** [js s] is the string value of an ASCII literal. *)
Definition js (s : string) : jsstring :=
  map N_of_ascii (list_ascii_of_string s).

(** [jsq s] is [js s] with every apostrophe read as a double quote, so that
    JSON text can be written as a literal. *)
Definition jsq (s : string) : jsstring :=
  map (fun c => if c =? 39 then 34 else c) (js s).

Definition eqb (a b : jsstring) : bool :=
  if list_eq_dec N.eq_dec a b then true else false.

(** WhiteSpace and LineTerminator of ECMA-262, the code units
    [String.prototype.trim] strips. *)
Definition is_trim_space (c : N) : bool :=
  (c =? 9) || (c =? 10) || (c =? 11) || (c =? 12) || (c =? 13) ||
  (c =? 32) || (c =? 160) || (c =? 5760) ||
  ((8192 <=? c) && (c <=? 8202)) ||
  (c =? 8232) || (c =? 8233) || (c =? 8239) || (c =? 8287) ||
  (c =? 12288) || (c =? 65279).

Fixpoint trimStart (s : jsstring) : jsstring :=
  match s with
  | [] => []
  | c :: r => if is_trim_space c then trimStart r else s
  end.

Definition trimEnd (s : jsstring) : jsstring := rev (trimStart (rev s)).

Definition trim (s : jsstring) : jsstring := trimEnd (trimStart s).

(** [split sep s] is [s.split(sep)] for a separator of one code unit: the
    pieces between the separators, the empty string giving one empty piece. *)
Fixpoint split (sep : N) (s : jsstring) : list jsstring :=
  match s with
  | [] => [[]]
  | c :: r =>
      if c =? sep then [] :: split sep r
      else match split sep r with
           | l :: ls => (c :: l) :: ls
           | [] => [[c]]
           end
  end.

Fixpoint startsWith (s p : jsstring) {struct p} : bool :=
  match p with
  | [] => true
  | a :: p' =>
      match s with
      | [] => false
      | c :: s' => (c =? a) && startsWith s' p'
      end
  end.

(** [includes s p] is [s.includes(p)]. *)
Fixpoint includes (s p : jsstring) : bool :=
  startsWith s p ||
  match s with
  | [] => false
  | _ :: r => includes r p
  end.

(** [toLowerCase] on the ASCII letters; code units outside [A-Z] are kept.
    (The Unicode case mapping of other letters is not written out; no
    keyword of the chat handler has a letter a non-ASCII code point maps
    to.) *)
Definition lower (c : N) : N :=
  if (65 <=? c) && (c <=? 90) then c + 32 else c.

Definition toLowerCase (s : jsstring) : jsstring := map lower s.

(** [join sep l] is [l.join(sep)]. *)
Fixpoint join (sep : jsstring) (l : list jsstring) : jsstring :=
  match l with
  | [] => []
  | [a] => a
  | a :: r => a ++ sep ++ join sep r
  end.

(** The text whose lines are [l]. *)
Definition unlines (l : list jsstring) : jsstring := join [10] l.

(** Decimal digits of a natural number, as [Number::toString] prints an
    integer. *)
Fixpoint uint_digits (u : Decimal.uint) : jsstring :=
  match u with
  | Decimal.Nil => []
  | Decimal.D0 r => 48 :: uint_digits r
  | Decimal.D1 r => 49 :: uint_digits r
  | Decimal.D2 r => 50 :: uint_digits r
  | Decimal.D3 r => 51 :: uint_digits r
  | Decimal.D4 r => 52 :: uint_digits r
  | Decimal.D5 r => 53 :: uint_digits r
  | Decimal.D6 r => 54 :: uint_digits r
  | Decimal.D7 r => 55 :: uint_digits r
  | Decimal.D8 r => 56 :: uint_digits r
  | Decimal.D9 r => 57 :: uint_digits r
  end.

Definition of_N (n : N) : jsstring := uint_digits (N.to_uint n).

Definition of_Z (z : Z) : jsstring :=
  match z with
  | Zneg p => 45 :: of_N (Npos p)
  | _ => of_N (Z.to_N z)
  end.

End Str.

Import Str.

(** ** Numbers: binary64 *)

Module Num.

Definition prec : Z := 53.
Definition emax : Z := 1024.

(** The Number value of the decimal [m * 10^e] with sign [neg]: the nearest
    binary64 value, ties to even. *)
Definition of_decimal (neg : bool) (m : N) (e : Z) : spec_float :=
  match m with
  | N0 => S754_zero neg
  | Npos p =>
      match e with
      | Zneg q =>
          SFdiv prec emax (S754_finite neg p 0)
                (S754_finite false (Pos.pow 10 q) 0)
      | Z0 => binary_round prec emax neg p 0
      | Zpos q => binary_round prec emax neg (p * Pos.pow 10 q) 0
      end
  end.

Definition mul (x y : spec_float) : spec_float := SFmul prec emax x y.

Definition same (x y : spec_float) : bool :=
  match SFcompare x y with
  | Some Eq => true
  | _ => false
  end.

(** The positive finite value [m * 2^e] as a fraction of two positive
    integers. *)
Definition fraction (m : positive) (e : Z) : Z * Z :=
  match e with
  | Zneg q => (Zpos m, Zpos (Pos.pow 2 q))
  | Z0 => (Zpos m, 1%Z)
  | Zpos q => (Zpos (m * Pos.pow 2 q), 1%Z)
  end.

Definition pow10 (k : Z) : Z := Z.pow 10 k.

(** [a / b] scaled by [10^k], for any integer [k]. *)
Definition scale10 (ab : Z * Z) (k : Z) : Z * Z :=
  let '(a, b) := ab in
  if (0 <=? k)%Z then ((a * pow10 k)%Z, b) else (a, (b * pow10 (- k))%Z).

Definition zeros (n : Z) : jsstring := repeat 48 (Z.to_nat n).

(** *** [Number.prototype.toFixed]

    For a finite [x] below [10^21] in magnitude: the integer [n] for which
    [n / 10^f - x] is as close to zero as possible, the larger one of two,
    printed with [f] digits after the point. *)
Definition fixed_digits (m : positive) (e : Z) (f : Z) : jsstring :=
  let '(a, b) := scale10 (fraction m e) f in
  let n := ((2 * a + b) / (2 * b))%Z in
  let d := of_N (Z.to_N n) in
  if (f =? 0)%Z then d
  else
    let k := Z.of_nat (List.length d) in
    let d' := if (k <=? f)%Z then zeros (f + 1 - k) ++ d else d in
    let k' := Z.of_nat (List.length d') in
    firstn (Z.to_nat (k' - f)) d' ++ [46] ++ skipn (Z.to_nat (k' - f)) d'.

(** *** [Number::toString]

    The shortest decimal [s * 10^(n-k)], [s] of [k] digits, whose Number
    value is [x]; of two of the same length the one closer to [x]. *)

(** The [n] with [10^(n-1) <= a/b < 10^n].  Below 1 it is searched
    downwards; the smallest Number is above [10^-324], so 400 steps reach
    every one. *)
Fixpoint find_below (fuel : nat) (a b : Z) (j : Z) : Z :=
  match fuel with
  | O => j
  | S fuel' => if (b <=? a)%Z then j else find_below fuel' (a * 10)%Z b (j - 1)%Z
  end.

Definition magnitude (ab : Z * Z) : Z :=
  let '(a, b) := ab in
  if (b <=? a)%Z then Z.of_nat (List.length (of_N (Z.to_N (a / b))))
  else find_below 400 (a * 10)%Z b 0%Z.

(** The candidates with [k] digits: the two neighbours of [x] on the grid of
    [k]-digit decimals, kept when they read back as [x]. *)
Definition shortest_at (x : spec_float) (ab : Z * Z) (n0 k : Z) : option (Z * Z) :=
  let '(a, b) := scale10 ab (k - n0) in
  let lo := (a / b)%Z in
  let r := (a mod b)%Z in
  let hi := (lo + 1)%Z in
  let ok s := same (of_decimal false (Z.to_N s) (n0 - k)) x in
  let norm s := if (s =? pow10 k)%Z then (pow10 (k - 1), (n0 + 1)%Z) else (s, n0) in
  if (r =? 0)%Z then Some (norm lo)
  else
    match ok lo, ok hi with
    | true, true =>
        match (2 * r ?= b)%Z with
        | Lt => Some (norm lo)
        | Gt => Some (norm hi)
        | Eq => if Z.even lo then Some (norm lo) else Some (norm hi)
        end
    | true, false => Some (norm lo)
    | false, true => Some (norm hi)
    | false, false => None
    end.

(** The first length, from [k] up, with a candidate.  Seventeen digits
    identify every Number, so with 17 lengths to try the search ends on a
    candidate. *)
Fixpoint shortest_from (fuel : nat) (x : spec_float) (ab : Z * Z) (n0 k : Z)
  : Z * Z * Z :=
  match fuel with
  | O => let '(a, b) := scale10 ab (k - n0) in ((a / b)%Z, k, n0)
  | S fuel' =>
      match shortest_at x ab n0 k with
      | Some (s, n) => (s, k, n)
      | None => shortest_from fuel' x ab n0 (k + 1)%Z
      end
  end.

Definition exponent_text (e : Z) : jsstring :=
  [101] ++ (if (e <? 0)%Z then [45] else [43]) ++ of_N (Z.abs_N e).

Definition format (d : jsstring) (k n : Z) : jsstring :=
  if (k <=? n)%Z && (n <=? 21)%Z then d ++ zeros (n - k)
  else if (0 <? n)%Z && (n <=? 21)%Z then
    firstn (Z.to_nat n) d ++ [46] ++ skipn (Z.to_nat n) d
  else if (-6 <? n)%Z && (n <=? 0)%Z then [48; 46] ++ zeros (- n) ++ d
  else if (k =? 1)%Z then d ++ exponent_text (n - 1)
  else firstn 1 d ++ [46] ++ skipn 1 d ++ exponent_text (n - 1).

Definition toString (x : spec_float) : jsstring :=
  match x with
  | S754_nan => js "NaN"
  | S754_zero _ => js "0"
  | S754_infinity s => (if s then [45] else []) ++ js "Infinity"
  | S754_finite s m e =>
      let ab := fraction m e in
      let '(d, k, n) := shortest_from 17 (S754_finite false m e) ab (magnitude ab) 1 in
      (if s then [45] else []) ++ format (of_N (Z.to_N d)) k n
  end.

Definition toFixed (x : spec_float) (f : Z) : jsstring :=
  match x with
  | S754_finite s m e =>
      let '(a, b) := fraction m e in
      if (pow10 21 * b <=? a)%Z then toString x
      else (if s then [45] else []) ++ fixed_digits m e f
  | S754_zero _ => if (f =? 0)%Z then js "0" else [48; 46] ++ zeros f
  | _ => toString x
  end.

End Num.

(** ** JSON values and [JSON.parse] *)

Module JSON.

(** ECMAScript values as the handlers see them.  [JSON.parse] never returns
    [JUndefined]; it is what reading a missing property gives. *)
#[local] Unset Elimination Schemes.
Inductive value :=
| JUndefined
| JNull
| JBool (b : bool)
| JNum (x : spec_float)
| JStr (s : jsstring)
| JArr (elems : list value)
| JObj (props : list (jsstring * value)).
#[local] Set Elimination Schemes.

(** An error object; only its [message] is read by the handlers. *)
Record JsError := mkError { message : jsstring }.

(** *** Objects: own properties in enumeration order *)

(** An array index is the canonical decimal form of an integer below
    [2^32 - 1]. *)
Definition is_digit (c : N) : bool := (48 <=? c) && (c <=? 57).

Definition digits_value (s : jsstring) : N :=
  fold_left (fun acc c => acc * 10 + (c - 48)) s 0.

Definition array_index (k : jsstring) : option N :=
  match k with
  | [] => None
  | c :: r =>
      if forallb is_digit k && negb ((c =? 48) && negb (Nat.eqb (List.length r) 0))
         && (Nat.leb (List.length k) 10) && (digits_value k <? 4294967295)
      then Some (digits_value k)
      else None
  end.

Fixpoint has_own (k : jsstring) (props : list (jsstring * value)) : bool :=
  match props with
  | [] => false
  | (k', _) :: r => Str.eqb k k' || has_own k r
  end.

Fixpoint get_own (k : jsstring) (props : list (jsstring * value)) : option value :=
  match props with
  | [] => None
  | (k', v) :: r => if Str.eqb k k' then Some v else get_own k r
  end.

Fixpoint replace_own (k : jsstring) (v : value) (props : list (jsstring * value)) :=
  match props with
  | [] => []
  | (k', v') :: r =>
      if Str.eqb k k' then (k', v) :: r else (k', v') :: replace_own k v r
  end.

(** A new index key goes before the first key that is not a smaller index. *)
Fixpoint insert_index (i : N) (k : jsstring) (v : value)
         (props : list (jsstring * value)) :=
  match props with
  | [] => [(k, v)]
  | (k', v') :: r =>
      match array_index k' with
      | Some j => if j <? i then (k', v') :: insert_index i k v r
                  else (k, v) :: props
      | None => (k, v) :: props
      end
  end.

(** CreateDataProperty on an ordinary object: an existing key keeps its
    place and takes the new value; a new array index is placed among the
    indices in ascending order; any other new key is appended. *)
Definition define (k : jsstring) (v : value) (props : list (jsstring * value)) :=
  if has_own k props then replace_own k v props
  else match array_index k with
       | Some i => insert_index i k v props
       | None => props ++ [(k, v)]
       end.

(** *** The parser

    [JSON.parse] reads its text once, left to right.  It is written here as
    the pushdown automaton of the JSON grammar: a mode, and a stack of the
    containers that are open. *)

Inductive escape :=
| ENone
| EBackslash
| EUnicode (count : nat) (acc : N).

Inductive numphase :=
| NMinus      (* after '-': a digit must follow *)
| NZero       (* after the single integer digit 0 *)
| NInt        (* in the integer digits *)
| NDot        (* after '.': a digit must follow *)
| NFrac       (* in the fraction digits *)
| NExp        (* after 'e' or 'E' *)
| NExpSign    (* after the sign of the exponent *)
| NExpDigits. (* in the exponent digits *)

Record numstate := mkNum {
  nneg : bool;        (* a leading '-' *)
  nmant : N;          (* the integer and fraction digits read as one integer *)
  nfrac : N;          (* how many of them are fraction digits *)
  neneg : bool;       (* the exponent has a '-' *)
  nexp : N;           (* the exponent digits *)
  nphase : numphase
}.

Inductive literal := LTrue | LFalse | LNull.

Definition literal_value (l : literal) : value :=
  match l with
  | LTrue => JBool true
  | LFalse => JBool false
  | LNull => JNull
  end.

Inductive mode :=
| MValue                 (* a value must start *)
| MArrStart              (* after '[': a value or ']' *)
| MObjStart              (* after the opening brace: a key or the closing one *)
| MKey                   (* after ',' in an object: a key *)
| MColon                 (* after a key *)
| MAfter                 (* after a value inside a container *)
| MDone (v : value)      (* the whole value has been read *)
| MStr (iskey : bool) (acc : jsstring) (esc : escape)  (* [acc] is reversed *)
| MNum (ns : numstate)
| MLit (rest : jsstring) (l : literal).  (* what is left of true, false, null *)

Inductive frame :=
| FArr (acc : list value)                                  (* reversed *)
| FObj (props : list (jsstring * value))
| FMember (props : list (jsstring * value)) (key : jsstring).

Definition pstate := (mode * list frame)%type.

Definition is_json_ws (c : N) : bool :=
  (c =? 32) || (c =? 9) || (c =? 10) || (c =? 13).

Definition hex_val (c : N) : option N :=
  if is_digit c then Some (c - 48)
  else if (97 <=? c) && (c <=? 102) then Some (c - 87)
  else if (65 <=? c) && (c <=? 70) then Some (c - 55)
  else None.

(** A finished value goes to the container on top of the stack. *)
Definition push_value (v : value) (K : list frame) : option pstate :=
  match K with
  | [] => Some (MDone v, [])
  | FArr acc :: K' => Some (MAfter, FArr (v :: acc) :: K')
  | FMember props k :: K' => Some (MAfter, FObj (define k v props) :: K')
  | FObj _ :: _ => None
  end.

(** The first character of a number. *)
Definition num_begin (c : N) : option numstate :=
  if c =? 45 then Some (mkNum true 0 0 false 0 NMinus)
  else if c =? 48 then Some (mkNum false 0 0 false 0 NZero)
  else if is_digit c then Some (mkNum false (c - 48) 0 false 0 NInt)
  else None.

Definition begin_value (K : list frame) (c : N) : option pstate :=
  if c =? 123 then Some (MObjStart, FObj [] :: K)
  else if c =? 91 then Some (MArrStart, FArr [] :: K)
  else if c =? 34 then Some (MStr false [] ENone, K)
  else if c =? 116 then Some (MLit (js "rue") LTrue, K)
  else if c =? 102 then Some (MLit (js "alse") LFalse, K)
  else if c =? 110 then Some (MLit (js "ull") LNull, K)
  else match num_begin c with
       | Some ns => Some (MNum ns, K)
       | None => None
       end.

(** After a value: a separator, the closing bracket of the open container,
    or, at top level, nothing but white space. *)
Definition step_after (st : pstate) (c : N) : option pstate :=
  match st with
  | (MDone v, K) => if is_json_ws c then Some st else None
  | (MAfter, FArr acc :: K') =>
      if is_json_ws c then Some st
      else if c =? 44 then Some (MValue, FArr acc :: K')
      else if c =? 93 then push_value (JArr (rev acc)) K'
      else None
  | (MAfter, FObj props :: K') =>
      if is_json_ws c then Some st
      else if c =? 44 then Some (MKey, FObj props :: K')
      else if c =? 125 then push_value (JObj props) K'
      else None
  | _ => None
  end.

(** One more character of a number, or [None] when [c] cannot continue it. *)
Definition num_step (ns : numstate) (c : N) : option numstate :=
  let '(mkNum neg m f eneg e ph) := ns in
  match ph with
  | NMinus =>
      if c =? 48 then Some (mkNum neg 0 0 false 0 NZero)
      else if is_digit c then Some (mkNum neg (c - 48) 0 false 0 NInt)
      else None
  | NZero =>
      if c =? 46 then Some (mkNum neg m f eneg e NDot)
      else if (c =? 101) || (c =? 69) then Some (mkNum neg m f eneg e NExp)
      else None
  | NInt =>
      if is_digit c then Some (mkNum neg (m * 10 + (c - 48)) f eneg e NInt)
      else if c =? 46 then Some (mkNum neg m f eneg e NDot)
      else if (c =? 101) || (c =? 69) then Some (mkNum neg m f eneg e NExp)
      else None
  | NDot =>
      if is_digit c then Some (mkNum neg (m * 10 + (c - 48)) (f + 1) eneg e NFrac)
      else None
  | NFrac =>
      if is_digit c then Some (mkNum neg (m * 10 + (c - 48)) (f + 1) eneg e NFrac)
      else if (c =? 101) || (c =? 69) then Some (mkNum neg m f eneg e NExp)
      else None
  | NExp =>
      if c =? 43 then Some (mkNum neg m f false e NExpSign)
      else if c =? 45 then Some (mkNum neg m f true e NExpSign)
      else if is_digit c then Some (mkNum neg m f eneg (c - 48) NExpDigits)
      else None
  | NExpSign =>
      if is_digit c then Some (mkNum neg m f eneg (c - 48) NExpDigits)
      else None
  | NExpDigits =>
      if is_digit c then Some (mkNum neg m f eneg (e * 10 + (c - 48)) NExpDigits)
      else None
  end.

(** The value of a number that may end here. *)
Definition num_value (ns : numstate) : option spec_float :=
  match nphase ns with
  | NZero | NInt | NFrac | NExpDigits =>
      let e := if neneg ns then Z.opp (Z.of_N (nexp ns)) else Z.of_N (nexp ns) in
      Some (Num.of_decimal (nneg ns) (nmant ns) (e - Z.of_N (nfrac ns)))
  | _ => None
  end.

(** One more character inside a string. *)
Definition str_step (acc : jsstring) (esc : escape) (c : N)
  : option (jsstring * escape) :=
  match esc with
  | ENone =>
      if c =? 92 then Some (acc, EBackslash)
      else if c <? 32 then None
      else Some (c :: acc, ENone)
  | EBackslash =>
      if (c =? 34) || (c =? 92) || (c =? 47) then Some (c :: acc, ENone)
      else if c =? 98 then Some (8 :: acc, ENone)
      else if c =? 102 then Some (12 :: acc, ENone)
      else if c =? 110 then Some (10 :: acc, ENone)
      else if c =? 114 then Some (13 :: acc, ENone)
      else if c =? 116 then Some (9 :: acc, ENone)
      else if c =? 117 then Some (acc, EUnicode 0 0)
      else None
  | EUnicode n a =>
      match hex_val c with
      | Some h =>
          match n with
          | 3%nat => Some ((a * 16 + h) :: acc, ENone)
          | _ => Some (acc, EUnicode (S n) (a * 16 + h))
          end
      | None => None
      end
  end.

(** One character of input; [None] is a syntax error at that character. *)
Definition step (st : pstate) (c : N) : option pstate :=
  match st with
  | (MValue, K) => if is_json_ws c then Some st else begin_value K c
  | (MArrStart, FArr acc :: K') =>
      if is_json_ws c then Some st
      else if c =? 93 then push_value (JArr (rev acc)) K'
      else begin_value (FArr acc :: K') c
  | (MObjStart, FObj props :: K') =>
      if is_json_ws c then Some st
      else if c =? 125 then push_value (JObj props) K'
      else if c =? 34 then Some (MStr true [] ENone, FObj props :: K')
      else None
  | (MKey, FObj props :: K') =>
      if is_json_ws c then Some st
      else if c =? 34 then Some (MStr true [] ENone, FObj props :: K')
      else None
  | (MColon, FMember props k :: K') =>
      if is_json_ws c then Some st
      else if c =? 58 then Some (MValue, FMember props k :: K')
      else None
  | (MAfter, _) | (MDone _, _) => step_after st c
  | (MStr iskey acc ENone, K) =>
      if c =? 34 then
        if iskey then
          match K with
          | FObj props :: K' => Some (MColon, FMember props (rev acc) :: K')
          | _ => None
          end
        else push_value (JStr (rev acc)) K
      else match str_step acc ENone c with
           | Some (acc', esc') => Some (MStr iskey acc' esc', K)
           | None => None
           end
  | (MStr iskey acc esc, K) =>
      match str_step acc esc c with
      | Some (acc', esc') => Some (MStr iskey acc' esc', K)
      | None => None
      end
  | (MNum ns, K) =>
      match num_step ns c with
      | Some ns' => Some (MNum ns', K)
      | None =>
          match num_value ns with
          | Some x =>
              match push_value (JNum x) K with
              | Some st' => step_after st' c
              | None => None
              end
          | None => None
          end
      end
  | (MLit rest l, K) =>
      match rest with
      | c' :: rest' =>
          if c =? c' then
            match rest' with
            | [] => push_value (literal_value l) K
            | _ => Some (MLit rest' l, K)
            end
          else None
      | [] => None
      end
  | _ => None
  end.

(** [run st s] reads [s] from state [st]; on a syntax error it gives the
    input left at the offending character. *)
Fixpoint run (st : pstate) (s : jsstring) : pstate + jsstring :=
  match s with
  | [] => inl st
  | c :: r =>
      match step st c with
      | Some st' => run st' r
      | None => inr s
      end
  end.

(** At the end of the text the value must be complete. *)
Definition finish (st : pstate) : option value :=
  match st with
  | (MDone v, []) => Some v
  | (MNum ns, []) =>
      match num_value ns with
      | Some x => Some (JNum x)
      | None => None
      end
  | _ => None
  end.

(** The text of a SyntaxError.  ECMA-262 leaves it to the engine; this is
    the wording of V8 up to version 10 (Node 18): the end of the input, or
    the token found at a position.  Later versions word the same errors in
    another way and quote the text; the end of the input they word alike.
    The statements below take the error as [parse] gives it and do not
    depend on its wording; a message is named only for the end of the input
    and at the runs given as examples. *)
Definition syntax_error (text rest : jsstring) : JsError :=
  let pos := of_N (N.of_nat (List.length text - List.length rest)) in
  match rest with
  | [] => mkError (js "Unexpected end of JSON input")
  | c :: _ =>
      if is_digit c || (c =? 45) then
        mkError (js "Unexpected number in JSON at position " ++ pos)
      else if c =? 34 then
        mkError (js "Unexpected string in JSON at position " ++ pos)
      else
        mkError (js "Unexpected token " ++ [c] ++ js " in JSON at position " ++ pos)
  end.

(** [JSON.parse(text)]: the value, or the SyntaxError thrown. *)
Definition parse (text : jsstring) : value + JsError :=
  match run (MValue, []) text with
  | inl st =>
      match finish st with
      | Some v => inl v
      | None => inr (syntax_error text [])
      end
  | inr rest => inr (syntax_error text rest)
  end.

(** *** Vocabulary for the statements *)

(** A number read on its own: the characters of [s] taken by [num_step],
    and the value when they form a whole number. *)
Fixpoint num_run (ns : numstate) (s : jsstring) : option numstate :=
  match s with
  | [] => Some ns
  | c :: r =>
      match num_step ns c with
      | Some ns' => num_run ns' r
      | None => None
      end
  end.

Definition number_of_text (s : jsstring) : option spec_float :=
  match s with
  | [] => None
  | c :: r =>
      match num_begin c with
      | Some ns =>
          match num_run ns r with
          | Some ns' => num_value ns'
          | None => None
          end
      | None => None
      end
  end.

(** The object [JSON.parse] builds from the members [ps], in text order. *)
Definition build_object (ps : list (jsstring * value)) : list (jsstring * value) :=
  fold_left (fun acc kv => define (fst kv) (snd kv) acc) ps [].

(** No key occurs twice. *)
Fixpoint distinct_keys (ps : list (jsstring * value)) : bool :=
  match ps with
  | [] => true
  | (k, _) :: r => negb (has_own k r) && distinct_keys r
  end.

(** The order in which an object holds its properties: the array indices
    first, in ascending order, then the other keys, no key twice. *)
Fixpoint names_only (ks : list jsstring) : Prop :=
  match ks with
  | [] => True
  | k :: r => array_index k = None /\ ~ In k r /\ names_only r
  end.

Fixpoint ordered_keys (lo : option N) (ks : list jsstring) : Prop :=
  match ks with
  | [] => True
  | k :: r =>
      match array_index k with
      | Some i =>
          match lo with
          | Some l => l < i
          | None => True
          end /\ ordered_keys (Some i) r
      | None => ~ In k r /\ names_only r
      end
  end.

Definition ordered (ps : list (jsstring * value)) : Prop :=
  ordered_keys None (map fst ps).

(** A digit string without a leading zero. *)
Definition plain_digits (s : jsstring) : Prop :=
  forallb is_digit s = true /\
  match s with
  | [] => False
  | c :: r => c = 48 -> r = []
  end.

(** The values [JSON.parse] builds: no [undefined], and every object with
    its properties in order. *)
Fixpoint built (v : value) : Prop :=
  match v with
  | JUndefined => False
  | JNull | JBool _ | JNum _ | JStr _ => True
  | JArr l =>
      (fix all (l : list value) : Prop :=
         match l with
         | [] => True
         | a :: r => built a /\ all r
         end) l
  | JObj ps =>
      ordered ps /\
      (fix all (ps : list (jsstring * value)) : Prop :=
         match ps with
         | [] => True
         | (_, a) :: r => built a /\ all r
         end) ps
  end.

(** What may follow a value inside a container. *)
Definition is_delimiter (c : N) : bool := (c =? 44) || (c =? 93) || (c =? 125).

Definition is_obj (v : value) : bool :=
  match v with
  | JObj _ => true
  | _ => false
  end.

Definition frame_is_obj (f : frame) : bool :=
  match f with
  | FArr _ => false
  | _ => true
  end.

(** The kind of the outermost open container. *)
Fixpoint bottom_is_obj (K : list frame) : option bool :=
  match K with
  | [] => None
  | f :: K' =>
      match bottom_is_obj K' with
      | Some b => Some b
      | None => Some (frame_is_obj f)
      end
  end.

(** The parser holds built values only. *)
Definition frame_built (f : frame) : Prop :=
  match f with
  | FArr acc => Forall built acc
  | FObj ps | FMember ps _ =>
      ordered ps /\ Forall (fun kv => built (snd kv)) ps
  end.

Definition state_built (st : pstate) : Prop :=
  Forall frame_built (snd st)
  /\ match fst st with
     | MDone v => built v
     | _ => True
     end.

(** Whether the value being read at top level is an object. *)
Definition obj_bound (st : pstate) : bool :=
  match bottom_is_obj (snd st) with
  | Some b => b
  | None =>
      match fst st with
      | MDone (JObj _) => true
      | _ => false
      end
  end.

End JSON.

Import JSON.

(** ** The Command Bridge: [runPythonScript] *)

Module Bridge.

(** What the child process does, as the events Node delivers to the
    listeners registered in [runPythonScript].  A chunk is the text
    [data.toString('utf8')] of the buffer received; [Close] carries the exit
    code, [None] for [null] (the child was ended by a signal); [Error]
    carries [error.message]. *)
Inductive event :=
| StdoutData (chunk : jsstring)
| StderrData (chunk : jsstring)
| Close (code : option Z)
| Error (msg : jsstring).

(** The promise returned by [runPythonScript]. *)
Inductive promise :=
| Pending
| Fulfilled (v : value)
| Rejected (e : JsError).

(** [resolve] and [reject] settle a pending promise and do nothing to a
    settled one. *)
Definition resolve (v : value) (p : promise) : promise :=
  match p with
  | Pending => Fulfilled v
  | _ => p
  end.

Definition reject (e : JsError) (p : promise) : promise :=
  match p with
  | Pending => Rejected e
  | _ => p
  end.

(** The lines written by [console.error]. *)
Inductive log :=
| LogJsonParseError (e : JsError)     (* 'JSON Parse Error:', parseError *)
| LogRawOutput (s : jsstring)         (* 'Raw output:', dataString *)
| LogScriptError (s : jsstring)       (* 'Python script error:', errorString *)
| LogStartFailure (msg : jsstring).   (* 'Failed to start Python process:', error *)

(** The variables of one call: [dataString], [errorString], the promise and
    the console.  [parsed] is a ghost field: the texts handed to
    [JSON.parse], in order. *)
Record state := mkState {
  dataString : jsstring;
  errorString : jsstring;
  result : promise;
  console : list log;
  parsed : list jsstring
}.

Definition initial : state := mkState [] [] Pending [] [].

(** The [for] loop of lines 48-54: the trimmed text of the first line whose
    trimmed text starts with an opening brace, or [''] when there is none. *)
Fixpoint find_json_line (lines : list jsstring) : jsstring :=
  match lines with
  | [] => []
  | line :: rest =>
      if startsWith (trim line) (js "{") then trim line
      else find_json_line rest
  end.

(** [`${code}`] for an exit code. *)
Definition code_text (code : option Z) : jsstring :=
  match code with
  | Some z => of_Z z
  | None => js "null"
  end.

(** The text the [close] listener parses when [code === 0]: [jsonLine] when
    it is not empty, the whole trimmed buffer otherwise. *)
Definition text_to_parse (data : jsstring) : jsstring :=
  let lines := split 10 data in
  let jsonLine := find_json_line lines in
  match jsonLine with
  | _ :: _ => jsonLine
  | [] => trim data
  end.

(** [code === 0]. *)
Definition is_zero (code : option Z) : bool :=
  match code with
  | Some 0%Z => true
  | _ => false
  end.

(** The [close] listener, lines 43-73. *)
Definition on_close (code : option Z) (st : state) : state :=
  if is_zero code then
    let text := text_to_parse (dataString st) in
    match parse text with
    | inl v =>
        mkState (dataString st) (errorString st) (resolve v (result st))
                (console st) (parsed st ++ [text])
    | inr parseError =>
        mkState (dataString st) (errorString st)
                (reject (mkError (js "Failed to parse Python output: "
                                   ++ message parseError)) (result st))
                (console st ++ [LogJsonParseError parseError;
                                LogRawOutput (dataString st)])
                (parsed st ++ [text])
    end
  else
    mkState (dataString st) (errorString st)
            (reject (mkError (js "Python script failed with code "
                               ++ code_text code ++ js ": "
                               ++ errorString st)) (result st))
            (console st ++ [LogScriptError (errorString st)])
            (parsed st).

(** The [error] listener, lines 75-78. *)
Definition on_error (msg : jsstring) (st : state) : state :=
  mkState (dataString st) (errorString st)
          (reject (mkError (js "Failed to start Python process: " ++ msg))
                  (result st))
          (console st ++ [LogStartFailure msg])
          (parsed st).

(** One event, dispatched to its listener. *)
Definition handle (st : state) (ev : event) : state :=
  match ev with
  | StdoutData chunk =>
      mkState (dataString st ++ chunk) (errorString st) (result st)
              (console st) (parsed st)
  | StderrData chunk =>
      mkState (dataString st) (errorString st ++ chunk) (result st)
              (console st) (parsed st)
  | Close code => on_close code st
  | Error msg => on_error msg st
  end.

(** [runPythonScript(scriptArgs)] against a child process that delivers the
    events [evs]: the state of the call once they have all been handled.
    [scriptArgs] only reaches the worker's command line. *)
Definition runPythonScript (scriptArgs : list jsstring) (evs : list event) : state :=
  fold_left handle evs initial.

(** *** Vocabulary for the statements *)

(** The two stream events. *)
Definition is_data (ev : event) : bool :=
  match ev with
  | StdoutData _ | StderrData _ => true
  | _ => false
  end.

(** The two events that call [resolve] or [reject]. *)
Definition is_terminal (ev : event) : bool := negb (is_data ev).

(** What a sequence of events has written to each stream. *)
Fixpoint stdout_of (evs : list event) : jsstring :=
  match evs with
  | [] => []
  | StdoutData chunk :: r => chunk ++ stdout_of r
  | _ :: r => stdout_of r
  end.

Fixpoint stderr_of (evs : list event) : jsstring :=
  match evs with
  | [] => []
  | StderrData chunk :: r => chunk ++ stderr_of r
  | _ :: r => stderr_of r
  end.

Definition settled (p : promise) : bool :=
  match p with
  | Pending => false
  | _ => true
  end.

(** A line the scan of lines 49-54 stops at. *)
Definition json_shaped (line : jsstring) : bool :=
  startsWith (trim line) (js "{").

(** The rejection of a parse failure, line 67. *)
Definition parse_failure (parseError : JsError) : JsError :=
  mkError (js "Failed to parse Python output: " ++ message parseError).

(** A child process as the unending sequence of events it delivers, and the
    first [n] of them. *)
Definition behaviour := nat -> event.

Definition first_events (n : nat) (w : behaviour) : list event :=
  map w (seq 0 n).

(** A worker that keeps writing and never closes. *)
Definition hung_worker : behaviour := fun _ => StdoutData (js "Loading data...").

End Bridge.

Import Bridge.

(** ** Conversions and property reads *)

Module Conv.

(** A computation that returns or throws. *)
Definition completion (A : Type) : Type := (A + JsError)%type.

Definition bind {A B : Type} (c : completion A) (k : A -> completion B)
  : completion B :=
  match c with
  | inl a => k a
  | inr e => inr e
  end.

Notation "'do' x <- c ; k" := (bind c (fun x => k))
  (at level 10, x name, c at level 100, k at level 200).

Definition TypeError (text : string) : JsError := mkError (js text).

(** [v.name] for a name that no built-in prototype defines and that is
    neither an index nor [length] (every name the handlers read is one):
    the own property of an object, [undefined] when there is none, and a
    TypeError on [undefined] and [null]. *)
Definition Get (v : value) (name : jsstring) : completion value :=
  match v with
  | JUndefined =>
      inr (mkError (js "Cannot read properties of undefined (reading '"
                    ++ name ++ js "')"))
  | JNull =>
      inr (mkError (js "Cannot read properties of null (reading '"
                    ++ name ++ js "')"))
  | JObj props =>
      inl (match get_own name props with
           | Some x => x
           | None => JUndefined
           end)
  | _ => inl JUndefined
  end.

Definition ToBoolean (v : value) : bool :=
  match v with
  | JUndefined | JNull => false
  | JBool b => b
  | JNum (S754_zero _) | JNum S754_nan => false
  | JNum _ => true
  | JStr [] => false
  | JStr _ => true
  | JArr _ | JObj _ => true
  end.

Fixpoint sequence {A : Type} (l : list (completion A)) : completion (list A) :=
  match l with
  | [] => inl []
  | c :: r =>
      match c with
      | inl a =>
          match sequence r with
          | inl r' => inl (a :: r')
          | inr e => inr e
          end
      | inr e => inr e
      end
  end.

(** ToString of a value built from JSON data.  An array is joined with
    commas, [undefined] and [null] elements giving the empty text; an object
    is ["[object Object]"], unless it has an own [toString] property, which
    is not callable and makes the conversion throw. *)
Fixpoint ToString (v : value) : completion jsstring :=
  match v with
  | JUndefined => inl (js "undefined")
  | JNull => inl (js "null")
  | JBool true => inl (js "true")
  | JBool false => inl (js "false")
  | JNum x => inl (Num.toString x)
  | JStr s => inl s
  | JArr l =>
      match sequence (map (fun e => match e with
                                    | JUndefined | JNull => inl []
                                    | _ => ToString e
                                    end) l) with
      | inl texts => inl (join [44] texts)
      | inr e => inr e
      end
  | JObj props =>
      if has_own (js "toString") props
      then inr (TypeError "Cannot convert object to primitive value")
      else inl (js "[object Object]")
  end.

(** *** StringToNumber *)

Fixpoint span_digits (s : jsstring) : jsstring * jsstring :=
  match s with
  | c :: r =>
      if is_digit c then let '(d, r') := span_digits r in (c :: d, r')
      else ([], s)
  | [] => ([], [])
  end.

(** [digits_value] in another base, [None] when a character is not a digit
    of the base. *)
Fixpoint radix_value (base : N) (acc : N) (s : jsstring) : option N :=
  match s with
  | [] => Some acc
  | c :: r =>
      match hex_val c with
      | Some h => if h <? base then radix_value base (acc * base + h) r else None
      | None => None
      end
  end.

Definition of_integer (n : N) : spec_float := Num.of_decimal false n 0.

(** An unsigned StrDecimalLiteral: digits with an optional fraction and
    exponent, or [Infinity]. *)
Definition unsigned_decimal (neg : bool) (s : jsstring) : spec_float :=
  if Str.eqb s (js "Infinity") then S754_infinity neg
  else
    let '(ip, r1) := span_digits s in
    let '(fp, r2) := match r1 with
                     | 46 :: r => span_digits r
                     | _ => ([], r1)
                     end in
    match ip, fp with
    | [], [] => S754_nan
    | _, _ =>
        let m := digits_value (ip ++ fp) in
        let f := Z.of_nat (List.length fp) in
        match r2 with
        | [] => Num.of_decimal neg m (- f)
        | c :: r3 =>
            if (c =? 101) || (c =? 69) then
              let '(eneg, r4) := match r3 with
                                 | 45 :: r => (true, r)
                                 | 43 :: r => (false, r)
                                 | _ => (false, r3)
                                 end in
              match span_digits r4 with
              | ((_ :: _) as ed, []) =>
                  let e := Z.of_N (digits_value ed) in
                  Num.of_decimal neg m ((if eneg then - e else e) - f)
              | _ => S754_nan
              end
            else S754_nan
        end
    end.

Definition StringToNumber (s : jsstring) : spec_float :=
  match trim s with
  | [] => S754_zero false
  | 48 :: c :: ((_ :: _) as r) =>
      let based b := match radix_value b 0 r with
                     | Some n => of_integer n
                     | None => S754_nan
                     end in
      if (c =? 120) || (c =? 88) then based 16
      else if (c =? 111) || (c =? 79) then based 8
      else if (c =? 98) || (c =? 66) then based 2
      else unsigned_decimal false (trim s)
  | 45 :: r => unsigned_decimal true r
  | 43 :: r => unsigned_decimal false r
  | t => unsigned_decimal false t
  end.

(** ToNumber of a value built from JSON data. *)
Definition ToNumber (v : value) : completion spec_float :=
  match v with
  | JUndefined => inl S754_nan
  | JNull => inl (S754_zero false)
  | JBool true => inl (of_integer 1)
  | JBool false => inl (S754_zero false)
  | JNum x => inl x
  | JStr s => inl (StringToNumber s)
  | JArr _ | JObj _ =>
      match ToString v with
      | inl s => inl (StringToNumber s)
      | inr e => inr e
      end
  end.

End Conv.

Import Conv.

(** ** [JSON.stringify] *)

Module Stringify.

Definition hex_digit (n : N) : N := if n <? 10 then 48 + n else 87 + n.

(** [\uXXXX] with lower-case digits. *)
Definition unicode_escape (c : N) : jsstring :=
  [92; 117; hex_digit (c / 4096 mod 16); hex_digit (c / 256 mod 16);
   hex_digit (c / 16 mod 16); hex_digit (c mod 16)].

Definition is_lead (c : N) : bool := (55296 <=? c) && (c <=? 56319).
Definition is_trail (c : N) : bool := (56320 <=? c) && (c <=? 57343).

Definition escape_unit (c : N) : jsstring :=
  if c =? 8 then [92; 98]
  else if c =? 9 then [92; 116]
  else if c =? 10 then [92; 110]
  else if c =? 12 then [92; 102]
  else if c =? 13 then [92; 114]
  else if c =? 34 then [92; 34]
  else if c =? 92 then [92; 92]
  else if c <? 32 then unicode_escape c
  else [c].

(** QuoteJSONString without the quotes: a surrogate pair is copied, a
    surrogate on its own is escaped. *)
Fixpoint quote_body (s : jsstring) : jsstring :=
  match s with
  | [] => []
  | c :: r =>
      if is_lead c then
        match r with
        | d :: r' =>
            if is_trail d then c :: d :: quote_body r'
            else unicode_escape c ++ quote_body r
        | [] => unicode_escape c
        end
      else if is_trail c then unicode_escape c ++ quote_body r
      else escape_unit c ++ quote_body r
  end.

Definition quote (s : jsstring) : jsstring := [34] ++ quote_body s ++ [34].

Definition number_text (x : spec_float) : jsstring :=
  match x with
  | S754_finite _ _ _ | S754_zero _ => Num.toString x
  | _ => js "null"
  end.

(** SerializeJSONProperty, without indentation.  In an array [undefined]
    prints as [null]; in an object a property whose value is [undefined] is
    left out. *)
Fixpoint serialize (v : value) : jsstring :=
  match v with
  | JUndefined => js "null"
  | JNull => js "null"
  | JBool true => js "true"
  | JBool false => js "false"
  | JNum x => number_text x
  | JStr s => quote s
  | JArr l => [91] ++ join [44] (map serialize l) ++ [93]
  | JObj props =>
      [123] ++
      join [44]
        ((fix members (ps : list (jsstring * value)) : list jsstring :=
            match ps with
            | [] => []
            | (_, JUndefined) :: r => members r
            | (k, x) :: r => (quote k ++ [58] ++ serialize x) :: members r
            end) props)
      ++ [125]
  end.

(** [JSON.stringify(v)]: [None] is [undefined]. *)
Definition stringify (v : value) : option jsstring :=
  match v with
  | JUndefined => None
  | _ => Some (serialize v)
  end.

(** *** Vocabulary for the statements *)

(** Every number of [v] prints to a text that reads back as the same
    Number.  This leaves out the infinities and NaN, which print as [null],
    and the negative zero, which prints as [0]. *)
Fixpoint numbers_ok (v : value) : Prop :=
  match v with
  | JNum x => number_of_text (number_text x) = Some x
  | JArr l =>
      (fix all (l : list value) : Prop :=
         match l with
         | [] => True
         | a :: r => numbers_ok a /\ all r
         end) l
  | JObj ps =>
      (fix all (ps : list (jsstring * value)) : Prop :=
         match ps with
         | [] => True
         | (_, a) :: r => numbers_ok a /\ all r
         end) ps
  | _ => True
  end.

(** The values that keep their identity in JSON text. *)
Definition storable (v : value) : Prop := built v /\ numbers_ok v.

(** One member of an object, as printed. *)
Definition member (kv : jsstring * value) : jsstring :=
  quote (fst kv) ++ [58] ++ serialize (snd kv).

(** A number is read to its end only when a delimiter follows. *)
Definition ends_ok (v : value) (rest : jsstring) : Prop :=
  match v with
  | JNum _ => exists d r, rest = d :: r /\ is_delimiter d = true
  | _ => True
  end.

(** The parser reads the text of [v] as [v]: from the first character on,
    whatever container is open. *)
Definition reads (v : value) : Prop :=
  forall (K : list frame) (st1 : pstate) (rest : jsstring),
    push_value v K = Some st1 -> ends_ok v rest ->
    exists c t st0,
      serialize v = c :: t /\ is_json_ws c = false /\ c <> 93
      /\ begin_value K c = Some st0
      /\ run st0 (t ++ rest) = run st1 rest.

End Stringify.

(** ** The settings handlers *)

Module Settings.

(** The table [admin_settings] is a list of rows, in the order in which
    [SELECT] returns them.  The database is taken to carry out every
    statement: the [err] branches of the two callbacks are not modelled. *)

(** A row of [admin_settings]. *)
Record row := mkRow {
  setting_key : jsstring;
  setting_value : jsstring;
  updated_at : jsstring
}.

(** Modelled from the spec: the schema of [admin_settings] is created by the
    worker and is not in this repository.  The Settings Store "exposes
    getAll and upsert(key, value, timestamp)": [INSERT OR REPLACE] on a
    table keyed by [setting_key] removes the row of that key and appends the
    new one. *)
Definition insert_or_replace (r : row) (db : list row) : list row :=
  filter (fun r' => negb (Str.eqb (setting_key r') (setting_key r))) db ++ [r].

(** [Object.entries(v)]. *)
Definition entries (v : value) : completion (list (jsstring * value)) :=
  match v with
  | JUndefined | JNull =>
      inr (TypeError "Cannot convert undefined or null to object")
  | JObj props => inl props
  | JArr l => inl (combine (map (fun i => of_N (N.of_nat i)) (seq 0 (List.length l))) l)
  | JStr s =>
      inl (combine (map (fun i => of_N (N.of_nat i)) (seq 0 (List.length s)))
                   (map (fun c => JStr [c]) s))
  | _ => inl []
  end.

(** Line 134: [JSON.stringify(value)] for arrays and for everything whose
    [typeof] is ['object'] ([null] included), [String(value)] otherwise. *)
Definition valueStr (v : value) : jsstring :=
  match v with
  | JArr _ | JObj _ | JNull => Stringify.serialize v
  | JStr s => s
  | JNum x => Num.toString x
  | JBool true => js "true"
  | JBool false => js "false"
  | JUndefined => js "undefined"
  end.

(** What the table keeps of a text.  [db.run] hands its parameters to SQLite
    as UTF-8 and [db.all] reads the columns back from UTF-8; a surrogate
    that is not half of a pair has no UTF-8 form, and U+FFFD is stored in
    its place. *)
Fixpoint as_utf8 (s : jsstring) : jsstring :=
  match s with
  | [] => []
  | c :: r =>
      if Stringify.is_lead c then
        match r with
        | d :: r' =>
            if Stringify.is_trail d then c :: d :: as_utf8 r'
            else 65533 :: as_utf8 r
        | [] => [65533]
        end
      else if Stringify.is_trail c then 65533 :: as_utf8 r
      else c :: as_utf8 r
  end.

(** The [for] loop of lines 133-148; [clock i] is [new Date().toISOString()]
    at the [i]-th write. *)
Fixpoint write_all (clock : nat -> jsstring) (i : nat)
         (es : list (jsstring * value)) (db : list row) : list row :=
  match es with
  | [] => db
  | (key, v) :: r =>
      write_all clock (S i) r
                (insert_or_replace
                   (mkRow (as_utf8 key) (as_utf8 (valueStr v)) (as_utf8 (clock i))) db)
  end.

(** Line 131, [const { settings } = req.body]. *)
Definition settings_of (body : value) : completion value :=
  match body with
  | JUndefined =>
      inr (TypeError "Cannot destructure property 'settings' of 'req.body' as it is undefined.")
  | JNull =>
      inr (TypeError "Cannot destructure property 'settings' of 'req.body' as it is null.")
  | _ => Get body (js "settings")
  end.

(** [PUT /api/admin/settings], lines 129-155: the body given to [res.json]
    and the table afterwards. *)
Definition put_settings (clock : nat -> jsstring) (body : value) (db : list row)
  : value * list row :=
  match (do settings <- settings_of body; entries settings) with
  | inl es =>
      (JObj [(js "success", JBool true)], write_all clock 0 es db)
  | inr error =>
      (JObj [(js "success", JBool false); (js "error", JStr (message error))], db)
  end.

(** The object [settings] of the GET handler while it is filled: its own
    properties, and its prototype when it is no longer [Object.prototype]. *)
Definition obj_state := (list (jsstring * value) * option value)%type.

(** [settings[key] = v].  Assigning to [__proto__] reaches the accessor of
    [Object.prototype], which swaps the prototype for an object value and
    ignores any other; unless the prototype installed earlier has an own
    property of that name, a data property that the assignment then shadows.
    Every other key becomes an own property. *)
Definition assign (key : jsstring) (v : value) (st : obj_state) : obj_state :=
  let '(props, proto) := st in
  if Str.eqb key (js "__proto__") then
    if has_own key props then (define key v props, proto)
    else
      match proto with
      | Some (JObj p) =>
          if has_own key p then (define key v props, proto)
          else match v with
               | JObj _ | JArr _ => (props, Some v)
               | _ => st
               end
      | _ =>
          match v with
          | JObj _ | JArr _ => (props, Some v)
          | _ => st
          end
      end
  else (define key v props, proto).

(** The callback of [rows.forEach], lines 108-119. *)
Definition read_row (st : obj_state) (r : row) : obj_state :=
  if startsWith (setting_value r) (js "[") || startsWith (setting_value r) (js "{")
  then
    match parse (setting_value r) with
    | inl v => assign (setting_key r) v st
    | inr _ => assign (setting_key r) (JStr (setting_value r)) st
    end
  else assign (setting_key r) (JStr (setting_value r)) st.

(** [getAll]: the object [settings] after the loop over the rows. *)
Definition getAll (db : list row) : list (jsstring * value) :=
  fst (fold_left read_row db ([], None)).

(** [GET /api/admin/settings], lines 98-126: the body given to [res.json]. *)
Definition get_settings (db : list row) : value :=
  JObj [(js "success", JBool true); (js "settings", JObj (getAll db))].

(** *** Vocabulary for the statements *)

(** The text stored under [key]: that of the last row with this key. *)
Fixpoint stored (key : jsstring) (db : list row) : option jsstring :=
  match db with
  | [] => None
  | r :: db' =>
      match stored key db' with
      | Some t => Some t
      | None => if Str.eqb (setting_key r) key then Some (setting_value r) else None
      end
  end.

(** The value the GET handler makes of a stored text. *)
Definition read_back (text : jsstring) : value :=
  if startsWith text (js "[") || startsWith text (js "{") then
    match parse text with
    | inl v => v
    | inr _ => JStr text
    end
  else JStr text.



(** A unit that is no surrogate. *)
Definition no_surrogate (c : N) : bool :=
  negb (Stringify.is_lead c) && negb (Stringify.is_trail c).

(** A character of the text of a number. *)
Definition number_char (c : N) : bool :=
  existsb (N.eqb c) (js "0123456789+-.eInfinityNaN").

(** A text that the table keeps as it is, whatever follows it. *)
Definition kept_text (a : jsstring) : Prop :=
  forall rest, as_utf8 (a ++ rest) = a ++ as_utf8 rest.

(** Some key of the request is stored as [key]. *)
Definition names (key : jsstring) (es : list (jsstring * value)) : bool :=
  existsb (fun e => Str.eqb (as_utf8 (fst e)) key) es.

(** Another key of the request than [key] is stored as [key]: one with a
    surrogate on its own where [key] has U+FFFD. *)
Definition rivals (key : jsstring) (es : list (jsstring * value)) : bool :=
  existsb (fun e => Str.eqb (as_utf8 (fst e)) key && negb (Str.eqb (fst e) key)) es.

End Settings.

(** ** The chat handler *)

Module Chat.

Definition percent (v : value) : completion jsstring :=
  do x <- ToNumber v;
  inl (Num.toFixed (Num.mul x (Conv.of_integer 100)) 1).

(** [message.toLowerCase()]: a method of strings only. *)
Definition lowered (msg : value) : completion jsstring :=
  match msg with
  | JStr s => inl (toLowerCase s)
  | _ => inr (TypeError "message.toLowerCase is not a function")
  end.

Definition mentions (msg : value) (word : string) : completion bool :=
  do l <- lowered msg; inl (includes l (js word)).

Definition either (a b : completion bool) : completion bool :=
  do x <- a; if x then inl true else b.

(** The text of lines 224-232. *)
Definition reply (msg result data : value) : completion value :=
  do c1 <- either (mentions msg "status") (mentions msg "current");
  if c1 then
    do oc <- Get data (js "overall_completes");
    do a <- ToString oc;
    do tq <- Get data (js "total_quota");
    do b <- ToString tq;
    do cp <- Get data (js "completion_percentage");
    do p <- percent cp;
    inl (JStr (js "Current recruitment status: " ++ a ++ js " out of " ++ b
               ++ js " participants completed (" ++ p ++ js "% complete)."))
  else
    do c2 <- either (mentions msg "report") (mentions msg "latest");
    if c2 then Get result (js "analysis")
    else
      do c3 <- mentions msg "progress";
      if c3 then
        do oc <- Get data (js "overall_completes");
        do a <- ToString oc;
        do tq <- Get data (js "total_quota");
        do b <- ToString tq;
        do cp <- Get data (js "completion_percentage");
        do p <- percent cp;
        inl (JStr (js "We've made good progress! Currently at " ++ a
                   ++ js " completes out of " ++ b ++ js " target, which is "
                   ++ p ++ js "% of our goal."))
      else
        do an <- Get result (js "analysis");
        do t <- ToString an;
        inl (JStr (js "Here's the latest update: " ++ t)).

(** The [try] block, lines 215-244, once [runPythonScript] has resolved with
    [result]. *)
Definition answer (msg result : value) : completion value :=
  do ok <- Get result (js "success");
  if ToBoolean ok then
    do data <- Get result (js "project_data");
    do response <- reply msg result data;
    inl (JObj [(js "success", JBool true); (js "response", response);
               (js "data", data)])
  else
    inl (JObj [(js "success", JBool false);
               (js "response",
                JStr (js "I'm having trouble accessing the latest data right now. Please try again in a moment."))]).

Definition apology : value :=
  JObj [(js "success", JBool false);
        (js "response",
         JStr (js "I'm experiencing some technical difficulties. Please try again later."))].

(** [POST /api/client/chat], lines 213-252: the body given to [res.json]
    for the request body [body], when the promise of
    [runPythonScript(['generate_report'])] has settled as [outcome]; nothing
    is sent while it is pending. *)
Definition chat (body : value) (outcome : promise) : option value :=
  match Get body (js "message") with
  | inr _ => Some apology
  | inl msg =>
      match outcome with
      | Pending => None
      | Rejected _ => Some apology
      | Fulfilled result =>
          match answer msg result with
          | inl reply_body => Some reply_body
          | inr _ => Some apology
          end
      end
  end.

End Chat.

(** ** Worker runs used as examples *)

Module Scenario.

Definition args : list jsstring := [js "generate_report"].

(** The run of the specification's scenario: a progress line, the report,
    a closing line. *)
Definition report_line : jsstring :=
  jsq "{'success': true, 'project_data': {'overall_completes': 45, 'total_quota': 100, 'completion_percentage': 0.45}, 'analysis': 'On track.'}".

Definition report_output : jsstring :=
  unlines [js "Loading data..."; report_line; js "Done."].

(** The same report, indented, on a line that ends with a carriage return. *)
Definition padded_output : jsstring :=
  unlines [js "Loading data..."; js "  " ++ report_line ++ [32; 13]; js "Done."].

(** A Python [dict] printed with [print]: it starts with a brace and is not
    JSON. *)
Definition dict_line : jsstring := js "{'rows': 120}".

Definition ok_line : jsstring := jsq "{'success': true}".

(** A report printed over several lines. *)
Definition pretty_output : jsstring :=
  unlines [js "{"; jsq "  'success': true"; js "}"].

(** A worker that cannot be started: Node delivers [error], then [close]
    with the negated errno. *)
Definition enoent : list event :=
  [Error (js "spawn python ENOENT"); Close (Some (-2)%Z)].

(** A settings request, and the time of its writes. *)
Definition settings_entries : list (jsstring * value) :=
  [(js "sender_name", JStr (js "Recruitment Team"));
   (js "report_hour", JStr (js "9"));
   (js "recipients",
    JArr [JStr (js "ops@example.com"); JStr (jsq "'QA' <qa@example.com>")]);
   (js "thresholds",
    JObj [(js "warn", JNum (Num.of_decimal false 75 (-2)));
          (js "quota", JNum (Num.of_decimal false 100 0));
          (js "tags", JArr [JNull; JBool true])]);
   (js "note", JStr (jsq "[1, 2]"))].

Definition settings_body : value :=
  JObj [(js "settings", JObj settings_entries)].

(** The text of that request. *)
Definition settings_text : jsstring :=
  jsq "{'settings': {'sender_name': 'Recruitment Team', 'report_hour': '9', 'recipients': ['ops@example.com', '\'QA\' <qa@example.com>'], 'thresholds': {'warn': 0.75, 'quota': 100, 'tags': [null, true]}, 'note': '[1, 2]'}}".

Definition clock : nat -> jsstring := fun _ => js "2024-05-01T09:00:00.000Z".

End Scenario.

(** ** Buffers: [data.toString('utf8')] *)

Module Utf8.

(** A [Buffer] is its sequence of bytes, each below 256. *)
Definition buffer := list N.

(** The UTF-16 form of a code point. *)
Definition utf16 (cp : N) : jsstring :=
  if cp <? 65536 then [cp]
  else [55296 + N.shiftr (cp - 65536) 10; 56320 + N.land (cp - 65536) 1023].

(** The decoder is between two characters, or inside one: with the bits
    read so far, the number of bytes still to come after the next one, and
    the range the next byte has to lie in. *)
Inductive pending :=
| Idle
| Inside (cp : N) (more : nat) (lower upper : N).

(** A byte met between two characters: what it gives at once, and the state
    it leaves.  A byte that cannot start a character gives U+FFFD. *)
Definition lead (b : N) : jsstring * pending :=
  if b <=? 127 then ([b], Idle)
  else if (194 <=? b) && (b <=? 223) then ([], Inside (N.land b 31) 0 128 191)
  else if (224 <=? b) && (b <=? 239) then
    ([], Inside (N.land b 15) 1
                (if b =? 224 then 160 else 128) (if b =? 237 then 159 else 191))
  else if (240 <=? b) && (b <=? 244) then
    ([], Inside (N.land b 7) 2
                (if b =? 240 then 144 else 128) (if b =? 244 then 143 else 191))
  else ([65533], Idle).

(** Decoding with replacement: a character that is cut short, by a byte out
    of range or by the end of the buffer, gives one U+FFFD, and the byte
    that cut it short is read again as the start of a character. *)
Fixpoint decode_from (p : pending) (bytes : buffer) : jsstring :=
  match bytes with
  | [] =>
      match p with
      | Idle => []
      | Inside _ _ _ _ => [65533]
      end
  | b :: r =>
      match p with
      | Idle => let '(out, p') := lead b in out ++ decode_from p' r
      | Inside cp more lower upper =>
          if (lower <=? b) && (b <=? upper) then
            let cp' := N.lor (N.shiftl cp 6) (N.land b 63) in
            match more with
            | O => utf16 cp' ++ decode_from Idle r
            | S more' => decode_from (Inside cp' more' 128 191) r
            end
          else let '(out, p') := lead b in 65533 :: out ++ decode_from p' r
      end
  end.

(** [data.toString('utf8')]: each buffer is decoded on its own. *)
Definition toString (data : buffer) : jsstring := decode_from Idle data.

(** The [data] listener of lines 35-37 on the buffers the stdout stream
    delivers. *)
Definition received (chunks : list buffer) : list event :=
  map (fun data => StdoutData (toString data)) chunks.

(** *** Vocabulary for the statements *)

(** The code points a text is made of: all but the surrogates. *)
Definition scalar (cp : N) : bool :=
  (cp <? 55296) || ((57344 <=? cp) && (cp <? 1114112)).

(** The bytes a worker writes for a code point. *)
Definition encode (cp : N) : buffer :=
  if cp <? 128 then [cp]
  else if cp <? 2048 then [192 + cp / 64; 128 + cp mod 64]
  else if cp <? 65536 then
    [224 + cp / 4096; 128 + cp / 64 mod 64; 128 + cp mod 64]
  else [240 + cp / 262144; 128 + cp / 4096 mod 64; 128 + cp / 64 mod 64;
        128 + cp mod 64].

(** A byte that continues a character. *)
Definition continuation (b : N) : bool := (128 <=? b) && (b <=? 191).

End Utf8.

(** ** The routes that call the Bridge *)

Module Routes.

(** [{ success: false, error: error.message }], the body sent by the
    [catch] blocks of the admin routes. *)
Definition failure (error : JsError) : value :=
  JObj [(js "success", JBool false); (js "error", JStr (message error))].

(** Lines 158-166 and 169-177: the body given to [res.json] once the promise
    of [runPythonScript] has settled as [outcome]; nothing is sent while it
    is pending. *)
Definition bridge_route (outcome : promise) : option value :=
  match outcome with
  | Pending => None
  | Fulfilled result => Some result
  | Rejected error => Some (failure error)
  end.

(** [POST /api/admin/generate-report] and [POST /api/admin/send-emails]
    against a worker that delivers the events [evs]. *)
Definition generate_report (evs : list event) : option value :=
  bridge_route (result (runPythonScript [js "generate_report"] evs)).

Definition send_emails (evs : list event) : option value :=
  bridge_route (result (runPythonScript [js "send_emails"] evs)).

(** [res.json(body)] sends the text [JSON.stringify(body)]. *)
Definition sent (response : option value) : option jsstring :=
  match response with
  | Some body => Stringify.stringify body
  | None => None
  end.

(** *** Vocabulary for the statements *)

(** The three rejections of [runPythonScript], the text the message of each
    starts with, and the causes a message may have by the way it starts. *)
Inductive cause := SpawnFailure | NonZeroExit | UnparsableOutput.

Definition prefix_of (c : cause) : jsstring :=
  match c with
  | SpawnFailure => js "Failed to start Python process: "
  | NonZeroExit => js "Python script failed with code "
  | UnparsableOutput => js "Failed to parse Python output: "
  end.

Definition causes_of (msg : jsstring) : list cause :=
  filter (fun c => startsWith msg (prefix_of c))
         [SpawnFailure; NonZeroExit; UnparsableOutput].

End Routes.

(** ** Start-up *)

Module Startup.

(** [process.env.PORT || 3000]: the variable when it is set and not
    empty. *)
Definition PORT (env : option jsstring) : value :=
  match env with
  | Some (c :: s) => JStr (c :: s)
  | _ => JNum (Conv.of_integer 3000)
  end.

(** The lines [console.log] writes while the database is set up. *)
Inductive notice :=
| DatabaseInitialized   (* 'Database initialized successfully' *)
| DatabaseMayExist.     (* 'Database may already be initialized or Python script not found' *)

(** [initializeDatabase()], lines 255-267: the promise it returns and what
    it has logged, for an [init_db] worker that delivers the events [evs].
    The [then] and the [catch] callback both end in [resolve()]. *)
Definition initializeDatabase (evs : list event) : promise * list notice :=
  match result (runPythonScript [js "init_db"] evs) with
  | Pending => (Pending, [])
  | Fulfilled _ => (Fulfilled JUndefined, [DatabaseInitialized])
  | Rejected _ => (Fulfilled JUndefined, [DatabaseMayExist])
  end.

(** How far [startServer()] has got. *)
Inductive progress :=
| Waiting                   (* in [await initializeDatabase()] *)
| Listening (port : value)  (* [app.listen(PORT, ...)] has been called *)
| Exited (code : Z).        (* [process.exit(1)] *)

(** [startServer()], lines 270-288.  [app.listen] is taken not to throw. *)
Definition startServer (env : option jsstring) (evs : list event) : progress :=
  match fst (initializeDatabase evs) with
  | Pending => Waiting
  | Fulfilled _ => Listening (PORT env)
  | Rejected _ => Exited 1
  end.

End Startup.

(** ** A database that refuses statements *)

Module Store.

(** The [err] branches of the callbacks of [db.run] and [db.all].  The
    database may refuse a statement: [refused i] is the error it answers the
    [i]-th [db.run] of a request with, [None] when it carries the statement
    out.  A statement that is refused changes nothing. *)
Definition faults := nat -> option JsError.

(** The loop of lines 133-148: the first statement that is refused rejects
    the promise awaited at line 138, which ends the loop. *)
Fixpoint write_until (clock : nat -> jsstring) (refused : faults) (i : nat)
         (es : list (jsstring * value)) (db : list Settings.row)
  : list Settings.row * option JsError :=
  match es with
  | [] => (db, None)
  | (key, v) :: r =>
      match refused i with
      | Some err => (db, Some err)
      | None =>
          write_until clock refused (S i) r
            (Settings.insert_or_replace
               (Settings.mkRow (Settings.as_utf8 key)
                               (Settings.as_utf8 (Settings.valueStr v))
                               (Settings.as_utf8 (clock i))) db)
      end
  end.

(** [PUT /api/admin/settings], lines 129-155, against such a database. *)
Definition put_settings (clock : nat -> jsstring) (refused : faults)
           (body : value) (db : list Settings.row) : value * list Settings.row :=
  match (do settings <- Settings.settings_of body; Settings.entries settings) with
  | inl es =>
      match write_until clock refused 0 es db with
      | (db', None) => (JObj [(js "success", JBool true)], db')
      | (db', Some err) => (Routes.failure err, db')
      end
  | inr error => (Routes.failure error, db)
  end.

(** [GET /api/admin/settings], lines 98-126, for the answer of [db.all]:
    the rows, or an error. *)
Definition get_settings (answer : list Settings.row + JsError) : value :=
  match answer with
  | inl rows => Settings.get_settings rows
  | inr error => Routes.failure error
  end.

(** *** Vocabulary for the statements *)

(** The rows stored under a key. *)
Definition rows_of (key : jsstring) (db : list Settings.row) : list Settings.row :=
  filter (fun r => Str.eqb (Settings.setting_key r) key) db.

End Store.

(** ** Vocabulary for the statements about figures, lines, messages and rows *)

Module Figures.

(** A Number that [toFixed] prints with digits: a zero, or a finite value
    below [10^21] in magnitude. *)
Definition fixable (x : spec_float) : bool :=
  match x with
  | S754_zero _ => true
  | S754_finite _ m e =>
      let '(a, b) := Num.fraction m e in negb (Num.pow10 21 * b <=? a)%Z
  | _ => false
  end.

End Figures.

Module Lines.

(** A line: a text without a line feed. *)
Definition is_line (l : jsstring) : bool := forallb (fun c => negb (c =? 10)) l.

(** A character that opens neither an array nor an object. *)
Definition plain (c : N) : bool := negb (c =? 91) && negb (c =? 123).

End Lines.

Module Topics.

(** The four branches of lines 224-232, and a message that takes each. *)
Inductive topic := Status | Report | Progress | Other.

Definition topic_of (message : jsstring) : topic :=
  let text := toLowerCase message in
  if includes text (js "status") || includes text (js "current") then Status
  else if includes text (js "report") || includes text (js "latest") then Report
  else if includes text (js "progress") then Progress
  else Other.

Definition keyword (t : topic) : jsstring :=
  match t with
  | Status => js "status"
  | Report => js "report"
  | Progress => js "progress"
  | Other => []
  end.

(** The reply of lines 240-243, to a report that says it has failed. *)
Definition trouble : value :=
  JObj [(js "success", JBool false);
        (js "response",
         JStr (js "I'm having trouble accessing the latest data right now. Please try again in a moment."))].

(** A value with a [toLowerCase] method. *)
Definition is_text (v : value) : bool :=
  match v with
  | JStr _ => true
  | _ => false
  end.

End Topics.

Module Rows.

(** The two columns the GET handler selects. *)
Definition selected (r : Settings.row) : jsstring * jsstring :=
  (Settings.setting_key r, Settings.setting_value r).

(** The keys and texts a request leaves in the table: of the writes under
    one stored key, the last. *)
Fixpoint written (es : list (jsstring * value)) : list (jsstring * jsstring) :=
  match es with
  | [] => []
  | (key, v) :: r =>
      (if Settings.names (Settings.as_utf8 key) r then []
       else [(Settings.as_utf8 key, Settings.as_utf8 (Settings.valueStr v))])
      ++ written r
  end.

(** [null], a boolean or a number. *)
Definition is_scalar (v : value) : bool :=
  match v with
  | JNull | JBool _ | JNum _ => true
  | _ => false
  end.

End Rows.

(** ** More runs and requests used as examples *)

Module Samples.

(** A report line with letters outside ASCII, as code points: the name
    "Zoë" and the price "5 €". *)
Definition price_line : list N :=
  jsq "{'name': 'Zo" ++ [235] ++ jsq "', 'price': '5 " ++ [8364] ++ jsq "'}".

(** The output of the scenario with the line ends of Windows. *)
Definition report_lines : list jsstring :=
  [js "Loading data..."; Scenario.report_line; js "Done."].

(** A settings request with values that are not strings. *)
Definition typed_entries : list (jsstring * value) :=
  [(js "report_hour", JNum (Num.of_decimal false 9 0));
   (js "reminders", JBool true);
   (js "reply_to", JNull)].

Definition typed_body : value := JObj [(js "settings", JObj typed_entries)].

Definition typed_text : jsstring :=
  jsq "{'settings': {'report_hour': 9, 'reminders': true, 'reply_to': null}}".

(** A table with one row. *)
Definition one_row : list Settings.row :=
  [Settings.mkRow (js "smtp_host") (js "mail.example.com")
                  (js "2024-04-30T08:00:00.000Z")].

Definition later : nat -> jsstring := fun _ => js "2024-05-02T10:30:00.000Z".

End Samples.

(** * Properties *)

Import Bridge.

(** ** Strings *)

Lemma startsWith_app (p s : jsstring) : startsWith (p ++ s) p = true.
Proof.
  induction p as [|a p IH]; simpl; [reflexivity|].
  now rewrite N.eqb_refl, IH.
Qed.

Lemma includes_start (s p : jsstring) :
  startsWith s p = true -> includes s p = true.
Proof. intros H. destruct s; simpl; now rewrite H. Qed.

Lemma includes_app (pre p post : jsstring) :
  includes (pre ++ p ++ post) p = true.
Proof.
  induction pre as [|c pre IH].
  - cbn [app]. apply includes_start, startsWith_app.
  - simpl. rewrite IH. apply orb_true_r.
Qed.

Lemma includes_inv (s p : jsstring) :
  includes s p = true -> exists pre post, s = pre ++ p ++ post.
Proof.
  assert (SW : forall s p, startsWith s p = true -> exists post, s = p ++ post).
  { clear. intros s p; revert s.
    induction p as [|a p IH]; intros s H.
    - exists s; reflexivity.
    - destruct s as [|c s]; simpl in H; [discriminate|].
      apply andb_true_iff in H as [H1 H2]. apply N.eqb_eq in H1; subst c.
      destruct (IH _ H2) as [post ->]. exists post; reflexivity. }
  induction s as [|c s IH]; simpl; intros H.
  - rewrite orb_false_r in H. destruct (SW _ _ H) as [post E].
    exists [], post. exact E.
  - apply orb_true_iff in H as [H|H].
    + destruct (SW _ _ H) as [post E]. exists [], post. exact E.
    + destruct (IH H) as [pre [post E]]. exists (c :: pre), post.
      simpl. now rewrite E.
Qed.

(** ** Objects *)

Lemma eqb_eq (a b : jsstring) : Str.eqb a b = true <-> a = b.
Proof.
  unfold Str.eqb. destruct (list_eq_dec N.eq_dec a b); split; congruence.
Qed.

Lemma eqb_neq (a b : jsstring) : Str.eqb a b = false <-> a <> b.
Proof.
  unfold Str.eqb. destruct (list_eq_dec N.eq_dec a b); split; congruence.
Qed.

Lemma eqb_refl (a : jsstring) : Str.eqb a a = true.
Proof. now apply eqb_eq. Qed.

Lemma eqb_sym (a b : jsstring) : Str.eqb a b = Str.eqb b a.
Proof.
  destruct (Str.eqb b a) eqn:E.
  - apply eqb_eq in E. subst. apply eqb_refl.
  - apply eqb_neq. apply eqb_neq in E. congruence.
Qed.

(** *** Own properties *)

Lemma get_own_replace (k k' : jsstring) (v : value) (ps : list (jsstring * value)) :
  get_own k' (replace_own k v ps)
  = if Str.eqb k' k && has_own k ps then Some v else get_own k' ps.
Proof.
  induction ps as [|[q x] ps IH]; cbn [replace_own get_own has_own].
  - now rewrite andb_false_r.
  - destruct (Str.eqb k q) eqn:E.
    + apply eqb_eq in E. subst q. cbn [get_own orb].
      destruct (Str.eqb k' k); reflexivity.
    + cbn [get_own orb]. rewrite IH.
      destruct (Str.eqb k' q) eqn:E'; [|reflexivity].
      apply eqb_eq in E'. subst q. rewrite eqb_sym, E. reflexivity.
Qed.

Lemma get_own_append (k k' : jsstring) (v : value) (ps : list (jsstring * value)) :
  get_own k' (ps ++ [(k, v)])
  = match get_own k' ps with
    | Some x => Some x
    | None => if Str.eqb k' k then Some v else None
    end.
Proof.
  induction ps as [|[q x] ps IH]; cbn [app get_own]; [reflexivity|].
  destruct (Str.eqb k' q); [reflexivity|exact IH].
Qed.

Lemma has_own_get (k : jsstring) (ps : list (jsstring * value)) :
  has_own k ps = false -> get_own k ps = None.
Proof.
  induction ps as [|[q x] ps IH]; cbn [has_own get_own]; [reflexivity|].
  intros H. apply orb_false_iff in H as [H1 H2]. rewrite H1. auto.
Qed.

Lemma get_own_insert (i : N) (k k' : jsstring) (v : value)
      (ps : list (jsstring * value)) :
  array_index k = Some i -> has_own k ps = false ->
  get_own k' (insert_index i k v ps)
  = if Str.eqb k' k then Some v else get_own k' ps.
Proof.
  intros A. induction ps as [|[q x] ps IH]; cbn [insert_index has_own get_own];
    intros H; [reflexivity|].
  apply orb_false_iff in H as [H1 H2].
  destruct (array_index q) as [j|] eqn:Aq; [destruct (j <? i)|];
    cbn [get_own]; try reflexivity.
  rewrite (IH H2). destruct (Str.eqb k' q) eqn:E; [|reflexivity].
  apply eqb_eq in E. subst q.
  destruct (Str.eqb k' k) eqn:E'; [|reflexivity].
  apply eqb_eq in E'. subst k'. now rewrite eqb_refl in H1.
Qed.

Lemma get_own_define (k k' : jsstring) (v : value) (ps : list (jsstring * value)) :
  get_own k' (define k v ps) = if Str.eqb k' k then Some v else get_own k' ps.
Proof.
  unfold define. destruct (has_own k ps) eqn:H.
  - rewrite get_own_replace, H, andb_true_r. reflexivity.
  - destruct (array_index k) as [i|] eqn:A.
    + now apply get_own_insert.
    + rewrite get_own_append. destruct (Str.eqb k' k) eqn:E.
      * apply eqb_eq in E. subst k'. now rewrite (has_own_get _ _ H).
      * destruct (get_own k' ps); reflexivity.
Qed.

(** *** The order of the properties *)

Lemma digits_value_snoc (s : jsstring) (c : N) :
  digits_value (s ++ [c]) = digits_value s * 10 + (c - 48).
Proof. unfold digits_value. now rewrite fold_left_app. Qed.

Lemma fold_digits_ge (s : jsstring) (a : N) :
  a <= fold_left (fun acc c => acc * 10 + (c - 48)) s a.
Proof.
  revert a. induction s as [|c s IH]; intros a; cbn [fold_left]; [lia|].
  specialize (IH (a * 10 + (c - 48))). lia.
Qed.

(** A digit string without a leading zero. *)
Definition plain_digits (s : jsstring) : Prop :=
  forallb is_digit s = true /\
  match s with
  | [] => False
  | c :: r => c = 48 -> r = []
  end.

Lemma plain_digits_positive (s : jsstring) (c : N) :
  plain_digits (s ++ [c]) -> s <> [] -> 1 <= digits_value s.
Proof.
  intros [D Z] Hne. destruct s as [|a s]; [congruence|].
  cbn [app] in Z, D. cbn [forallb] in D. apply andb_true_iff in D as [Da _].
  unfold is_digit in Da. apply andb_true_iff in Da as [D1 D2].
  apply N.leb_le in D1, D2.
  assert (a <> 48) by (intros E; specialize (Z E); now destruct s).
  unfold digits_value. cbn [fold_left].
  pose proof (fold_digits_ge s (0 * 10 + (a - 48))). lia.
Qed.

Lemma plain_digits_prefix (s : jsstring) (c : N) :
  plain_digits (s ++ [c]) -> s <> [] -> plain_digits s.
Proof.
  intros [D Z] Hne. split.
  - rewrite forallb_app in D. now apply andb_true_iff in D as [D _].
  - destruct s as [|a s]; [congruence|]. cbn [app] in Z. intros E.
    specialize (Z E). now destruct s.
Qed.

Lemma plain_digits_last (s : jsstring) (c : N) :
  plain_digits (s ++ [c]) -> 48 <= c <= 57.
Proof.
  intros [D _]. rewrite forallb_app in D. apply andb_true_iff in D as [_ D].
  cbn in D. rewrite andb_true_r in D. unfold is_digit in D.
  apply andb_true_iff in D as [D1 D2]. apply N.leb_le in D1, D2. lia.
Qed.

Lemma plain_digits_inj (s : jsstring) :
  forall s', plain_digits s -> plain_digits s' ->
             digits_value s = digits_value s' -> s = s'.
Proof.
  induction s as [|c s IH] using rev_ind; intros s' P P' E.
  - destruct P as [_ []].
  - destruct s' as [|c' s' _] using rev_ind; [destruct P' as [_ []]|].
    rewrite !digits_value_snoc in E.
    pose proof (plain_digits_last _ _ P). pose proof (plain_digits_last _ _ P').
    assert (digits_value s = digits_value s' /\ c = c') as [Ev ->] by lia.
    f_equal. destruct s as [|a s], s' as [|a' s']; try reflexivity.
    + pose proof (plain_digits_positive _ _ P' ltac:(discriminate)).
      change (digits_value []) with 0 in Ev. lia.
    + pose proof (plain_digits_positive _ _ P ltac:(discriminate)).
      change (digits_value []) with 0 in Ev. lia.
    + apply IH; [| |exact Ev]; eapply plain_digits_prefix; eauto; discriminate.
Qed.

Lemma array_index_plain (k : jsstring) (i : N) :
  array_index k = Some i -> plain_digits k /\ digits_value k = i.
Proof.
  unfold array_index. destruct k as [|c r]; [discriminate|].
  match goal with
  | |- (if ?cond then _ else _) = _ -> _ => destruct cond eqn:C; [|discriminate]
  end.
  intros H. inversion H. split; [|reflexivity].
  apply andb_true_iff in C as [C _]. apply andb_true_iff in C as [C _].
  apply andb_true_iff in C as [D Z].
  split; [exact D|]. intros ->. cbn in Z. destruct r; [reflexivity|discriminate].
Qed.

(** Two keys with the same index are the same key. *)
Lemma array_index_inj (k k' : jsstring) (i : N) :
  array_index k = Some i -> array_index k' = Some i -> k = k'.
Proof.
  intros H H'. apply array_index_plain in H as [P E], H' as [P' E'].
  apply plain_digits_inj; congruence.
Qed.

Lemma has_own_in (k : jsstring) (ps : list (jsstring * value)) :
  has_own k ps = false <-> ~ In k (map fst ps).
Proof.
  induction ps as [|[q x] ps IH]; cbn [has_own map In fst].
  - split; auto.
  - rewrite orb_false_iff, IH, eqb_neq. split.
    + intros [H1 H2] [E|E]; congruence.
    + intros H. split; [intros E; apply H; now left|intros E; apply H; now right].
Qed.

Lemma keys_replace (k : jsstring) (v : value) (ps : list (jsstring * value)) :
  map fst (replace_own k v ps) = map fst ps.
Proof.
  induction ps as [|[q x] ps IH]; [reflexivity|]. cbn [replace_own].
  destruct (Str.eqb k q); cbn [map fst]; [reflexivity|now rewrite IH].
Qed.

Lemma names_only_snoc (ks : list jsstring) (k : jsstring) :
  names_only ks -> array_index k = None -> ~ In k ks -> names_only (ks ++ [k]).
Proof.
  induction ks as [|q ks IH]; cbn [names_only app]; intros H A N.
  - repeat split; auto.
  - destruct H as [H1 [H2 H3]]. repeat split; [exact H1| |].
    + rewrite in_app_iff. intros [E|[E|[]]]; [now apply H2|].
      subst q. apply N. now left.
    + apply IH; [exact H3|exact A|]. intros E. apply N. now right.
Qed.

Lemma ordered_keys_snoc (ks : list jsstring) (k : jsstring) :
  forall lo, ordered_keys lo ks -> array_index k = None -> ~ In k ks ->
             ordered_keys lo (ks ++ [k]).
Proof.
  induction ks as [|q ks IH]; intros lo H A N; cbn [app ordered_keys] in *.
  - rewrite A. split; [intros []|exact I].
  - destruct (array_index q) as [j|] eqn:Aq.
    + destruct H as [H1 H2]. split; [exact H1|].
      apply IH; [exact H2|exact A|]. intros E. apply N. now right.
    + destruct H as [H1 H2]. split.
      * rewrite in_app_iff. intros [E|[E|[]]]; [now apply H1|].
        subst q. apply N. now left.
      * apply names_only_snoc; [exact H2|exact A|].
        intros E. apply N. now right.
Qed.

Lemma ordered_keys_insert (i : N) (k : jsstring) (v : value)
      (ps : list (jsstring * value)) :
  array_index k = Some i -> ~ In k (map fst ps) ->
  forall lo, ordered_keys lo (map fst ps) ->
             match lo with Some l => l < i | None => True end ->
             ordered_keys lo (map fst (insert_index i k v ps)).
Proof.
  intros A. induction ps as [|[q x] ps IH]; intros N lo H B;
    cbn [insert_index map fst ordered_keys] in *.
  - rewrite A. auto.
  - destruct (array_index q) as [j|] eqn:Aq.
    + destruct H as [H1 H2]. destruct (N.ltb_spec j i).
      * cbn [map fst ordered_keys]. rewrite Aq. split; [exact H1|].
        apply IH; [|exact H2|assumption]. intros E. apply N. now right.
      * cbn [map fst ordered_keys]. rewrite A, Aq.
        assert (j <> i).
        { intros ->. apply N. left. now apply (array_index_inj _ _ i). }
        repeat split; [exact B|lia|exact H2].
    + cbn [map fst ordered_keys]. rewrite A, Aq. auto.
Qed.

(** [define] keeps the properties in the order in which an object holds
    them. *)
Lemma define_ordered (k : jsstring) (v : value) (ps : list (jsstring * value)) :
  ordered ps -> ordered (define k v ps).
Proof.
  unfold ordered, define. intros H. destruct (has_own k ps) eqn:O.
  - now rewrite keys_replace.
  - apply has_own_in in O. destruct (array_index k) as [i|] eqn:A.
    + now apply ordered_keys_insert.
    + rewrite map_app. now apply ordered_keys_snoc.
Qed.

Lemma names_only_distinct (ks1 ks2 : list jsstring) (k : jsstring) :
  names_only (ks1 ++ k :: ks2) -> ~ In k ks1.
Proof.
  induction ks1 as [|q ks1 IH]; cbn [app names_only]; [auto|].
  intros [_ [H2 H3]] [E|E].
  - subst q. apply H2. rewrite in_app_iff. right. now left.
  - now apply IH.
Qed.

Lemma names_only_index (ks1 ks2 : list jsstring) (k : jsstring) :
  names_only (ks1 ++ k :: ks2) -> array_index k = None.
Proof.
  induction ks1 as [|q ks1 IH]; cbn [app names_only]; [tauto|].
  intros [_ [_ H]]. auto.
Qed.

(** The keys before an index are smaller indices. *)
Lemma ordered_keys_before (ks1 ks2 : list jsstring) (k : jsstring) (i : N) :
  array_index k = Some i ->
  forall lo, ordered_keys lo (ks1 ++ k :: ks2) ->
             Forall (fun q => exists j, array_index q = Some j /\ j < i) ks1
             /\ match lo with Some l => l < i | None => True end.
Proof.
  intros A. induction ks1 as [|q ks1 IH]; intros lo H; cbn [app ordered_keys] in H.
  - rewrite A in H. destruct H as [H _]. split; [constructor|exact H].
  - destruct (array_index q) as [j|] eqn:Aq.
    + destruct H as [H1 H2]. destruct (IH _ H2) as [F B]. cbn in B. split.
      * constructor; [eauto|exact F].
      * destruct lo; [lia|exact I].
    + destruct H as [_ H]. apply names_only_index in H. congruence.
Qed.

Lemma ordered_keys_distinct (ks1 ks2 : list jsstring) (k : jsstring) :
  forall lo, ordered_keys lo (ks1 ++ k :: ks2) -> ~ In k ks1.
Proof.
  induction ks1 as [|q ks1 IH]; intros lo H; cbn [app ordered_keys] in H; [auto|].
  destruct (array_index q) as [j|] eqn:Aq.
  - destruct H as [_ H]. intros [E|E]; [|now apply (IH _ H)].
    subst q. destruct (array_index k) as [i|] eqn:A; [|discriminate].
    inversion Aq; subst i.
    destruct (ordered_keys_before ks1 ks2 k j A _ H) as [_ B]. cbn in B. lia.
  - destruct H as [H1 H2]. intros [E|E].
    + subst q. apply H1. rewrite in_app_iff. right. now left.
    + now apply (names_only_distinct ks1 ks2 k).
Qed.

Lemma insert_index_last (i : N) (k : jsstring) (v : value)
      (ps : list (jsstring * value)) :
  Forall (fun q => exists j, array_index q = Some j /\ j < i) (map fst ps) ->
  insert_index i k v ps = ps ++ [(k, v)].
Proof.
  induction ps as [|[q x] ps IH]; cbn [map fst insert_index app]; intros F;
    [reflexivity|].
  inversion F as [|? ? [j [Aq L]] F']; subst. rewrite Aq.
  apply N.ltb_lt in L. rewrite L. now rewrite IH.
Qed.

Lemma build_ordered (ps2 : list (jsstring * value)) :
  forall ps1, ordered (ps1 ++ ps2) ->
              fold_left (fun acc kv => define (fst kv) (snd kv) acc) ps2 ps1
              = ps1 ++ ps2.
Proof.
  induction ps2 as [|[k v] ps2 IH]; intros ps1 H; cbn [fold_left fst snd].
  - now rewrite app_nil_r.
  - assert (D : define k v ps1 = ps1 ++ [(k, v)]).
    { unfold ordered in H. rewrite map_app in H. cbn [map fst] in H.
      unfold define.
      assert (O : has_own k ps1 = false)
        by (apply has_own_in; now apply (ordered_keys_distinct _ _ _ _ H)).
      rewrite O. destruct (array_index k) as [i|] eqn:A; [|reflexivity].
      apply insert_index_last.
      now destruct (ordered_keys_before _ _ _ _ A _ H). }
    rewrite D, IH; rewrite <- app_assoc; [reflexivity|exact H].
Qed.

(** An object whose properties are in order is the object [JSON.parse]
    builds from them. *)
Lemma ordered_build (ps : list (jsstring * value)) :
  ordered ps -> build_object ps = ps.
Proof. intros H. now apply (build_ordered ps []). Qed.

Lemma ordered_distinct (ps : list (jsstring * value)) :
  ordered ps -> distinct_keys ps = true.
Proof.
  unfold ordered. generalize (@None N).
  induction ps as [|[k v] ps IH]; intros lo H; [reflexivity|].
  cbn [distinct_keys]. apply andb_true_iff. split.
  - apply negb_true_iff, has_own_in. cbn [map fst ordered_keys] in H.
    destruct (array_index k) as [i|] eqn:A.
    + destruct H as [_ H]. intros E. apply in_split in E as [a [b E]].
      rewrite E in H.
      destruct (ordered_keys_before a b k i A _ H) as [_ B]. cbn in B. lia.
    + tauto.
  - cbn [map fst ordered_keys] in H. destruct (array_index k) as [i|] eqn:A.
    + destruct H as [_ H]. eauto.
    + destruct H as [_ H]. apply (IH None).
      clear -H. induction ps as [|[q x] ps IH]; [exact I|].
      cbn [map fst names_only ordered_keys] in *. destruct H as [H1 [H2 H3]].
      rewrite H1. auto.
Qed.

(** ** [JSON.parse] *)

Ltac break_match :=
  repeat match goal with
  | H : context [match ?x with _ => _ end] |- _ =>
      destruct x eqn:?; try discriminate H
  | H : Some _ = Some _ |- _ => inversion H; clear H; subst
  | H : inl _ = inl _ |- _ => inversion H; clear H; subst
  end.

Lemma run_app_inl (s t : jsstring) (st : pstate) :
  run st (s ++ t) = match run st s with
                    | inl st' => run st' t
                    | inr rest => inr (rest ++ t)
                    end.
Proof.
  revert st. induction s as [|c s IH]; intros st; simpl; [reflexivity|].
  destruct (step st c); [apply IH|reflexivity].
Qed.

Lemma push_value_done (v v' : value) (K K' : list frame) :
  push_value v K = Some (MDone v', K') -> K = [] /\ v' = v /\ K' = [].
Proof.
  unfold push_value. intros H. destruct K as [|[| |] K]; inversion H; auto.
Qed.

Lemma parse_ok (s : jsstring) (v : value) :
  parse s = inl v <->
  exists st, run (MValue, []) s = inl st /\ finish st = Some v.
Proof.
  unfold parse. split.
  - intros H. destruct (run _ s) as [st|rest]; [|discriminate].
    destruct (finish st) eqn:F; [|discriminate]. inversion H; subst. eauto.
  - intros [st [R F]]. now rewrite R, F.
Qed.

Lemma finish_obj (st : pstate) (o : list (jsstring * value)) :
  finish st = Some (JObj o) -> st = (MDone (JObj o), []).
Proof.
  destruct st as [m K]. unfold finish. intros H.
  destruct m; try discriminate.
  - destruct K; [|discriminate]. now inversion H.
  - destruct K; [|discriminate]. destruct (num_value ns); discriminate.
Qed.

(** The top-level value becomes an object only at a closing brace. *)
Lemma step_done_obj (st : pstate) (c : N) (o : list (jsstring * value)) :
  step st c = Some (MDone (JObj o), []) ->
  c = 125 \/ (st = (MDone (JObj o), []) /\ is_json_ws c = true).
Proof.
  destruct st as [m K]. unfold step, step_after, begin_value, num_begin.
  intros H.
  destruct m; break_match;
    try match goal with
        | H : push_value _ _ = Some (MDone _, _) |- _ =>
            apply push_value_done in H; destruct H as [? [? ?]]; subst;
              try discriminate
        end;
    try (left; now apply N.eqb_eq);
    try (left; now apply N.eqb_eq);
    try (right; split; [reflexivity|assumption]);
    try match goal with l : literal |- _ => destruct l; discriminate end;
    auto.
Qed.

(** *** Trimming and the parser *)

Lemma trim_space_not_json (c : N) :
  is_trim_space c = true -> is_json_ws c = false ->
  forall K, begin_value K c = None.
Proof.
  unfold is_trim_space, is_json_ws, begin_value, num_begin, is_digit. intros H1 H2 K.
  repeat (apply orb_false_iff in H2; destruct H2 as [H2 ?]).
  repeat match goal with
         | H : (_ =? _) = false |- _ => apply N.eqb_neq in H
         end.
  repeat match goal with
         | H : _ || _ = true |- _ => apply orb_true_iff in H; destruct H as [H|H]
         | H : _ && _ = true |- _ => apply andb_true_iff in H; destruct H
         | H : (_ =? _) = true |- _ => apply N.eqb_eq in H; subst
         | H : (_ <=? _) = true |- _ => apply N.leb_le in H
         end;
    try reflexivity; try congruence.
  repeat match goal with
         | |- context [?a =? ?b] =>
             destruct (N.eqb_spec a b); [lia|]
         end.
  destruct (48 <=? c) eqn:E1; destruct (c <=? 57) eqn:E2; simpl; try reflexivity.
  apply N.leb_le in E2. lia.
Qed.

Lemma trimStart_head (s : jsstring) (c : N) (r : jsstring) :
  trimStart s = c :: r -> is_trim_space c = false.
Proof.
  induction s as [|a s IH]; simpl; [discriminate|].
  destruct (is_trim_space a) eqn:E; [exact IH|].
  intros H; inversion H; subst. exact E.
Qed.

Lemma trimEnd_snoc (s : jsstring) (c : N) :
  trimEnd (s ++ [c]) = if is_trim_space c then trimEnd s else s ++ [c].
Proof.
  unfold trimEnd. rewrite rev_app_distr. simpl.
  destruct (is_trim_space c); [reflexivity|].
  simpl. now rewrite rev_involutive.
Qed.

Lemma trimEnd_prefix (s : jsstring) : exists w, s = trimEnd s ++ w.
Proof.
  induction s as [|c s IH] using rev_ind.
  - exists []. reflexivity.
  - rewrite trimEnd_snoc. destruct (is_trim_space c).
    + destruct IH as [w E]. exists (w ++ [c]). rewrite app_assoc. now rewrite <- E.
    + exists []. now rewrite app_nil_r.
Qed.

Lemma trim_head (s : jsstring) (c : N) (r : jsstring) :
  trim s = c :: r -> is_trim_space c = false.
Proof.
  unfold trim. intros H.
  destruct (trimEnd_prefix (trimStart s)) as [w E]. rewrite H in E.
  now apply (trimStart_head s c (r ++ w)).
Qed.

(** White space before the value: what [trimStart] removes, the parser
    skips. *)
Lemma run_trimStart (s : jsstring) (st : pstate) :
  run (MValue, []) s = inl st -> finish st <> None ->
  run (MValue, []) (trimStart s) = inl st.
Proof.
  induction s as [|c s IH]; intros R F; [exact R|].
  cbn [trimStart]. destruct (is_trim_space c) eqn:E; [|exact R].
  cbn [run step] in R. destruct (is_json_ws c) eqn:W.
  - auto.
  - rewrite (trim_space_not_json c E W) in R. discriminate.
Qed.

(** White space after an object: what [trimEnd] removes, the parser had
    skipped. *)
Lemma run_trimEnd (s : jsstring) (o : list (jsstring * value)) :
  run (MValue, []) s = inl (MDone (JObj o), []) ->
  run (MValue, []) (trimEnd s) = inl (MDone (JObj o), []).
Proof.
  induction s as [|c s IH] using rev_ind; intros R; [discriminate|].
  rewrite trimEnd_snoc. destruct (is_trim_space c) eqn:E; [|exact R].
  rewrite run_app_inl in R.
  destruct (run (MValue, []) s) as [st|rest] eqn:Rs; [|discriminate].
  cbn [run] in R. destruct (step st c) as [st'|] eqn:S; [|discriminate].
  inversion R; subst st'.
  destruct (step_done_obj _ _ _ S) as [->|[-> _]]; [discriminate|].
  auto.
Qed.

(** Whether the value being read is an object is fixed by its first
    character. *)
Lemma bottom_push (f : frame) (K : list frame) :
  K <> [] -> bottom_is_obj (f :: K) = bottom_is_obj K.
Proof.
  destruct K as [|g K]; [congruence|]. intros _.
  cbn [bottom_is_obj]. destruct (bottom_is_obj K); reflexivity.
Qed.

Lemma bound_stack (m m' : mode) (K : list frame) :
  K <> [] -> obj_bound (m, K) = obj_bound (m', K).
Proof.
  intros H. unfold obj_bound. cbn [fst snd].
  destruct K as [|f K]; [congruence|].
  cbn [bottom_is_obj]. destruct (bottom_is_obj K); reflexivity.
Qed.

Lemma bound_swap (m m' : mode) (f g : frame) (K : list frame) :
  frame_is_obj f = frame_is_obj g ->
  obj_bound (m, f :: K) = obj_bound (m', g :: K).
Proof.
  intros H. unfold obj_bound. cbn [fst snd bottom_is_obj]. rewrite H.
  destruct (bottom_is_obj K); reflexivity.
Qed.

Lemma bound_push (m m' : mode) (f : frame) (K : list frame) :
  K <> [] -> obj_bound (m, f :: K) = obj_bound (m', K).
Proof.
  intros H. unfold obj_bound. cbn [fst snd]. rewrite bottom_push by exact H.
  destruct K; [congruence|]. cbn [bottom_is_obj].
  destruct (bottom_is_obj K); reflexivity.
Qed.

(** A value that closes the container [top]. *)
Lemma push_value_pop (v : value) (m : mode) (top : frame) (K : list frame)
      (st : pstate) :
  push_value v K = Some st -> frame_is_obj top = is_obj v ->
  obj_bound st = obj_bound (m, top :: K).
Proof.
  intros H E. unfold push_value in H. destruct K as [|g K].
  - inversion H; subst. unfold obj_bound; cbn. rewrite E.
    destruct v; reflexivity.
  - rewrite (bound_push m m) by discriminate.
    destruct g; inversion H; subst; now apply bound_swap.
Qed.

(** A value that is not a container. *)
Lemma push_value_scalar (v : value) (m : mode) (K : list frame) (st : pstate) :
  push_value v K = Some st -> is_obj v = false ->
  (forall o, m <> MDone (JObj o)) ->
  obj_bound st = obj_bound (m, K).
Proof.
  intros H E Hm. unfold push_value in H. destruct K as [|g K].
  - inversion H; subst. unfold obj_bound; cbn.
    destruct v; try discriminate; destruct m; try reflexivity;
      destruct v; try reflexivity; now destruct (Hm props).
  - destruct g; inversion H; subst; now apply bound_swap.
Qed.

Lemma step_after_bound (st st' : pstate) (c : N) :
  step_after st c = Some st' -> obj_bound st' = obj_bound st.
Proof.
  destruct st as [m K]. unfold step_after. intros H.
  destruct m; try discriminate; break_match; try reflexivity;
    try (now apply bound_stack);
    try (eapply push_value_pop; [eassumption|reflexivity]).
Qed.

Lemma begin_value_bound (m : mode) (K : list frame) (c : N) (st' : pstate) :
  begin_value K c = Some st' -> K <> [] -> obj_bound st' = obj_bound (m, K).
Proof.
  unfold begin_value, num_begin. intros H HK.
  break_match; try (now apply bound_push); now apply bound_stack.
Qed.

Ltac bound_solve :=
  first [ reflexivity
        | now apply bound_stack
        | now apply bound_swap
        | now apply bound_push
        | eapply push_value_pop; [eassumption|reflexivity]
        | eapply push_value_scalar; [eassumption|reflexivity|discriminate]
        | eapply begin_value_bound; [eassumption|discriminate]
        | eapply step_after_bound; eassumption
        | match goal with
          | K : list frame |- _ =>
              destruct K; [reflexivity|now apply bound_stack]
          end ].

Lemma step_bound (st st' : pstate) (c : N) :
  step st c = Some st' -> st <> (MValue, []) ->
  obj_bound st' = obj_bound st.
Proof.
  destruct st as [m K]. intros H Hne.
  destruct m; cbn [step] in H.
  - (* MValue *)
    destruct (is_json_ws c); [now inversion H|].
    apply (begin_value_bound _ _ c); [exact H|]. intros ->. now apply Hne.
  - break_match; bound_solve.
  - break_match; bound_solve.
  - break_match; bound_solve.
  - break_match; bound_solve.
  - bound_solve.
  - bound_solve.
  - (* MStr *)
    destruct esc; break_match; bound_solve.
  - (* MNum *)
    break_match; try bound_solve.
    match goal with
    | S : step_after _ _ = Some _ |- _ => rewrite (step_after_bound _ _ _ S)
    end.
    bound_solve.
  - (* MLit *)
    break_match; try bound_solve.
    eapply push_value_scalar; [eassumption| |discriminate]. now destruct l.
Qed.

Lemma push_value_mode (v : value) (K K' : list frame) (m : mode) :
  push_value v K = Some (m, K') -> m <> MValue.
Proof.
  unfold push_value. intros H.
  destruct K as [|[| |] K]; inversion H; discriminate.
Qed.

Lemma step_started (st st' : pstate) (c : N) :
  step st c = Some st' -> st <> (MValue, []) -> st' <> (MValue, []).
Proof.
  destruct st as [m K]. intros H Hne E. subst st'.
  unfold step, step_after, begin_value, num_begin in H.
  destruct m; break_match;
    try congruence;
    try match goal with
        | P : push_value _ _ = Some (MValue, _) |- _ =>
            now apply push_value_mode in P
        end.
Qed.

Lemma run_bound (s : jsstring) (st st' : pstate) :
  run st s = inl st' -> st <> (MValue, []) -> obj_bound st' = obj_bound st.
Proof.
  revert st. induction s as [|c s IH]; intros st R Hne; cbn [run] in R.
  - now inversion R.
  - destruct (step st c) as [st1|] eqn:S; [|discriminate].
    rewrite (IH _ R (step_started _ _ _ S Hne)).
    now apply (step_bound _ _ c).
Qed.

(** A text whose value is an object has a brace as its first character that
    is not white space. *)
Lemma parse_obj_head (c : N) (r : jsstring) (o : list (jsstring * value)) :
  run (MValue, []) (c :: r) = inl (MDone (JObj o), []) ->
  is_json_ws c = false -> c = 123.
Proof.
  cbn [run step]. intros R W. rewrite W in R.
  destruct (begin_value [] c) as [st1|] eqn:B; [|discriminate].
  assert (Hne : st1 <> (MValue, [])).
  { unfold begin_value, num_begin in B. break_match; discriminate. }
  pose proof (run_bound _ _ _ R Hne) as E. cbn in E.
  unfold begin_value, num_begin in B.
  destruct (c =? 123) eqn:C; [now apply N.eqb_eq|].
  break_match; discriminate.
Qed.

Lemma json_ws_trim_space (c : N) : is_json_ws c = true -> is_trim_space c = true.
Proof.
  unfold is_json_ws, is_trim_space. intros H.
  repeat (apply orb_true_iff in H; destruct H as [H|H]);
    apply N.eqb_eq in H; subst; reflexivity.
Qed.

(** A line that is a JSON object is found by the scan, and its trimmed text
    parses to the same object. *)
Lemma parse_obj_trim (line : jsstring) (o : list (jsstring * value)) :
  parse line = inl (JObj o) ->
  json_shaped line = true /\ parse (trim line) = inl (JObj o).
Proof.
  intros H. apply parse_ok in H as [st [R F]].
  apply finish_obj in F. subst st.
  assert (T : run (MValue, []) (trim line) = inl (MDone (JObj o), [])).
  { unfold trim. apply run_trimEnd, run_trimStart; [exact R|discriminate]. }
  split.
  - unfold json_shaped. destruct (trim line) as [|c r] eqn:E; [discriminate|].
    assert (W : is_json_ws c = false).
    { destruct (is_json_ws c) eqn:W; [|reflexivity].
      apply json_ws_trim_space in W. now rewrite (trim_head _ _ _ E) in W. }
    rewrite (parse_obj_head _ _ _ T W). reflexivity.
  - apply parse_ok. exists (MDone (JObj o), []). auto.
Qed.

(** *** Built values *)

Lemma built_arr (l : list value) : built (JArr l) <-> Forall built l.
Proof.
  induction l as [|a l IH]; cbn.
  - split; auto.
  - split.
    + intros [H1 H2]. constructor; [exact H1|]. now apply IH.
    + intros H. inversion H; subst. split; [assumption|]. now apply IH.
Qed.

Lemma built_obj (ps : list (jsstring * value)) :
  built (JObj ps) <-> ordered ps /\ Forall (fun kv => built (snd kv)) ps.
Proof.
  cbn [built]. apply and_iff_compat_l.
  induction ps as [|[k a] ps IH]; cbn.
  - split; auto.
  - split.
    + intros [H1 H2]. constructor; [exact H1|]. now apply IH.
    + intros H. inversion H; subst. split; [assumption|]. now apply IH.
Qed.

Lemma define_values (P : value -> Prop) (k : jsstring) (v : value)
      (ps : list (jsstring * value)) :
  P v -> Forall (fun kv => P (snd kv)) ps ->
  Forall (fun kv => P (snd kv)) (define k v ps).
Proof.
  intros Hv H. unfold define. destruct (has_own k ps).
  - induction H as [|[q x] ps Hx H IH]; cbn [replace_own]; [constructor|].
    destruct (Str.eqb k q); constructor; auto.
  - destruct (array_index k) as [i|].
    + induction H as [|[q x] ps Hx H IH]; cbn [insert_index].
      * constructor; auto.
      * destruct (array_index q) as [j|]; [destruct (j <? i)|];
          repeat constructor; auto.
    + apply Forall_app. split; [exact H|]. constructor; auto.
Qed.

Lemma get_own_built (k : jsstring) (v : value) (ps : list (jsstring * value)) :
  Forall (fun kv => built (snd kv)) ps -> get_own k ps = Some v -> built v.
Proof.
  induction 1 as [|[q x] ps Hx _ IH]; cbn [get_own]; [discriminate|].
  destruct (Str.eqb k q); [|exact IH]. intros E. now inversion E; subst.
Qed.

Lemma push_value_built (v : value) (K : list frame) (st : pstate) :
  built v -> Forall frame_built K -> push_value v K = Some st -> state_built st.
Proof.
  intros Hv HK H. unfold push_value in H.
  destruct K as [|[acc|ps|ps k] K]; inversion H; subst; clear H;
    unfold state_built; cbn [fst snd].
  - split; [constructor|exact Hv].
  - inversion HK; subst. split; [|exact I]. constructor; [|assumption].
    cbn [frame_built] in *. now constructor.
  - inversion HK as [|? ? Hf ?]; subst. cbn [frame_built] in Hf.
    destruct Hf as [Ho Hb]. split; [|exact I].
    constructor; [|assumption]. split.
    + now apply define_ordered.
    + now apply define_values.
Qed.

Ltac built_frames :=
  repeat match goal with
         | H : Forall frame_built (_ :: _) |- _ => inversion H; clear H; subst
         | H : frame_built _ |- _ => progress cbn [frame_built] in H
         | H : _ /\ _ |- _ => destruct H
         end.

Ltac built_value :=
  first [ exact I
        | assumption
        | apply built_arr; now apply Forall_rev
        | now apply built_obj
        | match goal with l : literal |- _ => now destruct l end ].

Ltac built_state :=
  unfold state_built; cbn [fst snd]; split;
  [ repeat first [ assumption
                 | constructor
                 | progress cbn [frame_built] ]
  | built_value ].

Ltac built_solve :=
  built_frames;
  first [ match goal with
          | H : push_value ?v ?K = Some _ |- _ =>
              apply (push_value_built v K); [built_value|assumption|exact H]
          end
        | built_state ].

Lemma step_after_built (st st' : pstate) (c : N) :
  state_built st -> step_after st c = Some st' -> state_built st'.
Proof.
  destruct st as [m K]. intros [HK Hm] H. unfold step_after in H.
  cbn [fst snd] in *.
  destruct m; try discriminate; break_match; built_solve.
Qed.

Lemma begin_value_built (K : list frame) (c : N) (st' : pstate) :
  Forall frame_built K -> begin_value K c = Some st' -> state_built st'.
Proof.
  intros HK H. unfold begin_value in H. break_match; built_solve.
Qed.

Lemma step_built (st st' : pstate) (c : N) :
  state_built st -> step st c = Some st' -> state_built st'.
Proof.
  destruct st as [m K]. intros B H. pose proof B as [HK Hm].
  cbn [fst snd] in HK, Hm.
  destruct m; cbn [step] in H;
    try (eapply step_after_built; eassumption).
  - destruct (is_json_ws c); [now inversion H; subst|].
    eapply begin_value_built; eassumption.
  - break_match;
      first [ eapply begin_value_built; eassumption | built_solve ].
  - break_match; built_solve.
  - break_match; built_solve.
  - break_match; built_solve.
  - destruct esc; break_match; built_solve.
  - break_match; try built_solve.
    eapply step_after_built; [|eassumption]. built_solve.
  - break_match; built_solve.
Qed.

Lemma run_built (s : jsstring) (st st' : pstate) :
  state_built st -> run st s = inl st' -> state_built st'.
Proof.
  revert st. induction s as [|c s IH]; intros st B R; cbn [run] in R.
  - now inversion R; subst.
  - destruct (step st c) as [st1|] eqn:S; [|discriminate].
    eapply IH; [|exact R]. eapply step_built; eassumption.
Qed.

(** What [JSON.parse] returns is built. *)
Lemma parse_built (s : jsstring) (v : value) : parse s = inl v -> built v.
Proof.
  intros H. apply parse_ok in H as [st [R F]].
  assert (B : state_built st).
  { eapply run_built; [|exact R]. split; [constructor|exact I]. }
  destruct st as [m K]. destruct B as [_ B]. cbn [fst] in B.
  unfold finish in F. destruct m; try discriminate.
  - destruct K; [|discriminate]. now inversion F; subst.
  - destruct K; [|discriminate]. destruct (num_value ns); [|discriminate].
    now inversion F.
Qed.

(** ** [JSON.stringify] followed by [JSON.parse] *)

Import Stringify.

Lemma hex_val_digit (n : N) : n < 16 -> hex_val (hex_digit n) = Some n.
Proof.
  intros H. unfold hex_val, hex_digit, is_digit.
  destruct (N.ltb_spec n 10).
  - assert (E1 : (48 <=? 48 + n) = true) by (apply N.leb_le; lia).
    assert (E2 : (48 + n <=? 57) = true) by (apply N.leb_le; lia).
    rewrite E1, E2. cbv [andb]. f_equal. lia.
  - assert (E1 : (87 + n <=? 57) = false) by (apply N.leb_gt; lia).
    assert (E2 : (97 <=? 87 + n) = true) by (apply N.leb_le; lia).
    assert (E3 : (87 + n <=? 102) = true) by (apply N.leb_le; lia).
    rewrite E1, E2, E3, andb_false_r. cbv [andb]. f_equal. lia.
Qed.

Lemma hex_digits_value (c : N) :
  c < 65536 ->
  (((0 * 16 + c / 4096 mod 16) * 16 + c / 256 mod 16) * 16 + c / 16 mod 16) * 16
  + c mod 16 = c.
Proof.
  intros H.
  assert (D1 : c / 256 = c / 16 / 16) by now rewrite N.Div0.div_div.
  assert (D2 : c / 4096 = c / 256 / 16) by now rewrite N.Div0.div_div.
  assert (c / 4096 < 16) by (apply N.Div0.div_lt_upper_bound; lia).
  rewrite (N.mod_small (c / 4096) 16) by assumption.
  pose proof (N.div_mod c 16 ltac:(lia)) as E0.
  pose proof (N.div_mod (c / 16) 16 ltac:(lia)) as E1.
  pose proof (N.div_mod (c / 256) 16 ltac:(lia)) as E2.
  rewrite <- D1 in E1. rewrite <- D2 in E2.
  lia.
Qed.

Lemma run_cons (st st' : pstate) (c : N) (s : jsstring) :
  step st c = Some st' -> run st (c :: s) = run st' s.
Proof. intros H. cbn [run]. now rewrite H. Qed.

Lemma step_str_plain (iskey : bool) (acc : jsstring) (K : list frame) (c : N) :
  c <> 34 -> c <> 92 -> 32 <= c ->
  step (MStr iskey acc ENone, K) c = Some (MStr iskey (c :: acc) ENone, K).
Proof.
  intros H1 H2 H3. cbn [step str_step].
  apply N.eqb_neq in H1, H2. rewrite H1, H2.
  assert (E : (c <? 32) = false) by (apply N.ltb_ge; exact H3).
  now rewrite E.
Qed.

Lemma run_unicode_escape (c : N) (iskey : bool) (acc : jsstring)
      (K : list frame) (rest : jsstring) :
  c < 65536 ->
  run (MStr iskey acc ENone, K) (unicode_escape c ++ rest)
  = run (MStr iskey (c :: acc) ENone, K) rest.
Proof.
  intros H. unfold unicode_escape. cbn [app].
  rewrite (run_cons _ (MStr iskey acc EBackslash, K)) by reflexivity.
  rewrite (run_cons _ (MStr iskey acc (EUnicode 0 0), K)) by reflexivity.
  assert (B : forall n, n mod 16 < 16) by (intros; apply N.mod_lt; lia).
  rewrite (run_cons _ (MStr iskey acc (EUnicode 1 (0 * 16 + c / 4096 mod 16)), K))
    by (cbn [step str_step]; now rewrite hex_val_digit by apply B).
  rewrite (run_cons _ (MStr iskey acc
             (EUnicode 2 ((0 * 16 + c / 4096 mod 16) * 16 + c / 256 mod 16)), K))
    by (cbn [step str_step]; now rewrite hex_val_digit by apply B).
  rewrite (run_cons _ (MStr iskey acc
             (EUnicode 3 (((0 * 16 + c / 4096 mod 16) * 16 + c / 256 mod 16) * 16
                          + c / 16 mod 16)), K))
    by (cbn [step str_step]; now rewrite hex_val_digit by apply B).
  rewrite (run_cons _ (MStr iskey (c :: acc) ENone, K)); [reflexivity|].
  cbn [step str_step]. rewrite hex_val_digit by apply B.
  now rewrite hex_digits_value.
Qed.

Lemma run_escape_unit (c : N) (iskey : bool) (acc : jsstring)
      (K : list frame) (rest : jsstring) :
  is_lead c = false -> is_trail c = false ->
  run (MStr iskey acc ENone, K) (escape_unit c ++ rest)
  = run (MStr iskey (c :: acc) ENone, K) rest.
Proof.
  intros _ _. unfold escape_unit.
  repeat match goal with
         | |- context [if ?a =? ?b then _ else _] =>
             destruct (N.eqb_spec a b); [subst; reflexivity|]
         end.
  destruct (N.ltb_spec c 32).
  - apply run_unicode_escape. lia.
  - cbn [app]. apply run_cons. now apply step_str_plain.
Qed.

Lemma surrogate_plain (c : N) :
  is_lead c = true \/ is_trail c = true -> c <> 34 /\ c <> 92 /\ 32 <= c /\ c < 65536.
Proof.
  unfold is_lead, is_trail. intros [H|H];
    apply andb_true_iff in H as [H1 H2];
    apply N.leb_le in H1, H2; lia.
Qed.

Lemma run_quote_body (s : jsstring) :
  forall (iskey : bool) (acc : jsstring) (K : list frame) (rest : jsstring),
    run (MStr iskey acc ENone, K) (quote_body s ++ rest)
    = run (MStr iskey (rev s ++ acc) ENone, K) rest.
Proof.
  assert (G : forall n s, (List.length s <= n)%nat ->
              forall iskey acc K rest,
                run (MStr iskey acc ENone, K) (quote_body s ++ rest)
                = run (MStr iskey (rev s ++ acc) ENone, K) rest).
  { clear s. induction n as [|n IH]; intros s L iskey acc K rest.
    - destruct s; [reflexivity|cbn in L; lia].
    - destruct s as [|c r]; [reflexivity|]. cbn [quote_body].
      assert (Lr : (List.length r <= n)%nat) by (cbn in L; lia).
      cbn [rev]. rewrite <- app_assoc. cbn [app].
      destruct (is_lead c) eqn:Lc.
      + destruct (surrogate_plain c (or_introl Lc)) as [P1 [P2 [P3 P4]]].
        destruct r as [|d r'].
        * now rewrite run_unicode_escape.
        * destruct (is_trail d) eqn:Td.
          -- destruct (surrogate_plain d (or_intror Td)) as [Q1 [Q2 [Q3 Q4]]].
             cbn [app].
             rewrite (run_cons _ _ _ _ (step_str_plain _ _ _ _ P1 P2 P3)).
             rewrite (run_cons _ _ _ _ (step_str_plain _ _ _ _ Q1 Q2 Q3)).
             rewrite IH by (cbn in Lr; lia).
             cbn [rev]. now rewrite <- !app_assoc.
          -- rewrite <- app_assoc, run_unicode_escape by exact P4.
             now rewrite IH by exact Lr.
      + destruct (is_trail c) eqn:Tc.
        * destruct (surrogate_plain c (or_intror Tc)) as [P1 [P2 [P3 P4]]].
          rewrite <- app_assoc, run_unicode_escape by exact P4.
          now rewrite IH by exact Lr.
        * rewrite <- app_assoc, run_escape_unit by assumption.
          now rewrite IH by exact Lr. }
  intros. now apply (G (List.length s)).
Qed.

(** *** Numbers *)

Lemma delimiter_cases (d : N) :
  is_delimiter d = true -> d = 44 \/ d = 93 \/ d = 125.
Proof.
  unfold is_delimiter. intros H.
  repeat (apply orb_true_iff in H; destruct H as [H|H]);
    apply N.eqb_eq in H; auto.
Qed.

Lemma num_step_delimiter (ns : numstate) (d : N) :
  is_delimiter d = true -> num_step ns d = None.
Proof.
  intros H. destruct ns as [neg m f eneg e ph].
  destruct (delimiter_cases d H) as [->|[->| ->]]; destruct ph; reflexivity.
Qed.

Lemma push_value_step (v : value) (K : list frame) (st : pstate) (c : N) :
  push_value v K = Some st -> step st c = step_after st c.
Proof.
  unfold push_value. intros H.
  destruct K as [|[| |] K]; inversion H; reflexivity.
Qed.

Lemma run_number (r : jsstring) :
  forall (ns ns' : numstate) (x : spec_float) (K : list frame) (st1 : pstate)
         (d : N) (rest : jsstring),
    num_run ns r = Some ns' -> num_value ns' = Some x ->
    push_value (JNum x) K = Some st1 -> is_delimiter d = true ->
    run (MNum ns, K) (r ++ d :: rest) = run st1 (d :: rest).
Proof.
  induction r as [|c r IH]; intros ns ns' x K st1 d rest R V P D.
  - cbn in R. inversion R; subst ns'. cbn [app run step].
    rewrite (num_step_delimiter _ _ D), V, P.
    now rewrite (push_value_step _ _ _ d P).
  - cbn [num_run] in R. destruct (num_step ns c) as [ns1|] eqn:S; [|discriminate].
    cbn [app run step]. rewrite S. now apply (IH _ ns' x).
Qed.

Lemma run_number_end (r : jsstring) :
  forall (ns ns' : numstate),
    num_run ns r = Some ns' -> run (MNum ns, []) r = inl (MNum ns', []).
Proof.
  induction r as [|c r IH]; intros ns ns' R.
  - cbn in R. now inversion R.
  - cbn [num_run] in R. destruct (num_step ns c) as [ns1|] eqn:S; [|discriminate].
    cbn [run step]. rewrite S. now apply IH.
Qed.

(** *** Values *)

Lemma value_induction (P : value -> Prop) :
  P JUndefined -> P JNull -> (forall b, P (JBool b)) -> (forall x, P (JNum x)) ->
  (forall s, P (JStr s)) ->
  (forall l, Forall P l -> P (JArr l)) ->
  (forall ps, Forall (fun kv => P (snd kv)) ps -> P (JObj ps)) ->
  forall v, P v.
Proof.
  intros Hu Hn Hb Hx Hs Ha Ho. fix IH 1.
  intros [| |b|x|s|l|ps];
    [exact Hu|exact Hn|apply Hb|apply Hx|apply Hs| |].
  - apply Ha. induction l as [|a l IHl]; constructor; [apply IH|exact IHl].
  - apply Ho. induction ps as [|[k a] ps IHps]; constructor; [apply IH|exact IHps].
Qed.

Lemma numbers_ok_arr (l : list value) :
  numbers_ok (JArr l) <-> Forall numbers_ok l.
Proof.
  induction l as [|a l IH]; cbn.
  - split; auto.
  - split.
    + intros [H1 H2]. constructor; [exact H1|]. now apply IH.
    + intros H. inversion H; subst. split; [assumption|]. now apply IH.
Qed.

Lemma numbers_ok_obj (ps : list (jsstring * value)) :
  numbers_ok (JObj ps) <-> Forall (fun kv => numbers_ok (snd kv)) ps.
Proof.
  induction ps as [|[k a] ps IH]; cbn.
  - split; auto.
  - split.
    + intros [H1 H2]. constructor; [exact H1|]. now apply IH.
    + intros H. inversion H; subst. split; [assumption|]. now apply IH.
Qed.

Lemma Forall_and {A : Type} (P Q : A -> Prop) (l : list A) :
  Forall P l /\ Forall Q l <-> Forall (fun a => P a /\ Q a) l.
Proof.
  induction l as [|a l IH]; split.
  - constructor.
  - split; constructor.
  - intros [H1 H2]. inversion H1; inversion H2; subst.
    constructor; [tauto|]. now apply IH.
  - intros H. inversion H as [|? ? [Ha Hb] Hl]; subst. apply IH in Hl as [H1 H2].
    split; constructor; assumption.
Qed.

Lemma storable_arr (l : list value) : storable (JArr l) <-> Forall storable l.
Proof.
  unfold storable. rewrite built_arr, numbers_ok_arr. apply Forall_and.
Qed.

Lemma storable_obj (ps : list (jsstring * value)) :
  storable (JObj ps) <->
  ordered ps /\ Forall (fun kv => storable (snd kv)) ps.
Proof.
  unfold storable. rewrite built_obj, numbers_ok_obj, <- Forall_and. tauto.
Qed.

Lemma serialize_obj (ps : list (jsstring * value)) :
  Forall (fun kv => storable (snd kv)) ps ->
  serialize (JObj ps) = [123] ++ join [44] (map member ps) ++ [125].
Proof.
  intros H. cbn [serialize]. do 3 f_equal.
  induction H as [|[k a] ps Ha _ IH]; [reflexivity|].
  cbn [map]. rewrite <- IH. unfold member. cbn [fst snd] in *.
  destruct a; try reflexivity. now destruct Ha as [[] _].
Qed.

Lemma reads_scalar (v : value) :
  match v with JNull | JBool _ => True | _ => False end -> reads v.
Proof.
  intros H K st1 rest P _.
  destruct v as [| |[|]| | | |]; try destruct H;
    do 3 eexists; (split; [reflexivity|]); (split; [reflexivity|]);
    (split; [discriminate|]); (split; [reflexivity|]);
    cbn [app run step literal_value]; cbn; now rewrite P.
Qed.

Lemma reads_string (s : jsstring) : reads (JStr s).
Proof.
  intros K st1 rest P _.
  exists 34, (quote_body s ++ [34]), (MStr false [] ENone, K).
  repeat split; try discriminate.
  rewrite <- app_assoc, run_quote_body. cbn [app run step].
  change (34 =? 34) with true. cbv iota.
  rewrite app_nil_r, rev_involutive, P. reflexivity.
Qed.

Lemma num_begin_value (c : N) (ns : numstate) (K : list frame) :
  num_begin c = Some ns ->
  begin_value K c = Some (MNum ns, K) /\ is_json_ws c = false /\ c <> 93.
Proof.
  unfold num_begin, begin_value, is_json_ws. intros H.
  destruct (N.eqb_spec c 45); [subst; inversion H; repeat split; discriminate|].
  destruct (N.eqb_spec c 48); [subst; inversion H; repeat split; discriminate|].
  destruct (is_digit c) eqn:D; [|discriminate].
  unfold is_digit in D. apply andb_true_iff in D as [D1 D2].
  apply N.leb_le in D1, D2.
  repeat match goal with
         | |- context [?a =? ?b] => destruct (N.eqb_spec a b); [exfalso; lia|]
         end.
  unfold num_begin.
  repeat match goal with
         | |- context [?a =? ?b] => destruct (N.eqb_spec a b); [exfalso; lia|]
         end.
  assert (E : is_digit c = true)
    by (unfold is_digit; apply andb_true_iff; split; now apply N.leb_le).
  rewrite E. inversion H; subst. repeat split. lia.
Qed.

Lemma reads_number (x : spec_float) : storable (JNum x) -> reads (JNum x).
Proof.
  intros [_ S]. cbn [numbers_ok] in S. unfold number_of_text in S.
  intros K st1 rest P E.
  destruct (number_text x) as [|c r] eqn:T; [discriminate|].
  destruct (num_begin c) as [ns|] eqn:B; [|discriminate].
  destruct (num_run ns r) as [ns'|] eqn:R; [|discriminate].
  destruct (num_begin_value c ns K B) as [Bv [W N93]].
  destruct E as [d [r' [-> D]]].
  exists c, r, (MNum ns, K). cbn [serialize]. rewrite T.
  repeat split; try assumption.
  now apply (run_number r ns ns' x).
Qed.

(** A value in element position: after the opening bracket or a comma. *)
Lemma run_begin (m : mode) (K : list frame) (c : N) (t : jsstring) (st0 : pstate) :
  m = MValue \/ (exists acc K', m = MArrStart /\ K = FArr acc :: K') ->
  is_json_ws c = false -> c <> 93 ->
  begin_value K c = Some st0 ->
  run (m, K) (c :: t) = run st0 t.
Proof.
  intros Hm W N93 B. apply run_cons.
  destruct Hm as [->|[acc [K' [-> ->]]]]; cbn [step]; rewrite W.
  - exact B.
  - apply N.eqb_neq in N93. now rewrite N93.
Qed.

Lemma join_cons (sep a : jsstring) (b : jsstring) (r : list jsstring) :
  join sep (a :: b :: r) = a ++ sep ++ join sep (b :: r).
Proof. reflexivity. Qed.

Lemma run_elements (l : list value) :
  Forall reads l -> Forall storable l -> l <> [] ->
  forall (m : mode) (acc : list value) (K : list frame) (st1 : pstate)
         (rest : jsstring),
    m = MValue \/ m = MArrStart ->
    push_value (JArr (rev acc ++ l)) K = Some st1 ->
    run (m, FArr acc :: K) (join [44] (map serialize l) ++ 93 :: rest)
    = run st1 rest.
Proof.
  induction l as [|v l IH]; intros Hr Hs Hne m acc K st1 rest Hm P;
    [congruence|].
  inversion Hr as [|? ? Rv Rl]; subst. inversion Hs as [|? ? Sv Sl]; subst.
  assert (Hm' : m = MValue \/ (exists a K', m = MArrStart /\ FArr acc :: K = FArr a :: K'))
    by (destruct Hm; [now left|right; eauto]).
  destruct l as [|w l].
  - (* the last element *)
    cbn [map join].
    destruct (Rv (FArr acc :: K) (MAfter, FArr (v :: acc) :: K) (93 :: rest) eq_refl)
      as [c [t [st0 [E [W [N93 [B R]]]]]]].
    { destruct v; cbn; eauto. }
    rewrite E. cbn [app]. rewrite (run_begin m _ c _ st0 Hm' W N93 B), R.
    cbn [run step step_after]. change (is_json_ws 93) with false.
    change (93 =? 44) with false. change (93 =? 93) with true. cbv iota.
    cbn [rev]. now rewrite P.
  - cbn [map]. rewrite join_cons, <- !app_assoc.
    destruct (Rv (FArr acc :: K) (MAfter, FArr (v :: acc) :: K)
                 ([44] ++ join [44] (serialize w :: map serialize l) ++ 93 :: rest)
                 eq_refl)
      as [c [t [st0 [E [W [N93 [B R]]]]]]].
    { destruct v; cbn; eauto. }
    rewrite E. cbn [app]. cbn [app] in R.
    rewrite (run_begin m _ c _ st0 Hm' W N93 B), R.
    rewrite (run_cons _ (MValue, FArr (v :: acc) :: K)) by reflexivity.
    apply (IH Rl Sl); [discriminate|now left|].
    cbn [rev]. now rewrite <- app_assoc.
Qed.

Lemma reads_array (l : list value) :
  Forall reads l -> Forall storable l -> reads (JArr l).
Proof.
  intros Hr Hs K st1 rest P _.
  exists 91, (join [44] (map serialize l) ++ [93]), (MArrStart, FArr [] :: K).
  repeat split; try discriminate.
  rewrite <- app_assoc. cbn [app]. destruct l as [|v l].
  - cbn [map join app]. cbn [run step]. cbn. now rewrite P.
  - now apply run_elements; [| |discriminate|right|].
Qed.

Lemma run_key (m : mode) (k : jsstring) (acc : list (jsstring * value))
      (K : list frame) (rest : jsstring) :
  m = MObjStart \/ m = MKey ->
  run (m, FObj acc :: K) (quote k ++ 58 :: rest)
  = run (MValue, FMember acc k :: K) rest.
Proof.
  intros Hm. unfold quote. cbn [app].
  rewrite (run_cons _ (MStr true [] ENone, FObj acc :: K))
    by (destruct Hm as [->| ->]; reflexivity).
  rewrite <- app_assoc, run_quote_body. cbn [app].
  rewrite (run_cons _ (MColon, FMember acc k :: K))
    by (cbn [step]; change (34 =? 34) with true; cbv iota;
        now rewrite app_nil_r, rev_involutive).
  now apply run_cons.
Qed.

Lemma run_members (ps : list (jsstring * value)) :
  Forall (fun kv => reads (snd kv)) ps ->
  Forall (fun kv => storable (snd kv)) ps -> ps <> [] ->
  forall (m : mode) (acc : list (jsstring * value)) (K : list frame)
         (st1 : pstate) (rest : jsstring),
    m = MObjStart \/ m = MKey ->
    push_value
      (JObj (fold_left (fun a kv => define (fst kv) (snd kv) a) ps acc)) K
    = Some st1 ->
    run (m, FObj acc :: K) (join [44] (map member ps) ++ 125 :: rest)
    = run st1 rest.
Proof.
  induction ps as [|[k x] ps IH]; intros Hr Hs Hne m acc K st1 rest Hm P;
    [congruence|].
  inversion Hr as [|? ? Rx Rl]; subst. inversion Hs as [|? ? Sx Sl]; subst.
  cbn [fst snd] in Rx, Sx. cbn [fold_left fst snd] in P.
  assert (Hv : run (MValue, FMember acc k :: K)
                 = run (MValue, FMember acc k :: K)) by reflexivity.
  destruct ps as [|q ps].
  - cbn [map join]. unfold member at 1. cbn [fst snd].
    rewrite <- !app_assoc. cbn [app]. rewrite (run_key m) by exact Hm.
    destruct (Rx (FMember acc k :: K) (MAfter, FObj (define k x acc) :: K)
                 (125 :: rest) eq_refl)
      as [c [t [st0 [E [W [N93 [B R]]]]]]].
    { destruct x; cbn; eauto. }
    rewrite E. cbn [app].
    rewrite (run_begin MValue _ c _ st0 (or_introl eq_refl) W N93 B), R.
    cbn [run step step_after]. change (is_json_ws 125) with false.
    change (125 =? 44) with false. change (125 =? 125) with true. cbv iota.
    cbn [fold_left] in P. now rewrite P.
  - cbn [map]. rewrite join_cons. unfold member at 1. cbn [fst snd].
    rewrite <- !app_assoc. cbn [app]. rewrite (run_key m) by exact Hm.
    destruct (Rx (FMember acc k :: K) (MAfter, FObj (define k x acc) :: K)
                 (44 :: join [44] (member q :: map member ps) ++ 125 :: rest)
                 eq_refl)
      as [c [t [st0 [E [W [N93 [B R]]]]]]].
    { destruct x; cbn; eauto. }
    rewrite E. cbn [app].
    rewrite (run_begin MValue _ c _ st0 (or_introl eq_refl) W N93 B), R.
    rewrite (run_cons _ (MKey, FObj (define k x acc) :: K)) by reflexivity.
    apply (IH Rl Sl); [discriminate|now right|exact P].
Qed.

Lemma reads_object (ps : list (jsstring * value)) :
  Forall (fun kv => reads (snd kv)) ps -> storable (JObj ps) -> reads (JObj ps).
Proof.
  intros Hr Hs K st1 rest P _. apply storable_obj in Hs as [Hb Hs].
  apply ordered_build in Hb.
  exists 123, (join [44] (map member ps) ++ [125]), (MObjStart, FObj [] :: K).
  split; [now apply serialize_obj|].
  repeat split; try discriminate.
  rewrite <- app_assoc. cbn [app]. destruct ps as [|p ps].
  - cbn [map join app]. cbn [run step]. cbn. now rewrite P.
  - apply run_members; [assumption|assumption|discriminate|now left|].
    fold (build_object (p :: ps)). now rewrite Hb.
Qed.

Lemma storable_reads (v : value) : storable v -> reads v.
Proof.
  induction v as [| |b|x|s|l IH|ps IH] using value_induction; intros S.
  - now destruct S as [[] _].
  - now apply reads_scalar.
  - now apply reads_scalar.
  - now apply reads_number.
  - apply reads_string.
  - apply storable_arr in S. apply reads_array; [|exact S].
    clear -IH S. induction S; inversion IH; subst; constructor; auto.
  - apply reads_object; [|exact S].
    apply storable_obj in S as [_ S].
    clear -IH S. induction S; inversion IH; subst; constructor; auto.
Qed.

(** Parsing the text [JSON.stringify] prints for a storable value gives the
    value back. *)
Lemma parse_reads (v : value) :
  reads v -> ends_ok v [] -> parse (serialize v) = inl v.
Proof.
  intros Hr He. apply parse_ok.
  destruct (Hr [] (MDone v, []) [] eq_refl He)
    as [c [t [st0 [E [W [_ [B R]]]]]]].
  exists (MDone v, []). split; [|reflexivity].
  rewrite E. cbn [run step]. rewrite W, B.
  rewrite app_nil_r in R. exact R.
Qed.

Theorem parse_serialize (v : value) :
  storable v -> parse (serialize v) = inl v.
Proof.
  intros S. destruct v as [| |b|x|s|l|ps];
    try (apply parse_reads; [now apply storable_reads|exact I]).
  apply parse_ok. destruct S as [_ S].
  cbn [numbers_ok] in S. unfold number_of_text in S. cbn [serialize].
  destruct (number_text x) as [|c r]; [discriminate|].
  destruct (num_begin c) as [ns|] eqn:B; [|discriminate].
  destruct (num_run ns r) as [ns'|] eqn:R; [|discriminate].
  destruct (num_begin_value c ns [] B) as [Bv [W _]].
  exists (MNum ns', []). split.
  - cbn [run step]. rewrite W, Bv. now apply run_number_end.
  - cbn [finish]. now rewrite S.
Qed.

(** Numbers that read back from their printed form, and the two kinds that
    do not. *)
Example numbers_ok_samples :
  Forall (fun x => numbers_ok (JNum x))
         [Num.of_decimal false 45 (-2); Num.of_decimal true 25 (-1);
          Num.of_decimal false 1 21; Num.of_decimal false 5 (-324);
          Num.of_decimal false 17976931348623157 292;
          Num.of_decimal false 9007199254740993 0; S754_zero false].
Proof.
  repeat apply Forall_cons; try apply Forall_nil; vm_compute; reflexivity.
Qed.

Example negative_zero_prints_as_zero :
  number_of_text (number_text (S754_zero true)) = Some (S754_zero false).
Proof. reflexivity. Qed.

Example infinity_prints_as_null :
  number_of_text (number_text (S754_infinity false)) = None.
Proof. reflexivity. Qed.

(** ** The Command Bridge *)

Section BridgeFacts.

Variable scriptArgs : list jsstring.

Lemma run_app (evs more : list event) :
  runPythonScript scriptArgs (evs ++ more)
  = fold_left handle more (runPythonScript scriptArgs evs).
Proof. unfold runPythonScript. apply fold_left_app. Qed.

(** While only stream events arrive the buffers grow and nothing else
    happens. *)
Lemma fold_data (evs : list event) (st : state) :
  forallb is_data evs = true ->
  fold_left handle evs st
  = mkState (dataString st ++ stdout_of evs) (errorString st ++ stderr_of evs)
            (result st) (console st) (parsed st).
Proof.
  revert st. induction evs as [|ev evs IH]; intros st H; simpl.
  - rewrite !app_nil_r. now destruct st.
  - simpl in H. apply andb_true_iff in H as [Hev H].
    rewrite (IH _ H). destruct ev; try discriminate; simpl;
      now rewrite <- ?app_assoc.
Qed.

Lemma run_data (evs : list event) :
  forallb is_data evs = true ->
  runPythonScript scriptArgs evs
  = mkState (stdout_of evs) (stderr_of evs) Pending [] [].
Proof. intros H. unfold runPythonScript. now rewrite (fold_data _ _ H). Qed.

(** A listener never changes a settled promise. *)
Lemma handle_settled (st : state) (ev : event) :
  settled (result st) = true -> result (handle st ev) = result st.
Proof.
  intros H. destruct ev as [c|c|code|msg]; simpl; try reflexivity.
  - unfold on_close. destruct (is_zero code); [destruct (parse _)|]; simpl;
      destruct (result st); first [discriminate|reflexivity].
  - destruct (result st); [discriminate|reflexivity..].
Qed.

Lemma fold_settled (evs : list event) (st : state) :
  settled (result st) = true -> result (fold_left handle evs st) = result st.
Proof.
  revert st. induction evs as [|ev evs IH]; intros st H; simpl; [reflexivity|].
  rewrite IH; rewrite handle_settled; auto.
Qed.

(** [close] and [error] always settle a pending promise. *)
Lemma handle_terminal (st : state) (ev : event) :
  is_terminal ev = true -> settled (result (handle st ev)) = true.
Proof.
  intros H. destruct ev as [c|c|code|msg]; try discriminate; simpl.
  - unfold on_close. destruct (is_zero code); [destruct (parse _)|]; simpl;
      destruct (result st); reflexivity.
  - destruct (result st); reflexivity.
Qed.

Lemma handle_data (st : state) (ev : event) :
  is_data ev = true -> result (handle st ev) = result st.
Proof. destruct ev; simpl; intros; first [reflexivity|discriminate]. Qed.

Lemma settled_iff_terminal (evs : list event) :
  settled (result (runPythonScript scriptArgs evs)) = existsb is_terminal evs.
Proof.
  unfold runPythonScript.
  assert (G : forall st, settled (result (fold_left handle evs st))
                         = settled (result st) || existsb is_terminal evs).
  { induction evs as [|ev evs IH]; intros st; cbn [existsb fold_left].
    - now rewrite orb_false_r.
    - rewrite IH. destruct (is_data ev) eqn:E.
      + assert (T : is_terminal ev = false) by (unfold is_terminal; now rewrite E).
        rewrite handle_data by exact E. now rewrite T.
      + assert (T : is_terminal ev = true) by (unfold is_terminal; now rewrite E).
        rewrite handle_terminal by exact T. rewrite T.
        now rewrite orb_true_r. }
  now rewrite G.
Qed.

(** The scan stops at the first line whose trimmed text starts with an
    opening brace. *)
Lemma find_json_line_first (before after : list jsstring) (line : jsstring) :
  forallb (fun l => negb (json_shaped l)) before = true ->
  json_shaped line = true ->
  find_json_line (before ++ line :: after) = trim line.
Proof.
  unfold json_shaped. intros Hb Hl.
  induction before as [|l before IH]; cbn [app find_json_line forallb] in *.
  - now rewrite Hl.
  - apply andb_true_iff in Hb as [H1 H2].
    apply negb_true_iff in H1. rewrite H1. auto.
Qed.

Lemma find_json_line_none (lines : list jsstring) :
  forallb (fun l => negb (json_shaped l)) lines = true ->
  find_json_line lines = [].
Proof.
  unfold json_shaped.
  induction lines as [|l lines IH]; cbn [find_json_line forallb]; intros H;
    [reflexivity|].
  apply andb_true_iff in H as [H1 H2].
  apply negb_true_iff in H1. rewrite H1. auto.
Qed.

Lemma text_to_parse_first (data : jsstring) (before after : list jsstring)
      (line : jsstring) :
  split 10 data = before ++ line :: after ->
  forallb (fun l => negb (json_shaped l)) before = true ->
  json_shaped line = true ->
  text_to_parse data = trim line.
Proof.
  intros Hs Hb Hl. unfold text_to_parse.
  rewrite Hs, (find_json_line_first before after line); auto.
  unfold json_shaped in Hl. destruct (trim line); [discriminate Hl|reflexivity].
Qed.

Lemma text_to_parse_none (data : jsstring) :
  forallb (fun l => negb (json_shaped l)) (split 10 data) = true ->
  text_to_parse data = trim data.
Proof.
  intros H. unfold text_to_parse. now rewrite (find_json_line_none _ H).
Qed.

(** The state once a worker that started has closed. *)
Lemma run_closed (evs : list event) (code : option Z) :
  forallb is_data evs = true ->
  runPythonScript scriptArgs (evs ++ [Close code])
  = on_close code (mkState (stdout_of evs) (stderr_of evs) Pending [] []).
Proof. intros H. rewrite run_app, (run_data _ H). reflexivity. Qed.

Lemma run_stable (evs more : list event) :
  settled (result (runPythonScript scriptArgs evs)) = true ->
  result (runPythonScript scriptArgs (evs ++ more))
  = result (runPythonScript scriptArgs evs).
Proof. intros H. rewrite run_app. now apply fold_settled. Qed.


(** C3, as amended.  Once a [close] or [error] event has been delivered the
    promise is settled, and no later event changes how; before the first
    such event it is pending. *)
Theorem one_terminal_outcome (evs more : list event) :
  existsb is_terminal evs = true ->
  settled (result (runPythonScript scriptArgs evs)) = true
  /\ result (runPythonScript scriptArgs (evs ++ more))
     = result (runPythonScript scriptArgs evs)
  /\ (forall k, existsb is_terminal (firstn k evs) = false ->
                result (runPythonScript scriptArgs (firstn k evs)) = Pending).
Proof.
  intros H. rewrite <- settled_iff_terminal in H.
  split; [exact H|]. split; [now apply run_stable|].
  intros k Hk. rewrite <- settled_iff_terminal in Hk.
  now destruct (result (runPythonScript scriptArgs (firstn k evs))).
Qed.

(** What the [close] listener does with exit code 0 once the scan has
    stopped at [line]. *)
Lemma closed_on_json_line (evs : list event) (before after : list jsstring)
      (line : jsstring) :
  forallb is_data evs = true ->
  split 10 (stdout_of evs) = before ++ line :: after ->
  forallb (fun l => negb (json_shaped l)) before = true ->
  json_shaped line = true ->
  let st := runPythonScript scriptArgs (evs ++ [Close (Some 0%Z)]) in
  parsed st = [trim line]
  /\ result st = match parse (trim line) with
                 | inl v => Fulfilled v
                 | inr e => Rejected (parse_failure e)
                 end.
Proof.
  intros Hd Hs Hb Hl st. subst st. rewrite (run_closed _ _ Hd).
  unfold on_close. cbn [is_zero dataString].
  rewrite (text_to_parse_first _ _ _ _ Hs Hb Hl).
  destruct (parse (trim line)); cbn; auto.
Qed.

(** C4, as amended.  With exit code 0, the first line whose trimmed text
    starts with an opening brace is the only text parsed, and the promise
    is settled by that parse: resolved with its value when the trimmed line
    is valid JSON, rejected with the parse failure when it is not.  Whatever
    lines follow, JSON-shaped or not, play no part. *)
Theorem first_json_line_wins (evs : list event) (before after : list jsstring)
        (line : jsstring) :
  forallb is_data evs = true ->
  split 10 (stdout_of evs) = before ++ line :: after ->
  forallb (fun l => negb (json_shaped l)) before = true ->
  json_shaped line = true ->
  let st := runPythonScript scriptArgs (evs ++ [Close (Some 0%Z)]) in
  parsed st = [trim line]
  /\ result st = match parse (trim line) with
                 | inl v => Fulfilled v
                 | inr e => Rejected (parse_failure e)
                 end.
Proof. exact (closed_on_json_line evs before after line). Qed.

(** C5.  With exit code 0 and no line whose trimmed text starts with an
    opening brace, the whole trimmed buffer is parsed, and its value
    resolves the promise. *)
Theorem fallback_whole_buffer (evs : list event) (v : value) :
  forallb is_data evs = true ->
  forallb (fun l => negb (json_shaped l)) (split 10 (stdout_of evs)) = true ->
  parse (trim (stdout_of evs)) = inl v ->
  let st := runPythonScript scriptArgs (evs ++ [Close (Some 0%Z)]) in
  parsed st = [trim (stdout_of evs)] /\ result st = Fulfilled v.
Proof.
  intros Hd Hn Hp st. subst st. rewrite (run_closed _ _ Hd).
  unfold on_close. cbn [is_zero dataString].
  rewrite (text_to_parse_none _ Hn), Hp. cbn. auto.
Qed.

(** C6, as amended.  With exit code 0, when the text chosen for parsing is
    rejected by [JSON.parse], the promise is rejected with "Failed to parse
    Python output: <parser message>"; the raw stdout goes to the error log,
    after the parse error.  The rejection is made from the parse error
    alone, and so is settled by the text chosen for parsing: a run with
    another stdout, of which the same text is chosen, is rejected alike. *)
Theorem unparsable_output_rejects (evs evs' : list event) (e : JsError) :
  forallb is_data evs = true ->
  forallb is_data evs' = true ->
  parse (text_to_parse (stdout_of evs)) = inr e ->
  text_to_parse (stdout_of evs') = text_to_parse (stdout_of evs) ->
  let st := runPythonScript scriptArgs (evs ++ [Close (Some 0%Z)]) in
  let st' := runPythonScript scriptArgs (evs' ++ [Close (Some 0%Z)]) in
  result st = Rejected (mkError (js "Failed to parse Python output: " ++ message e))
  /\ console st = [LogJsonParseError e; LogRawOutput (stdout_of evs)]
  /\ console st' = [LogJsonParseError e; LogRawOutput (stdout_of evs')]
  /\ result st' = result st.
Proof.
  intros Hd Hd' Hp Ht st st'. subst st st'.
  rewrite (run_closed _ _ Hd), (run_closed _ _ Hd').
  unfold on_close. cbn [is_zero dataString]. rewrite Ht, Hp. cbn. auto.
Qed.


(** C10, as amended.  With exit code 0, when the first line whose trimmed
    text starts with an opening brace is rejected by [JSON.parse], the
    promise is rejected and that line is the only text ever handed to the
    parser: the whole buffer is not tried, whether or not it is valid
    JSON. *)
Theorem no_fallback_after_json_line (evs : list event)
        (before after : list jsstring) (line : jsstring) (e : JsError) :
  forallb is_data evs = true ->
  split 10 (stdout_of evs) = before ++ line :: after ->
  forallb (fun l => negb (json_shaped l)) before = true ->
  json_shaped line = true ->
  parse (trim line) = inr e ->
  let st := runPythonScript scriptArgs (evs ++ [Close (Some 0%Z)]) in
  result st = Rejected (parse_failure e) /\ parsed st = [trim line].
Proof.
  intros Hd Hs Hb Hl Hp st. subst st. rewrite (run_closed _ _ Hd).
  unfold on_close. cbn [is_zero dataString].
  rewrite (text_to_parse_first _ _ _ _ Hs Hb Hl), Hp. cbn. auto.
Qed.

(** C1, as amended.  With exit code 0, a line that is a valid JSON object,
    with no line before it whose trimmed text starts with an opening brace,
    resolves the promise with its parsed object, wherever it stands. *)
Theorem single_json_line_resolves (evs : list event)
        (before after : list jsstring) (line : jsstring)
        (o : list (jsstring * value)) :
  forallb is_data evs = true ->
  split 10 (stdout_of evs) = before ++ line :: after ->
  forallb (fun l => negb (json_shaped l)) before = true ->
  parse line = inl (JObj o) ->
  result (runPythonScript scriptArgs (evs ++ [Close (Some 0%Z)]))
  = Fulfilled (JObj o).
Proof.
  intros Hd Hs Hb Hp. destruct (parse_obj_trim _ _ Hp) as [Hl Ht].
  destruct (closed_on_json_line evs before after line Hd Hs Hb Hl) as [_ R].
  now rewrite Ht in R.
Qed.

End BridgeFacts.

(** *** The theorems at concrete runs *)

Import Scenario.

Lemma single_json_line_resolves_witness :
  result (runPythonScript args [StdoutData padded_output; Close (Some 0%Z)])
  = Fulfilled
      (JObj [(js "success", JBool true);
             (js "project_data",
              JObj [(js "overall_completes", JNum (Num.of_decimal false 45 0));
                    (js "total_quota", JNum (Num.of_decimal false 100 0));
                    (js "completion_percentage", JNum (Num.of_decimal false 45 (-2)))]);
             (js "analysis", JStr (js "On track."))]).
Proof.
  exact (single_json_line_resolves args [StdoutData padded_output]
           [js "Loading data..."] [js "Done."]
           (js "  " ++ report_line ++ [32; 13]) _
           eq_refl eq_refl eq_refl eq_refl).
Defined.

(** C1 as stated fails: the second line is the only JSON line, the first is
    not JSON, and the promise is rejected. *)
Lemma single_json_line_counterexample :
  let st := runPythonScript args
              [StdoutData (unlines [dict_line; ok_line]); Close (Some 0%Z)] in
  split 10 (dataString st) = [dict_line; ok_line]
  /\ parse ok_line = inl (JObj [(js "success", JBool true)])
  /\ parse dict_line = inr (mkError (js "Unexpected token ' in JSON at position 1"))
  /\ result st
     = Rejected (mkError (js "Failed to parse Python output: Unexpected token ' in JSON at position 1")).
Proof. vm_compute. repeat split. Qed.


Lemma one_terminal_outcome_witness :
  settled (result (runPythonScript args enoent)) = true
  /\ result (runPythonScript args (enoent ++ [Close (Some 0%Z)]))
     = result (runPythonScript args enoent)
  /\ (forall k, existsb is_terminal (firstn k enoent) = false ->
                result (runPythonScript args (firstn k enoent)) = Pending).
Proof. exact (one_terminal_outcome args enoent [Close (Some 0%Z)] eq_refl). Defined.

(** C3 as stated fails: a worker that never closes leaves the promise
    pending for ever; at no point of its run is there an outcome. *)
Lemma one_terminal_outcome_counterexample :
  ~ (exists n,
       settled (result (runPythonScript args (first_events n hung_worker))) = true).
Proof.
  intros [n H]. rewrite settled_iff_terminal in H.
  unfold first_events in H. revert H. generalize 0%nat.
  induction n as [|n IH]; intros k H; [discriminate|]. cbn in H. now apply (IH (S k)).
Qed.

Lemma first_json_line_wins_witness :
  let st := runPythonScript args
              ([StdoutData (unlines [js "Loading data...";
                                     js "  " ++ ok_line ++ [32; 13];
                                     jsq "{'success': false}"])]
               ++ [Close (Some 0%Z)]) in
  parsed st = [ok_line]
  /\ result st = Fulfilled (JObj [(js "success", JBool true)]).
Proof.
  exact (first_json_line_wins args
           [StdoutData (unlines [js "Loading data...";
                                 js "  " ++ ok_line ++ [32; 13];
                                 jsq "{'success': false}"])]
           [js "Loading data..."] [jsq "{'success': false}"]
           (js "  " ++ ok_line ++ [32; 13])
           eq_refl eq_refl eq_refl eq_refl).
Defined.

(** C4 as stated fails: of two lines that start with a brace the earlier is
    the one parsed, and it is not returned: it is not JSON, and the promise
    is rejected, though the later line is JSON. *)
Lemma first_json_line_counterexample :
  let st := runPythonScript args
              [StdoutData (unlines [dict_line; ok_line]); Close (Some 0%Z)] in
  split 10 (dataString st) = [dict_line; ok_line]
  /\ json_shaped dict_line = true
  /\ json_shaped ok_line = true
  /\ parse ok_line = inl (JObj [(js "success", JBool true)])
  /\ parsed st = [dict_line]
  /\ exists e, result st = Rejected e.
Proof. repeat (split; [reflexivity|]). eexists. reflexivity. Qed.

Lemma fallback_whole_buffer_witness :
  let st := runPythonScript args
              ([StdoutData (jsq "[1, 2]"); StdoutData [10]] ++ [Close (Some 0%Z)]) in
  parsed st = [jsq "[1, 2]"]
  /\ result st
     = Fulfilled (JArr [JNum (Num.of_decimal false 1 0); JNum (Num.of_decimal false 2 0)]).
Proof.
  exact (fallback_whole_buffer args [StdoutData (jsq "[1, 2]"); StdoutData [10]] _
           eq_refl eq_refl eq_refl).
Defined.

Lemma unparsable_output_rejects_witness :
  let st := runPythonScript args ([StdoutData (js "Loading data...")]
                                  ++ [Close (Some 0%Z)]) in
  let st' := runPythonScript args ([StdoutData (js "  Loading data...");
                                    StdoutData [13; 10]]
                                   ++ [Close (Some 0%Z)]) in
  exists parseError,
    parse (js "Loading data...") = inr parseError
    /\ result st
       = Rejected (mkError (js "Failed to parse Python output: "
                            ++ message parseError))
    /\ console st
       = [LogJsonParseError parseError; LogRawOutput (js "Loading data...")]
    /\ console st'
       = [LogJsonParseError parseError;
          LogRawOutput (js "  Loading data..." ++ [13; 10])]
    /\ result st' = result st.
Proof.
  exists (mkError (js "Unexpected token L in JSON at position 0")).
  split; [reflexivity|].
  exact (unparsable_output_rejects args [StdoutData (js "Loading data...")]
           [StdoutData (js "  Loading data..."); StdoutData [13; 10]]
           (mkError (js "Unexpected token L in JSON at position 0"))
           eq_refl eq_refl eq_refl eq_refl).
Defined.

(** C6 as stated fails: an empty stdout and a stdout of one space are
    rejected with the same error, so the rejection does not hold the raw
    stdout. *)
Lemma unparsable_output_counterexample :
  let a := runPythonScript args [Close (Some 0%Z)] in
  let b := runPythonScript args [StdoutData (js " "); Close (Some 0%Z)] in
  dataString a <> dataString b
  /\ result a = result b
  /\ result a
     = Rejected (mkError (js "Failed to parse Python output: Unexpected end of JSON input")).
Proof. vm_compute. repeat split. discriminate. Qed.


Lemma no_fallback_after_json_line_witness :
  let st := runPythonScript args ([StdoutData pretty_output] ++ [Close (Some 0%Z)]) in
  result st
  = Rejected (mkError (js "Failed to parse Python output: Unexpected end of JSON input"))
  /\ parsed st = [js "{"].
Proof.
  exact (no_fallback_after_json_line args [StdoutData pretty_output]
           [] [jsq "  'success': true"; js "}"] (js "{")
           (mkError (js "Unexpected end of JSON input"))
           eq_refl eq_refl eq_refl eq_refl eq_refl).
Defined.

(** The buffer of that run is valid JSON as a whole. *)
Example pretty_output_is_json :
  parse (trim pretty_output) = inl (JObj [(js "success", JBool true)]).
Proof. reflexivity. Qed.

(** C10 as stated fails: some line starts with a brace and is not JSON, and
    the promise is resolved, by the JSON line before it. *)
Lemma no_fallback_counterexample :
  let st := runPythonScript args
              [StdoutData (unlines [ok_line; dict_line]); Close (Some 0%Z)] in
  split 10 (dataString st) = [ok_line; dict_line]
  /\ json_shaped dict_line = true
  /\ parse (trim dict_line) = inr (mkError (js "Unexpected token ' in JSON at position 1"))
  /\ result st = Fulfilled (JObj [(js "success", JBool true)]).
Proof. vm_compute. repeat split. Qed.

(** ** The chat handler *)

Lemma includes_toLowerCase (s p : jsstring) :
  includes s p = true -> toLowerCase p = p ->
  includes (toLowerCase s) p = true.
Proof.
  intros H L. destruct (includes_inv _ _ H) as [pre [post ->]].
  unfold toLowerCase in *. rewrite !map_app, L. apply includes_app.
Qed.

Lemma mentions_word (m : jsstring) (word : string) :
  includes m (js word) = true -> toLowerCase (js word) = js word ->
  Chat.mentions (JStr m) word = inl true.
Proof.
  intros H L. unfold Chat.mentions, Chat.lowered. cbn [bind].
  now rewrite includes_toLowerCase.
Qed.

(** C9.  The worker prints the three lines of the scenario and exits 0: the
    promise resolves with the report, whose
    [project_data.completion_percentage] is the Number 0.45; and a chat
    request whose message contains "status" is answered with success and
    with the status sentence, which holds "45 out of 100" and "45.0%". *)
Theorem report_scenario (evs : list event) (body : value) (m : jsstring) :
  forallb is_data evs = true ->
  stdout_of evs = report_output ->
  Get body (js "message") = inl (JStr m) ->
  includes m (js "status") = true ->
  let p := result (runPythonScript args (evs ++ [Close (Some 0%Z)])) in
  let text := js "Current recruitment status: 45 out of 100 participants completed (45.0% complete)." in
  exists r data,
    p = Fulfilled r
    /\ Get r (js "project_data") = inl data
    /\ Get data (js "completion_percentage") = inl (JNum (Num.of_decimal false 45 (-2)))
    /\ Chat.chat body p
       = Some (JObj [(js "success", JBool true); (js "response", JStr text);
                     (js "data", data)])
    /\ includes text (js "45 out of 100") = true
    /\ includes text (js "45.0%") = true.
Proof.
  intros Hd Ho Hb Hm p text. subst p.
  rewrite (run_closed _ _ _ Hd), Ho.
  match goal with
  | |- context [result ?st] =>
      let r := eval vm_compute in (result st) in
      change (result st) with r
  end.
  eexists. eexists. split; [reflexivity|].
  split; [reflexivity|]. split; [reflexivity|].
  split; [|split; reflexivity].
  unfold Chat.chat. rewrite Hb.
  unfold Chat.answer. cbn [Get get_own bind ToBoolean].
  change (Str.eqb (js "success") (js "success")) with true. cbn [bind ToBoolean].
  unfold Chat.reply, Chat.either.
  rewrite (mentions_word m "status" Hm eq_refl).
  reflexivity.
Qed.

Lemma report_scenario_witness :
  let body := JObj [(js "message", JStr (js "What is the current status?"))] in
  let p := result (runPythonScript args
                     ([StdoutData (js "Loading data..."); StdoutData [10];
                       StdoutData report_line; StdoutData [10];
                       StdoutData (js "Done.")] ++ [Close (Some 0%Z)])) in
  let text := js "Current recruitment status: 45 out of 100 participants completed (45.0% complete)." in
  exists r data,
    p = Fulfilled r
    /\ Get r (js "project_data") = inl data
    /\ Get data (js "completion_percentage") = inl (JNum (Num.of_decimal false 45 (-2)))
    /\ Chat.chat body p
       = Some (JObj [(js "success", JBool true); (js "response", JStr text);
                     (js "data", data)])
    /\ includes text (js "45 out of 100") = true
    /\ includes text (js "45.0%") = true.
Proof.
  exact (report_scenario
           [StdoutData (js "Loading data..."); StdoutData [10];
            StdoutData report_line; StdoutData [10]; StdoutData (js "Done.")]
           (JObj [(js "message", JStr (js "What is the current status?"))])
           (js "What is the current status?")
           eq_refl eq_refl eq_refl eq_refl).
Defined.

(** ** The settings handlers *)

Import Settings.

Lemma get_own_assign (key k : jsstring) (v : value) (st : obj_state) :
  Str.eqb key (js "__proto__") = false ->
  get_own key (fst (assign k v st))
  = if Str.eqb key k then Some v else get_own key (fst st).
Proof.
  intros Hp. destruct st as [props proto]. unfold assign.
  destruct (Str.eqb k (js "__proto__")) eqn:E.
  - apply eqb_eq in E. subst k. rewrite Hp.
    repeat match goal with
           | |- context [match ?x with _ => _ end] => destruct x
           end;
      cbn [fst]; try reflexivity; now rewrite get_own_define, Hp.
  - cbn [fst]. apply get_own_define.
Qed.

Lemma read_row_assign (st : obj_state) (r : row) :
  read_row st r = assign (setting_key r) (read_back (setting_value r)) st.
Proof.
  unfold read_row, read_back.
  destruct (startsWith _ _ || startsWith _ _); [|reflexivity].
  destruct (parse _); reflexivity.
Qed.

(** *** What the table keeps of a text *)

Lemma as_utf8_unit (c : N) (r : jsstring) :
  no_surrogate c = true -> as_utf8 (c :: r) = c :: as_utf8 r.
Proof.
  unfold no_surrogate. intros H. apply andb_true_iff in H as [H1 H2].
  apply negb_true_iff in H1, H2. cbn [as_utf8]. now rewrite H1, H2.
Qed.





Lemma kept_text_units (a : jsstring) :
  forallb no_surrogate a = true -> kept_text a.
Proof.
  induction a as [|c a IH]; cbn [forallb]; intros H rest; [reflexivity|].
  apply andb_true_iff in H as [H1 H2]. cbn [app].
  now rewrite (as_utf8_unit _ _ H1), (IH H2).
Qed.


Lemma as_utf8_kept (a : jsstring) : kept_text a -> as_utf8 a = a.
Proof.
  intros H. generalize (H []). cbn [as_utf8]. now rewrite !app_nil_r.
Qed.





(** *** The text of a number *)

Lemma number_chars_of (u : Decimal.uint) :
  forallb number_char (uint_digits u) = true.
Proof. induction u; cbn [uint_digits forallb]; auto. Qed.

Lemma number_chars_of_N (n : N) : forallb number_char (of_N n) = true.
Proof. apply number_chars_of. Qed.

Lemma number_chars_zeros (n : Z) : forallb number_char (Num.zeros n) = true.
Proof.
  unfold Num.zeros. induction (Z.to_nat n) as [|k IH]; [reflexivity|exact IH].
Qed.

Lemma forallb_firstn {A : Type} (p : A -> bool) (n : nat) (s : list A) :
  forallb p s = true -> forallb p (firstn n s) = true.
Proof.
  revert n. induction s as [|c s IH]; intros [|n] H; try reflexivity.
  cbn [forallb firstn] in *. apply andb_true_iff in H as [H1 H]. rewrite H1.
  now apply IH.
Qed.

Lemma forallb_skipn {A : Type} (p : A -> bool) (n : nat) (s : list A) :
  forallb p s = true -> forallb p (skipn n s) = true.
Proof.
  revert n. induction s as [|c s IH]; intros [|n] H; try reflexivity; [exact H|].
  cbn [forallb skipn] in *. apply andb_true_iff in H as [_ H]. now apply IH.
Qed.

Lemma number_chars_format (d : jsstring) (k n : Z) :
  forallb number_char d = true -> forallb number_char (Num.format d k n) = true.
Proof.
  intros H. unfold Num.format, Num.exponent_text.
  repeat match goal with
         | |- context [if ?b then _ else _] => destruct b
         end;
    rewrite ?forallb_app, ?H, ?number_chars_zeros, ?number_chars_of_N,
      ?forallb_firstn, ?forallb_skipn by exact H; reflexivity.
Qed.

(** The text of a number is made of digits, signs, a point and the letters
    of an exponent, of [Infinity] and of [NaN]. *)
Lemma number_chars_toString (x : spec_float) :
  forallb number_char (Num.toString x) = true.
Proof.
  destruct x as [s|s| |s m e]; cbn [Num.toString]; try reflexivity.
  - destruct s; reflexivity.
  - destruct (Num.shortest_from _ _ _ _ _) as [[d k] n].
    rewrite forallb_app, number_chars_format by apply number_chars_of_N.
    destruct s; reflexivity.
Qed.

Lemma number_char_cases (c : N) :
  number_char c = true -> In c (js "0123456789+-.eInfinityNaN").
Proof.
  unfold number_char. intros H. apply existsb_exists in H as [k [Hk E]].
  apply N.eqb_eq in E. now subst k.
Qed.

Lemma number_chars_units (s : jsstring) :
  forallb number_char s = true -> forallb no_surrogate s = true.
Proof.
  intros H. apply forallb_forall. intros c Hc.
  apply (proj1 (forallb_forall _ _) H), number_char_cases in Hc.
  revert c Hc. apply forallb_forall. reflexivity.
Qed.



(** *** The table *)

Lemma stored_app (key : jsstring) (a b : list row) :
  stored key (a ++ b)
  = match stored key b with
    | Some t => Some t
    | None => stored key a
    end.
Proof.
  induction a as [|r a IH]; cbn [app stored].
  - destruct (stored key b); reflexivity.
  - rewrite IH. destruct (stored key b); reflexivity.
Qed.

Lemma stored_insert (key : jsstring) (r : row) (db : list row) :
  stored key (insert_or_replace r db)
  = if Str.eqb (setting_key r) key then Some (setting_value r) else stored key db.
Proof.
  unfold insert_or_replace. rewrite stored_app. cbn [stored].
  destruct (Str.eqb (setting_key r) key) eqn:E; [reflexivity|].
  induction db as [|q db IH]; [reflexivity|]. cbn [filter stored].
  destruct (Str.eqb (setting_key q) (setting_key r)) eqn:Q; cbn [negb stored].
  - rewrite IH. apply eqb_eq in Q. rewrite Q, E.
    destruct (stored key db); reflexivity.
  - now rewrite IH.
Qed.

(** A key of the request that is stored as [key] is [key] itself or a rival
    of it. *)
Lemma names_none (key : jsstring) (es : list (jsstring * value)) :
  has_own key es = false -> rivals key es = false -> names key es = false.
Proof.
  unfold names, rivals.
  induction es as [|[k x] es IH]; cbn [has_own existsb fst]; [reflexivity|].
  intros H R. apply orb_false_iff in H as [H1 H2].
  apply orb_false_iff in R as [R1 R2].
  rewrite (IH H2 R2), orb_false_r.
  rewrite (eqb_sym k key), H1 in R1. cbn [negb] in R1.
  now rewrite andb_true_r in R1.
Qed.

Lemma stored_write_other (clock : nat -> jsstring) (key : jsstring)
      (es : list (jsstring * value)) :
  names key es = false ->
  forall i db, stored key (write_all clock i es db) = stored key db.
Proof.
  unfold names.
  induction es as [|[k x] es IH]; intros H i db; [reflexivity|].
  cbn [existsb fst] in H. apply orb_false_iff in H as [H1 H2].
  cbn [write_all]. rewrite (IH H2), stored_insert. cbn [setting_key].
  now rewrite H1.
Qed.

Lemma stored_write_all (clock : nat -> jsstring) (key : jsstring) (v : value)
      (es : list (jsstring * value)) :
  get_own key es = Some v -> distinct_keys es = true ->
  as_utf8 key = key -> rivals key es = false ->
  forall i db,
    stored key (write_all clock i es db) = Some (as_utf8 (valueStr v)).
Proof.
  intros G D U. revert G D.
  induction es as [|[k x] es IH]; intros G D R i db; [discriminate|].
  cbn [get_own] in G. cbn [distinct_keys] in D.
  apply andb_true_iff in D as [D1 D2].
  assert (R2 : rivals key es = false).
  { unfold rivals in *. cbn [existsb] in R. now apply orb_false_iff in R. }
  cbn [write_all].
  destruct (Str.eqb key k) eqn:E.
  - apply eqb_eq in E. subst k. inversion G; subst x.
    apply negb_true_iff in D1.
    rewrite (stored_write_other clock key es (names_none key es D1 R2)).
    rewrite stored_insert. cbn [setting_key setting_value].
    now rewrite U, eqb_refl.
  - now apply IH.
Qed.

Lemma getAll_stored (key : jsstring) (db : list row) :
  Str.eqb key (js "__proto__") = false ->
  forall st,
    get_own key (fst (fold_left read_row db st))
    = match stored key db with
      | Some t => Some (read_back t)
      | None => get_own key (fst st)
      end.
Proof.
  intros Hp. induction db as [|r db IH]; intros st; [reflexivity|].
  cbn [fold_left stored]. rewrite IH.
  destruct (stored key db); [reflexivity|].
  rewrite read_row_assign, (get_own_assign _ _ _ _ Hp), eqb_sym.
  destruct (Str.eqb (setting_key r) key); reflexivity.
Qed.

(** What is read back under a key is what the GET handler makes of the text
    the table keeps of the last write under it. *)
Lemma read_after_write (clock : nat -> jsstring) (db : list row)
      (es : list (jsstring * value)) (key : jsstring) (v : value) :
  get_own key es = Some v -> distinct_keys es = true ->
  as_utf8 key = key -> rivals key es = false ->
  Str.eqb key (js "__proto__") = false ->
  get_own key (getAll (write_all clock 0 es db))
  = Some (read_back (as_utf8 (valueStr v))).
Proof.
  intros G D U R Hp. unfold getAll.
  now rewrite (getAll_stored _ _ Hp), (stored_write_all clock key v es G D U R).
Qed.




(** A request body whose [settings] is an object. *)
Lemma settings_object (body : value) (es : list (jsstring * value)) :
  built body -> Get body (js "settings") = inl (JObj es) ->
  settings_of body = inl (JObj es)
  /\ ordered es /\ Forall (fun kv => built (snd kv)) es.
Proof.
  intros B G. destruct body as [| |b|x|s|l|ps]; try discriminate.
  split; [exact G|]. cbn [Get] in G.
  destruct (get_own (js "settings") ps) as [w|] eqn:E; [|discriminate].
  inversion G; subst w. apply built_obj in B as [_ B].
  now apply built_obj, (get_own_built (js "settings") _ ps).
Qed.



(** Strings and arrays of the same request. *)
Example settings_strings_and_arrays :
  let db' := snd (put_settings clock settings_body []) in
  get_own (js "report_hour") (getAll db') = Some (JStr (js "9"))
  /\ get_own (js "recipients") (getAll db')
     = Some (JArr [JStr (js "ops@example.com"); JStr (jsq "'QA' <qa@example.com>")]).
Proof. split; reflexivity. Qed.


(** A surrogate on its own is not read back either: the table holds U+FFFD
    in its place. *)
Example lone_surrogate_is_replaced :
  let body := JObj [(js "settings", JObj [(js "lone", JStr [97; 55296; 98])])] in
  let db' := snd (put_settings clock body []) in
  parse (jsq "{'settings': {'lone': 'a\ud800b'}}") = inl body
  /\ get_own (js "lone") (getAll db') = Some (JStr [97; 65533; 98]).
Proof. split; reflexivity. Qed.

(** Two keys of a request that differ by such a surrogate are stored under
    one key, and the later is the one read back, under the stored key. *)
Example rival_keys_share_a_row :
  let es := [([107; 65533], JStr (js "x")); ([107; 55296], JStr (js "y"))] in
  let db' := snd (put_settings clock (JObj [(js "settings", JObj es)]) []) in
  distinct_keys es = true
  /\ rivals [107; 65533] es = true
  /\ getAll db' = [([107; 65533], JStr (js "y"))].
Proof. repeat split; reflexivity. Qed.

(** The key left out above: what is written under [__proto__] is stored,
    and lost when it is read. *)
Example proto_key_is_lost :
  let body := JObj [(js "settings", JObj [(js "__proto__", JStr (js "x"))])] in
  let db' := snd (put_settings clock body []) in
  parse (jsq "{'settings': {'__proto__': 'x'}}") = inl body
  /\ stored (js "__proto__") db' = Some (js "x")
  /\ getAll db' = [].
Proof. repeat split; reflexivity. Qed.

(** * The rest of the file *)

(** What [server.js] does besides: decoding the buffers of the worker, the
    routes and the start-up that call the Bridge, and further laws of the
    Bridge, of the chat handler and of the settings handlers. *)

Import Utf8 Routes Startup Lines Topics Rows Samples.

(** ** Lines of the buffer *)

Lemma split_nonempty (sep : N) (s : jsstring) : split sep s <> [].
Proof.
  destruct s as [|c s]; cbn [split]; [discriminate|].
  destruct (c =? sep); [discriminate|]. destruct (split sep s); discriminate.
Qed.

Lemma split_cons (sep c : N) (s : jsstring) :
  (c =? sep) = false ->
  exists l ls, split sep s = l :: ls /\ split sep (c :: s) = (c :: l) :: ls.
Proof.
  intros H. cbn [split]. rewrite H.
  destruct (split sep s) as [|l ls] eqn:E; [now destruct (split_nonempty sep s)|].
  eauto.
Qed.

Lemma split_line (l : jsstring) : is_line l = true -> split 10 l = [l].
Proof.
  induction l as [|c l IH]; cbn [is_line forallb split]; [reflexivity|].
  intros H. apply andb_true_iff in H as [H1 H2]. apply negb_true_iff in H1.
  rewrite H1, (IH H2). reflexivity.
Qed.

Lemma split_app (l s : jsstring) :
  is_line l = true -> split 10 (l ++ 10 :: s) = l :: split 10 s.
Proof.
  induction l as [|c l IH]; cbn [is_line forallb app]; intros H.
  - reflexivity.
  - apply andb_true_iff in H as [H1 H2]. apply negb_true_iff in H1.
    cbn [split]. rewrite H1, (IH H2). reflexivity.
Qed.

Lemma trimEnd_head (c : N) (s : jsstring) :
  is_trim_space c = false -> exists r, trimEnd (c :: s) = c :: r.
Proof.
  intros H. induction s as [|x s IH] using rev_ind.
  - exists []. change [c] with ([] ++ [c]). now rewrite trimEnd_snoc, H.
  - rewrite app_comm_cons, trimEnd_snoc.
    destruct (is_trim_space x); [exact IH|]. now exists (s ++ [x]).
Qed.

Lemma trim_space_cons (c : N) (s : jsstring) :
  is_trim_space c = true -> trim (c :: s) = trim s.
Proof. intros H. unfold trim. cbn [trimStart]. now rewrite H. Qed.

Lemma trim_snoc_space (s : jsstring) (c : N) :
  is_trim_space c = true -> trim (s ++ [c]) = trim s.
Proof.
  intros H. unfold trim. induction s as [|a s IH]; cbn [app trimStart].
  - now rewrite H.
  - destruct (is_trim_space a); [exact IH|].
    now rewrite app_comm_cons, trimEnd_snoc, H.
Qed.

Lemma trimStart_blank (s : jsstring) :
  forallb is_trim_space s = true -> trimStart s = [].
Proof.
  induction s as [|c s IH]; cbn [forallb trimStart]; [reflexivity|].
  intros H. apply andb_true_iff in H as [-> H]. auto.
Qed.

Lemma trim_blank (s : jsstring) : forallb is_trim_space s = true -> trim s = [].
Proof. intros H. unfold trim. now rewrite trimStart_blank. Qed.

Lemma split_blank (s : jsstring) :
  forallb is_trim_space s = true ->
  forallb (forallb is_trim_space) (split 10 s) = true.
Proof.
  induction s as [|c s IH]; cbn [forallb split]; [reflexivity|].
  intros H. apply andb_true_iff in H as [H1 H2]. specialize (IH H2).
  destruct (c =? 10); [exact IH|].
  destruct (split 10 s) as [|l ls]; cbn [forallb] in *; now rewrite H1.
Qed.

Lemma json_shaped_space (c : N) (s : jsstring) :
  is_trim_space c = true -> json_shaped (c :: s) = json_shaped s.
Proof. intros H. unfold json_shaped. now rewrite trim_space_cons. Qed.

Lemma json_shaped_brace (s : jsstring) : json_shaped (123 :: s) = true.
Proof.
  unfold json_shaped, trim. cbn [trimStart].
  change (is_trim_space 123) with false. cbv iota.
  destruct (trimEnd_head 123 s eq_refl) as [r ->]. reflexivity.
Qed.

(** The first character of the buffer that is not white space is the first
    such character of its line. *)
Lemma brace_line (data t : jsstring) :
  trimStart data = 123 :: t -> existsb json_shaped (split 10 data) = true.
Proof.
  induction data as [|c data IH]; cbn [trimStart]; [discriminate|].
  destruct (is_trim_space c) eqn:E; intros H.
  - specialize (IH H). destruct (c =? 10) eqn:C.
    + cbn [split]. rewrite C. cbn [existsb]. rewrite IH. apply orb_true_r.
    + destruct (split_cons 10 c data C) as (l & ls & E1 & E2).
      rewrite E2. rewrite E1 in IH. cbn [existsb] in *.
      now rewrite json_shaped_space.
  - injection H as -> _.
    destruct (split_cons 10 123 data eq_refl) as (l & ls & E1 & E2).
    rewrite E2. cbn [existsb]. now rewrite json_shaped_brace.
Qed.

Lemma trim_brace_line (data r : jsstring) :
  trim data = 123 :: r -> existsb json_shaped (split 10 data) = true.
Proof.
  unfold trim. intros H.
  destruct (trimEnd_prefix (trimStart data)) as [w E]. rewrite H in E.
  now apply (brace_line data (r ++ w)).
Qed.

Lemma first_match {A : Type} (f : A -> bool) (l : list A) :
  existsb f l = true ->
  exists before x after,
    l = before ++ x :: after
    /\ forallb (fun a => negb (f a)) before = true /\ f x = true.
Proof.
  induction l as [|a l IH]; cbn [existsb]; [discriminate|].
  destruct (f a) eqn:E; intros H.
  - exists [], a, l. auto.
  - destruct (IH H) as (before & x & after & -> & Hb & Hx).
    exists (a :: before), x, after. cbn [forallb]. rewrite E. auto.
Qed.

Lemma no_match {A : Type} (f : A -> bool) (l : list A) :
  existsb f l = false <-> forallb (fun a => negb (f a)) l = true.
Proof.
  induction l as [|a l IH]; cbn [existsb forallb]; [tauto|].
  rewrite orb_false_iff, andb_true_iff, negb_true_iff. tauto.
Qed.

(** A text that parses to an object starts, once trimmed, with a brace. *)
Lemma parse_obj_brace (s : jsstring) (o : list (jsstring * value)) :
  parse (trim s) = inl (JObj o) -> exists r, trim s = 123 :: r.
Proof.
  intros H. apply parse_ok in H as [st [R F]].
  apply finish_obj in F. subst st.
  destruct (trim s) as [|c r] eqn:E; [discriminate|].
  assert (W : is_json_ws c = false).
  { destruct (is_json_ws c) eqn:W; [|reflexivity].
    apply json_ws_trim_space in W. now rewrite (trim_head _ _ _ E) in W. }
  rewrite (parse_obj_head _ _ _ R W). eauto.
Qed.

(** The scan looks at the trimmed lines only. *)
Lemma find_json_line_trim (ls ls' : list jsstring) :
  map trim ls = map trim ls' -> find_json_line ls = find_json_line ls'.
Proof.
  revert ls'. induction ls as [|l ls IH]; intros [|l' ls'] H;
    try discriminate; [reflexivity|].
  cbn [map] in H. injection H as H1 H2.
  cbn [find_json_line]. rewrite H1, (IH _ H2). reflexivity.
Qed.

(** Lines joined by a line feed, with white space before it or without, are
    the lines [split] gives back, up to that white space. *)
Lemma lines_of_join (eol : jsstring) (lines : list jsstring) :
  forallb is_line lines = true -> is_line eol = true ->
  forallb is_trim_space eol = true ->
  lines <> [] ->
  map trim (split 10 (join (eol ++ [10]) lines)) = map trim lines.
Proof.
  intros H He Hs. induction lines as [|a lines IH]; [congruence|]. intros _.
  cbn [forallb] in H. apply andb_true_iff in H as [H1 H2].
  destruct lines as [|b lines].
  - cbn [join]. now rewrite split_line.
  - change (join (eol ++ [10]) (a :: b :: lines))
      with (a ++ (eol ++ [10]) ++ join (eol ++ [10]) (b :: lines)).
    rewrite <- app_assoc, app_assoc. cbn [app].
    rewrite split_app.
    + cbn [map]. rewrite IH by (auto; discriminate). f_equal.
      clear - Hs. induction eol as [|c eol IH] using rev_ind.
      * now rewrite app_nil_r.
      * rewrite forallb_app in Hs. apply andb_true_iff in Hs as [Hs1 Hs2].
        cbn in Hs2. rewrite andb_true_r in Hs2.
        rewrite app_assoc, trim_snoc_space by exact Hs2. auto.
    + unfold is_line in *. now rewrite forallb_app, H1, He.
Qed.

Lemma find_json_line_shaped (lines : list jsstring) :
  existsb json_shaped lines = true -> find_json_line lines <> [].
Proof.
  unfold json_shaped.
  induction lines as [|l lines IH]; cbn [existsb find_json_line]; [discriminate|].
  destruct (startsWith (trim l) (js "{")) eqn:E; [|exact IH].
  intros _ T. rewrite T in E. discriminate.
Qed.

Lemma find_json_line_blank (lines : list jsstring) :
  forallb (forallb is_trim_space) lines = true -> find_json_line lines = [].
Proof.
  induction lines as [|l lines IH]; cbn [forallb find_json_line]; [reflexivity|].
  intros H. apply andb_true_iff in H as [H1 H2].
  rewrite (trim_blank l H1). cbn. auto.
Qed.

(** ** More on the Command Bridge *)

Section BridgeLaws.

Variable scriptArgs : list jsstring.

(** The first event that is not stream data decides. *)
Lemma run_first_terminal (pre post : list event) (t : event) :
  forallb is_data pre = true -> is_terminal t = true ->
  result (runPythonScript scriptArgs (pre ++ t :: post))
  = result (handle (mkState (stdout_of pre) (stderr_of pre) Pending [] []) t).
Proof.
  intros Hp Ht. change (pre ++ t :: post) with (pre ++ [t] ++ post).
  rewrite app_assoc, run_stable.
  - now rewrite run_app, (run_data _ _ Hp).
  - rewrite settled_iff_terminal, existsb_app. cbn [existsb].
    rewrite Ht. cbn. apply orb_true_r.
Qed.

(** X1.  The outcome of a run that closes depends only on the exit code and
    on what one stream held in all, once decoded: stdout when the code is
    0, stderr otherwise.  How the text was cut into chunks, how the chunks
    of the two streams followed each other and what the other stream held
    make no difference to the promise or to the error log. *)
Theorem outcome_depends_on_streams (evs evs' : list event) (code : option Z) :
  forallb is_data evs = true -> forallb is_data evs' = true ->
  (if is_zero code then stdout_of evs = stdout_of evs'
   else stderr_of evs = stderr_of evs') ->
  let st := runPythonScript scriptArgs (evs ++ [Close code]) in
  let st' := runPythonScript scriptArgs (evs' ++ [Close code]) in
  result st = result st' /\ console st = console st'.
Proof.
  intros H H' E st st'. subst st st'.
  rewrite !run_closed by assumption. unfold on_close.
  destruct (is_zero code); cbn [dataString errorString result console].
  - rewrite E. destruct (parse _); cbn; auto.
  - rewrite E. cbn. auto.
Qed.

(** X2.  Whenever the promise is resolved with an object, the object is the
    parse of one line of stdout, the first whose trimmed text starts with an
    opening brace: the parse of the whole buffer never gives an object, so
    an object printed over several lines is never accepted. *)
Theorem object_comes_from_one_line (evs : list event)
        (o : list (jsstring * value)) :
  forallb is_data evs = true ->
  result (runPythonScript scriptArgs (evs ++ [Close (Some 0%Z)]))
  = Fulfilled (JObj o) ->
  exists before line after,
    split 10 (stdout_of evs) = before ++ line :: after
    /\ forallb (fun l => negb (json_shaped l)) before = true
    /\ json_shaped line = true
    /\ parse (trim line) = inl (JObj o).
Proof.
  intros Hd R.
  destruct (existsb json_shaped (split 10 (stdout_of evs))) eqn:E.
  - destruct (first_match _ _ E) as (before & line & after & Hs & Hb & Hl).
    exists before, line, after. repeat split; try assumption.
    destruct (closed_on_json_line scriptArgs evs before after line Hd Hs Hb Hl)
      as [_ R'].
    rewrite R in R'. destruct (parse (trim line)); [|discriminate].
    now inversion R'.
  - exfalso. pose proof (proj1 (no_match _ _) E) as N.
    rewrite (run_closed _ _ _ Hd) in R. unfold on_close in R.
    cbn [is_zero dataString] in R. rewrite (text_to_parse_none _ N) in R.
    destruct (parse (trim (stdout_of evs))) as [v|e] eqn:P; [|discriminate].
    cbn in R. inversion R; subst v.
    destruct (parse_obj_brace _ _ P) as [r T].
    apply trim_brace_line in T. rewrite E in T. discriminate.
Qed.

(** X3.  A worker that ends its lines with a carriage return and a line
    feed is treated like one that ends them with a line feed: when some
    line starts, once trimmed, with an opening brace, the two outputs settle
    the promise in the same way. *)
Theorem crlf_line_endings (evs evs' : list event) (lines : list jsstring) :
  forallb is_data evs = true -> forallb is_data evs' = true ->
  forallb is_line lines = true ->
  existsb json_shaped lines = true ->
  stdout_of evs = join [10] lines ->
  stdout_of evs' = join [13; 10] lines ->
  result (runPythonScript scriptArgs (evs' ++ [Close (Some 0%Z)]))
  = result (runPythonScript scriptArgs (evs ++ [Close (Some 0%Z)])).
Proof.
  intros Hd Hd' Hl Hj E E'.
  assert (Hn : lines <> []) by (intros ->; discriminate).
  assert (T : text_to_parse (stdout_of evs') = text_to_parse (stdout_of evs)).
  { unfold text_to_parse. rewrite E, E'.
    rewrite (find_json_line_trim (split 10 (join [13; 10] lines)) lines)
      by (apply (lines_of_join [13]); auto).
    rewrite (find_json_line_trim (split 10 (join [10] lines)) lines)
      by (apply (lines_of_join []); auto).
    pose proof (find_json_line_shaped _ Hj).
    destruct (find_json_line lines); [congruence|reflexivity]. }
  rewrite !run_closed by assumption. unfold on_close.
  cbn [is_zero dataString]. rewrite T.
  destruct (parse _); reflexivity.
Qed.

(** X4.  A worker that exits with code 0 and has written nothing to stdout,
    or white space only, is rejected, with the parser's message for an empty
    text. *)
Theorem blank_output_rejects (evs : list event) :
  forallb is_data evs = true ->
  forallb is_trim_space (stdout_of evs) = true ->
  result (runPythonScript scriptArgs (evs ++ [Close (Some 0%Z)]))
  = Rejected (mkError (js "Failed to parse Python output: Unexpected end of JSON input")).
Proof.
  intros Hd Hb. rewrite (run_closed _ _ _ Hd). unfold on_close.
  cbn [is_zero dataString]. unfold text_to_parse.
  rewrite find_json_line_blank by now apply split_blank.
  rewrite trim_blank by exact Hb. reflexivity.
Qed.

(** X5.  The message of a rejection tells its cause, and one cause only.
    Whatever the worker wrote, the message starts with "Failed to start
    Python process: " when the first event that is not stream data is
    [error], with "Python script failed with code " when it is [close] with
    a code other than 0, and with "Failed to parse Python output: " when it
    is [close] with code 0; and it starts with none of the other two. *)
Theorem rejection_tells_cause (pre post : list event) (t : event) (e : JsError) :
  forallb is_data pre = true -> is_terminal t = true ->
  result (runPythonScript scriptArgs (pre ++ t :: post)) = Rejected e ->
  causes_of (message e)
  = [match t with
     | Close code => if is_zero code then UnparsableOutput else NonZeroExit
     | _ => SpawnFailure
     end].
Proof.
  intros Hp Ht R. rewrite (run_first_terminal _ _ _ Hp Ht) in R.
  destruct t as [c|c|code|msg]; try discriminate Ht; cbn [handle] in R.
  - unfold on_close in R. destruct (is_zero code).
    + destruct (parse _); cbn in R; [discriminate|].
      injection R as <-. reflexivity.
    + cbn in R. injection R as <-. reflexivity.
  - cbn in R. injection R as <-. reflexivity.
Qed.

End BridgeLaws.

Lemma outcome_depends_on_streams_witness :
  let evs := [StdoutData (js "{"); StderrData (js "warning"); StdoutData (js "}")] in
  let st := runPythonScript args (evs ++ [Close (Some 0%Z)]) in
  let st' := runPythonScript args ([StdoutData (js "{}")] ++ [Close (Some 0%Z)]) in
  result st = result st' /\ console st = console st'.
Proof.
  exact (outcome_depends_on_streams args
           [StdoutData (js "{"); StderrData (js "warning"); StdoutData (js "}")]
           [StdoutData (js "{}")] (Some 0%Z) eq_refl eq_refl eq_refl).
Defined.

Lemma object_comes_from_one_line_witness :
  exists before line after,
    split 10 (stdout_of [StdoutData (unlines [js "Loading data..."; js "  " ++ ok_line])])
    = before ++ line :: after
    /\ forallb (fun l => negb (json_shaped l)) before = true
    /\ json_shaped line = true
    /\ parse (trim line) = inl (JObj [(js "success", JBool true)]).
Proof.
  exact (object_comes_from_one_line args
           [StdoutData (unlines [js "Loading data..."; js "  " ++ ok_line])]
           [(js "success", JBool true)] eq_refl eq_refl).
Defined.

Lemma crlf_line_endings_witness :
  result (runPythonScript args
            ([StdoutData (join [13; 10] report_lines)] ++ [Close (Some 0%Z)]))
  = result (runPythonScript args
              ([StdoutData (join [10] report_lines)] ++ [Close (Some 0%Z)])).
Proof.
  exact (crlf_line_endings args
           [StdoutData (join [10] report_lines)]
           [StdoutData (join [13; 10] report_lines)] report_lines
           eq_refl eq_refl eq_refl eq_refl eq_refl eq_refl).
Defined.

Lemma blank_output_rejects_witness :
  result (runPythonScript args
            ([StdoutData [32; 13; 10]; StdoutData [9]] ++ [Close (Some 0%Z)]))
  = Rejected (mkError (js "Failed to parse Python output: Unexpected end of JSON input")).
Proof.
  exact (blank_output_rejects args [StdoutData [32; 13; 10]; StdoutData [9]]
           eq_refl eq_refl).
Defined.

Lemma rejection_tells_cause_witness :
  causes_of (js "Python script failed with code 1: Traceback") = [NonZeroExit].
Proof.
  exact (rejection_tells_cause args [StderrData (js "Traceback")] []
           (Close (Some 1%Z))
           (mkError (js "Python script failed with code 1: Traceback"))
           eq_refl eq_refl eq_refl).
Defined.

(** ** White space around the result line *)

Lemma trim_padding (pad pad' s : jsstring) :
  forallb is_trim_space pad = true -> forallb is_trim_space pad' = true ->
  trim (pad ++ s ++ pad') = trim s.
Proof.
  intros H H'.
  assert (L : forall x, trim (pad ++ x) = trim x).
  { induction pad as [|c pad IH]; intros x; [reflexivity|].
    cbn [forallb] in H. apply andb_true_iff in H as [H1 H2].
    cbn [app]. rewrite trim_space_cons by exact H1. now apply IH. }
  rewrite L. clear L H.
  induction pad' as [|c pad' IH] using rev_ind; [now rewrite app_nil_r|].
  rewrite forallb_app in H'. apply andb_true_iff in H' as [H1 H2].
  cbn in H2. rewrite andb_true_r in H2.
  rewrite app_assoc, trim_snoc_space by exact H2. now apply IH.
Qed.

Section Padding.

Variable scriptArgs : list jsstring.

(** X6.  The result line is cut out with [trim], which removes more than
    the white space of JSON: with exit code 0, a JSON object with any white
    space of ECMAScript around it on its line - a byte order mark, a
    no-break space, a carriage return - resolves the promise, provided no
    line before it starts, once trimmed, with an opening brace. *)
Theorem padded_line_resolves (evs : list event) (before after : list jsstring)
        (pad line pad' : jsstring) (o : list (jsstring * value)) :
  forallb is_data evs = true ->
  split 10 (stdout_of evs) = before ++ (pad ++ line ++ pad') :: after ->
  forallb (fun l => negb (json_shaped l)) before = true ->
  forallb is_trim_space pad = true -> forallb is_trim_space pad' = true ->
  parse line = inl (JObj o) ->
  result (runPythonScript scriptArgs (evs ++ [Close (Some 0%Z)]))
  = Fulfilled (JObj o).
Proof.
  intros Hd Hs Hb Hp Hp' P. destruct (parse_obj_trim _ _ P) as [Hl Ht].
  assert (T := trim_padding pad pad' line Hp Hp').
  assert (Hl' : json_shaped (pad ++ line ++ pad') = true).
  { unfold json_shaped in *. now rewrite T. }
  destruct (closed_on_json_line scriptArgs evs before after _ Hd Hs Hb Hl')
    as [_ R].
  now rewrite T, Ht in R.
Qed.

End Padding.

Lemma padded_line_resolves_witness :
  result (runPythonScript args
            ([StdoutData ([65279] ++ ok_line ++ [160; 13]); StdoutData [10];
              StdoutData (js "Done.")] ++ [Close (Some 0%Z)]))
  = Fulfilled (JObj [(js "success", JBool true)]).
Proof.
  exact (padded_line_resolves args
           [StdoutData ([65279] ++ ok_line ++ [160; 13]); StdoutData [10];
            StdoutData (js "Done.")]
           [] [js "Done."] [65279] ok_line [160; 13] _
           eq_refl eq_refl eq_refl eq_refl eq_refl eq_refl).
Defined.

(** [JSON.parse] on its own takes neither mark. *)
Example parse_rejects_the_marks :
  (exists e, parse ([65279] ++ ok_line) = inr e)
  /\ (exists e, parse (ok_line ++ [160]) = inr e).
Proof. split; eexists; reflexivity. Qed.

(** ** Decoding the buffers *)

Ltac divlia := zify; Z.to_euclidean_division_equations; lia.

Ltac decide_leb :=
  repeat match goal with
         | |- context [?a <=? ?b] =>
             destruct (N.leb_spec a b); try (exfalso; lia); cbn [andb]
         | |- context [?a =? ?b] =>
             destruct (N.eqb_spec a b); try (exfalso; lia)
         | |- context [?a <? ?b] =>
             destruct (N.ltb_spec a b); try (exfalso; lia); cbn [andb orb]
         end.

(** *** The bit operations of the decoder as arithmetic *)

Lemma lor_shift6 (cp x : N) :
  x < 64 -> N.lor (N.shiftl cp 6) x = cp * 64 + x.
Proof.
  intros H.
  assert (L : N.land (N.shiftl cp 6) x = 0).
  { apply N.bits_inj. intros i. rewrite N.land_spec, N.bits_0.
    destruct (N.ltb_spec i 6) as [Hi|Hi].
    - now rewrite N.shiftl_spec_low.
    - replace (N.testbit x i) with false; [apply andb_false_r|].
      symmetry. destruct (N.eq_dec x 0) as [->|Hx]; [apply N.bits_0|].
      apply N.bits_above_log2.
      apply N.lt_le_trans with 6; [|exact Hi].
      apply N.log2_lt_pow2; [lia|exact H]. }
  rewrite <- N.lxor_lor by exact L.
  rewrite <- N.add_nocarry_lxor by exact L.
  now rewrite N.shiftl_mul_pow2.
Qed.

Lemma continue6 (cp b : N) :
  128 <= b -> b <= 191 ->
  N.lor (N.shiftl cp 6) (N.land b 63) = cp * 64 + (b - 128).
Proof.
  intros H1 H2. change 63 with (N.ones 6). rewrite N.land_ones.
  rewrite lor_shift6 by (apply N.mod_lt; discriminate).
  change (2 ^ 6) with 64. divlia.
Qed.

Lemma land_sub (b base : N) (n : N) :
  base <= b -> b < base + 2 ^ n -> base mod 2 ^ n = 0 ->
  N.land b (N.ones n) = b - base.
Proof.
  intros H1 H2 H3. rewrite N.land_ones.
  replace b with (b - base + base) at 1 by lia.
  rewrite <- N.Div0.add_mod_idemp_r, H3, N.add_0_r.
  apply N.mod_small. lia.
Qed.

(** *** One step of the decoder *)

Lemma decode_idle (b : N) (r : buffer) :
  decode_from Idle (b :: r) = fst (lead b) ++ decode_from (snd (lead b)) r.
Proof. cbn [decode_from]. now destruct (lead b). Qed.

Lemma lead_continuation (b : N) :
  continuation b = true -> lead b = ([65533], Idle).
Proof.
  unfold continuation, lead. intros H.
  apply andb_true_iff in H as [H1 H2].
  apply N.leb_le in H1, H2. decide_leb. reflexivity.
Qed.

Lemma lead2 (b : N) :
  194 <= b -> b <= 223 -> lead b = ([], Inside (b - 192) 0 128 191).
Proof.
  intros H1 H2. unfold lead. decide_leb.
  change 31 with (N.ones 5). now rewrite (land_sub b 192 5) by (cbn; lia).
Qed.

Lemma lead3 (b : N) :
  224 <= b -> b <= 239 ->
  lead b = ([], Inside (b - 224) 1 (if b =? 224 then 160 else 128)
                       (if b =? 237 then 159 else 191)).
Proof.
  intros H1 H2. unfold lead.
  destruct (N.leb_spec b 127); [exfalso; lia|].
  destruct (N.leb_spec 194 b); [|exfalso; lia].
  destruct (N.leb_spec b 223); [exfalso; lia|]. cbn [andb].
  destruct (N.leb_spec 224 b); [|exfalso; lia].
  destruct (N.leb_spec b 239); [|exfalso; lia]. cbn [andb].
  change 15 with (N.ones 4). now rewrite (land_sub b 224 4) by (cbn; lia).
Qed.

Lemma lead4 (b : N) :
  240 <= b -> b <= 244 ->
  lead b = ([], Inside (b - 240) 2 (if b =? 240 then 144 else 128)
                       (if b =? 244 then 143 else 191)).
Proof.
  intros H1 H2. unfold lead.
  destruct (N.leb_spec b 127); [exfalso; lia|].
  destruct (N.leb_spec 194 b); [|exfalso; lia].
  destruct (N.leb_spec b 223); [exfalso; lia|]. cbn [andb].
  destruct (N.leb_spec 224 b); [|exfalso; lia].
  destruct (N.leb_spec b 239); [exfalso; lia|]. cbn [andb].
  destruct (N.leb_spec 240 b); [|exfalso; lia].
  destruct (N.leb_spec b 244); [|exfalso; lia]. cbn [andb].
  change 7 with (N.ones 3). now rewrite (land_sub b 240 3) by (cbn; lia).
Qed.

Lemma inside_step (cp : N) (more : nat) (lower upper b : N) (r : buffer) :
  lower <= b -> b <= upper -> 128 <= b -> b <= 191 ->
  decode_from (Inside cp more lower upper) (b :: r)
  = match more with
    | O => utf16 (cp * 64 + (b - 128)) ++ decode_from Idle r
    | S more' => decode_from (Inside (cp * 64 + (b - 128)) more' 128 191) r
    end.
Proof.
  intros H1 H2 H3 H4. cbn [decode_from].
  destruct (N.leb_spec lower b); [|exfalso; lia].
  destruct (N.leb_spec b upper); [|exfalso; lia]. cbn [andb].
  now rewrite continue6.
Qed.

Lemma decode_continuations (bs rest : buffer) :
  forallb continuation bs = true ->
  decode_from Idle (bs ++ rest)
  = repeat 65533 (List.length bs) ++ decode_from Idle rest.
Proof.
  induction bs as [|b bs IH]; intros H; [reflexivity|].
  cbn [forallb] in H. apply andb_true_iff in H as [H1 H2].
  cbn [app List.length repeat].
  rewrite decode_idle, (lead_continuation b H1). cbn [fst snd app].
  now rewrite IH.
Qed.

Lemma continuation_byte (x : N) : x < 64 -> continuation (128 + x) = true.
Proof. intros H. unfold continuation. decide_leb. reflexivity. Qed.

(** *** The bytes of a code point *)

Lemma encode_cases (cp : N) :
  scalar cp = true ->
  (cp < 128 /\ encode cp = [cp])
  \/ (exists q x, encode cp = [192 + q; 128 + x]
                  /\ 2 <= q /\ q < 32 /\ x < 64 /\ cp = q * 64 + x)
  \/ (exists q x y, encode cp = [224 + q; 128 + x; 128 + y]
                    /\ q < 16 /\ x < 64 /\ y < 64
                    /\ (q = 0 -> 32 <= x) /\ (q = 13 -> x < 32)
                    /\ cp = (q * 64 + x) * 64 + y)
  \/ (exists q x y z, encode cp = [240 + q; 128 + x; 128 + y; 128 + z]
                      /\ q <= 4 /\ x < 64 /\ y < 64 /\ z < 64
                      /\ (q = 0 -> 16 <= x) /\ (q = 4 -> x < 16)
                      /\ cp = ((q * 64 + x) * 64 + y) * 64 + z).
Proof.
  unfold scalar, encode. intros S.
  destruct (N.ltb_spec cp 128); [left; auto|right].
  destruct (N.ltb_spec cp 2048).
  { left. exists (cp / 64), (cp mod 64). split; [reflexivity|]. divlia. }
  right. destruct (N.ltb_spec cp 65536).
  { left. exists (cp / 4096), (cp / 64 mod 64), (cp mod 64).
    split; [reflexivity|].
    assert (cp < 55296 \/ 57344 <= cp).
    { destruct (N.ltb_spec cp 55296); [auto|]. cbn [orb] in S.
      apply andb_true_iff in S as [S _]. apply N.leb_le in S. auto. }
    divlia. }
  right. exists (cp / 262144), (cp / 4096 mod 64), (cp / 64 mod 64), (cp mod 64).
  split; [reflexivity|].
  assert (cp < 1114112).
  { destruct (N.ltb_spec cp 55296); [lia|]. cbn [orb] in S.
    apply andb_true_iff in S as [_ S]. now apply N.ltb_lt in S. }
  divlia.
Qed.

Lemma decode_two (q x : N) (r : buffer) :
  2 <= q -> q < 32 -> x < 64 ->
  decode_from Idle (192 + q :: 128 + x :: r)
  = utf16 (q * 64 + x) ++ decode_from Idle r.
Proof.
  intros. rewrite decode_idle, lead2 by lia. cbn [fst snd app].
  rewrite inside_step by lia. f_equal; f_equal; lia.
Qed.

Lemma decode_three (q x y : N) (r : buffer) :
  q < 16 -> x < 64 -> y < 64 -> (q = 0 -> 32 <= x) -> (q = 13 -> x < 32) ->
  decode_from Idle (224 + q :: 128 + x :: 128 + y :: r)
  = utf16 ((q * 64 + x) * 64 + y) ++ decode_from Idle r.
Proof.
  intros. rewrite decode_idle, lead3 by lia. cbn [fst snd app].
  rewrite inside_step; [|decide_leb; lia..].
  rewrite inside_step by lia. f_equal; f_equal; lia.
Qed.

Lemma decode_four (q x y z : N) (r : buffer) :
  q <= 4 -> x < 64 -> y < 64 -> z < 64 -> (q = 0 -> 16 <= x) -> (q = 4 -> x < 16) ->
  decode_from Idle (240 + q :: 128 + x :: 128 + y :: 128 + z :: r)
  = utf16 (((q * 64 + x) * 64 + y) * 64 + z) ++ decode_from Idle r.
Proof.
  intros. rewrite decode_idle, lead4 by lia. cbn [fst snd app].
  rewrite inside_step; [|decide_leb; lia..].
  rewrite inside_step by lia.
  rewrite inside_step by lia. f_equal; f_equal; lia.
Qed.

(** A whole character is decoded to its code point, whatever follows. *)
Lemma decode_encode (cp : N) (rest : buffer) :
  scalar cp = true ->
  decode_from Idle (encode cp ++ rest) = utf16 cp ++ decode_from Idle rest.
Proof.
  intros S.
  destruct (encode_cases cp S)
    as [[H ->]|[(q & x & -> & ? & ? & ? & ->)
       |[(q & x & y & -> & ? & ? & ? & ? & ? & ->)
        |(q & x & y & z & -> & ? & ? & ? & ? & ? & ? & ->)]]].
  - cbn [app decode_from]. unfold lead, utf16.
    destruct (N.leb_spec cp 127); [|exfalso; lia].
    destruct (N.ltb_spec cp 65536); [|exfalso; lia]. reflexivity.
  - now apply decode_two.
  - now apply decode_three.
  - now apply decode_four.
Qed.

Lemma decode_text (cps : list N) (rest : buffer) :
  forallb scalar cps = true ->
  decode_from Idle (flat_map encode cps ++ rest)
  = flat_map utf16 cps ++ decode_from Idle rest.
Proof.
  induction cps as [|cp cps IH]; intros H; [reflexivity|].
  cbn [forallb] in H. apply andb_true_iff in H as [H1 H2].
  cbn [flat_map]. rewrite <- !app_assoc, decode_encode by exact H1.
  now rewrite IH.
Qed.

Lemma toString_text (cps : list N) :
  forallb scalar cps = true -> toString (flat_map encode cps) = flat_map utf16 cps.
Proof.
  intros H. unfold toString.
  rewrite <- (app_nil_r (flat_map encode cps)), decode_text by exact H.
  apply app_nil_r.
Qed.

(** The two parts of a character that is cut: the first is decoded to one
    U+FFFD, the second is made of continuation bytes. *)
Lemma decode_part (cp : N) (a b : buffer) :
  scalar cp = true -> encode cp = a ++ b -> a <> [] -> b <> [] ->
  decode_from Idle a = [65533] /\ forallb continuation b = true.
Proof.
  intros S E Ha Hb.
  destruct a as [|a1 a]; [contradiction|].
  destruct b as [|b1 b]; [contradiction|]. clear Ha Hb.
  destruct (encode_cases cp S)
    as [[H E1]|[(q & x & E1 & ? & ? & ? & _)
       |[(q & x & y & E1 & ? & ? & ? & ? & ? & _)
        |(q & x & y & z & E1 & ? & ? & ? & ? & ? & ? & _)]]];
    rewrite E1 in E; clear E1;
    repeat match type of E with
           | context [?u + ?v] => let n := fresh "n" in remember (u + v) as n
           end.
  - destruct a; discriminate.
  - destruct a as [|a2 a]; [|destruct a; discriminate].
    destruct b; [|discriminate]. cbn [app] in E. injection E as <- <-.
    split.
    + now rewrite decode_idle, lead2 by lia.
    + cbn [forallb]. subst. now rewrite continuation_byte.
  - destruct a as [|a2 a].
    + destruct b as [|b2 b]; [discriminate|]. destruct b; [|discriminate].
      cbn [app] in E. injection E as <- <- <-. split.
      * now rewrite decode_idle, lead3 by lia.
      * cbn [forallb]. subst; now rewrite !continuation_byte.
    + destruct a; [|destruct a; discriminate].
      destruct b; [|discriminate]. cbn [app] in E. injection E as <- <- <-.
      split.
      * rewrite decode_idle, lead3 by lia. cbn [fst snd app].
        rewrite inside_step; [reflexivity|decide_leb; lia..].
      * cbn [forallb]. subst; now rewrite !continuation_byte.
  - destruct a as [|a2 a].
    + destruct b as [|b2 b]; [discriminate|].
      destruct b as [|b3 b]; [discriminate|]. destruct b; [|discriminate].
      cbn [app] in E. injection E as <- <- <- <-. split.
      * now rewrite decode_idle, lead4 by lia.
      * cbn [forallb]. subst; now rewrite !continuation_byte.
    + destruct a as [|a3 a].
      * destruct b as [|b2 b]; [discriminate|]. destruct b; [|discriminate].
        cbn [app] in E. injection E as <- <- <- <-. split.
        -- rewrite decode_idle, lead4 by lia. cbn [fst snd app].
           rewrite inside_step; [reflexivity|decide_leb; lia..].
        -- cbn [forallb]. subst; now rewrite !continuation_byte.
      * destruct a; [|destruct a; discriminate].
        destruct b; [|discriminate]. cbn [app] in E.
        injection E as <- <- <- <-. split.
        -- rewrite decode_idle, lead4 by lia. cbn [fst snd app].
           rewrite inside_step; [|decide_leb; lia..].
           rewrite inside_step by lia. reflexivity.
        -- cbn [forallb]. subst; now rewrite !continuation_byte.
Qed.

Lemma stdout_received (chunks : list buffer) :
  stdout_of (received chunks) = flat_map toString chunks.
Proof.
  induction chunks as [|c chunks IH]; [reflexivity|].
  cbn [received map stdout_of flat_map]. unfold received in IH. now rewrite IH.
Qed.

Lemma received_data (chunks : list buffer) :
  forallb is_data (received chunks) = true.
Proof. induction chunks; [reflexivity|assumption]. Qed.

Section Decoding.

Variable scriptArgs : list jsstring.

(** X7.  Decoding undoes the worker's encoding, chunk by chunk: when every
    buffer the stdout stream delivers holds whole characters, [dataString]
    is the text the worker wrote, in UTF-16, however the text was cut into
    buffers. *)
Theorem whole_characters_survive (texts : list (list N)) :
  forallb (forallb scalar) texts = true ->
  dataString (runPythonScript scriptArgs
                (received (map (flat_map encode) texts)))
  = flat_map utf16 (List.concat texts).
Proof.
  intros H. rewrite run_data by apply received_data. cbn [dataString].
  rewrite stdout_received.
  induction texts as [|t texts IH]; [reflexivity|].
  cbn [forallb] in H. apply andb_true_iff in H as [H1 H2].
  cbn [map flat_map List.concat]. rewrite flat_map_app, toString_text by exact H1.
  now rewrite IH.
Qed.

(** X8.  A character whose bytes arrive in two buffers is lost: each buffer
    is decoded on its own, so [dataString] holds U+FFFD once for the bytes
    at the end of the first buffer and once for every byte at the start of
    the second, where the worker wrote the character. *)
Theorem split_character_is_replaced (before after : list N) (cp : N)
        (a b : buffer) :
  forallb scalar before = true -> scalar cp = true ->
  forallb scalar after = true ->
  encode cp = a ++ b -> a <> [] -> b <> [] ->
  dataString (runPythonScript scriptArgs
                (received [flat_map encode before ++ a;
                           b ++ flat_map encode after]))
  = flat_map utf16 before ++ repeat 65533 (1 + List.length b)
    ++ flat_map utf16 after.
Proof.
  intros Hb Hc Ha E Na Nb.
  destruct (decode_part cp a b Hc E Na Nb) as [Da Db].
  rewrite run_data by apply received_data. cbn [dataString].
  rewrite stdout_received. cbn [flat_map]. rewrite app_nil_r.
  unfold toString. rewrite decode_text by exact Hb.
  rewrite decode_continuations by exact Db.
  rewrite Da. fold (toString (flat_map encode after)).
  rewrite toString_text by exact Ha.
  cbn [repeat Nat.add app]. now rewrite <- app_assoc.
Qed.

End Decoding.

Lemma whole_characters_survive_witness :
  dataString (runPythonScript args
                (received (map (flat_map encode)
                               [firstn 13 price_line; skipn 13 price_line])))
  = price_line.
Proof.
  exact (whole_characters_survive args
           [firstn 13 price_line; skipn 13 price_line] eq_refl).
Defined.

Lemma split_character_is_replaced_witness :
  dataString (runPythonScript args
                (received [flat_map encode (firstn 12 price_line) ++ [195];
                           [171] ++ flat_map encode (skipn 13 price_line)]))
  = firstn 12 price_line ++ [65533; 65533] ++ skipn 13 price_line.
Proof.
  refine (split_character_is_replaced args (firstn 12 price_line)
            (skipn 13 price_line) 235 [195] [171]
            eq_refl eq_refl eq_refl eq_refl _ _); discriminate.
Defined.

(** The cut goes unnoticed: U+FFFD is a character like any other to
    [JSON.parse], and the promise is resolved with a name that is not the
    one the worker wrote. *)
Example split_character_goes_unnoticed :
  result (runPythonScript args
            (received [flat_map encode (firstn 12 price_line) ++ [195];
                       [171] ++ flat_map encode (skipn 13 price_line)]
             ++ [Close (Some 0%Z)]))
  = Fulfilled (JObj [(js "name", JStr (js "Zo" ++ [65533; 65533]));
                     (js "price", JStr (js "5 " ++ [8364]))]).
Proof. reflexivity. Qed.

(** ** The routes that call the Bridge *)

(** X9.  The two admin routes hand the worker's object on unchanged.  When
    the worker exits with code 0 and the first line of stdout that starts,
    once trimmed, with an opening brace is a JSON object whose numbers read
    back from their printed form, the text sent to the client is JSON text
    for that same object. *)
Theorem report_reaches_the_client (evs : list event)
        (before after : list jsstring) (line : jsstring)
        (o : list (jsstring * value)) :
  forallb is_data evs = true ->
  split 10 (stdout_of evs) = before ++ line :: after ->
  forallb (fun l => negb (json_shaped l)) before = true ->
  parse line = inl (JObj o) ->
  numbers_ok (JObj o) ->
  exists text,
    sent (generate_report (evs ++ [Close (Some 0%Z)])) = Some text
    /\ sent (send_emails (evs ++ [Close (Some 0%Z)])) = Some text
    /\ parse text = inl (JObj o).
Proof.
  intros Hd Hs Hb Hp Hn. destruct (parse_obj_trim _ _ Hp) as [Hl Ht].
  assert (R : forall scriptArgs,
             result (runPythonScript scriptArgs (evs ++ [Close (Some 0%Z)]))
             = Fulfilled (JObj o)).
  { intros scriptArgs.
    destruct (closed_on_json_line scriptArgs evs before after line Hd Hs Hb Hl)
      as [_ R].
    now rewrite Ht in R. }
  unfold generate_report, send_emails. rewrite !R.
  cbn [bridge_route sent stringify]. eexists. split; [reflexivity|].
  split; [reflexivity|].
  apply parse_serialize. split; [|exact Hn]. now apply (parse_built line).
Qed.

Lemma report_reaches_the_client_witness :
  exists text,
    sent (generate_report ([StdoutData report_output] ++ [Close (Some 0%Z)]))
    = Some text
    /\ sent (send_emails ([StdoutData report_output] ++ [Close (Some 0%Z)]))
       = Some text
    /\ parse text
       = inl (JObj [(js "success", JBool true);
                    (js "project_data",
                     JObj [(js "overall_completes", JNum (Num.of_decimal false 45 0));
                           (js "total_quota", JNum (Num.of_decimal false 100 0));
                           (js "completion_percentage",
                            JNum (Num.of_decimal false 45 (-2)))]);
                    (js "analysis", JStr (js "On track."))]).
Proof.
  refine (report_reaches_the_client [StdoutData report_output]
            [js "Loading data..."] [js "Done."] report_line _
            eq_refl eq_refl eq_refl eq_refl _).
  vm_compute. repeat split.
Defined.

(** ** The admin routes always answer in JSON *)

Lemma first_terminal (evs : list event) :
  existsb is_terminal evs = true ->
  exists pre t post,
    evs = pre ++ t :: post /\ forallb is_data pre = true /\ is_terminal t = true.
Proof.
  induction evs as [|ev evs IH]; cbn [existsb]; [discriminate|].
  destruct (is_terminal ev) eqn:E; intros H.
  - exists [], ev, evs. auto.
  - destruct (IH H) as (pre & t & post & -> & Hp & Ht).
    exists (ev :: pre), t, post. cbn [forallb].
    unfold is_terminal in E. apply negb_false_iff in E. rewrite E. auto.
Qed.

(** A value the promise is resolved with has been parsed from a text. *)
Lemma fulfilled_parsed (scriptArgs : list jsstring) (evs : list event) (v : value) :
  result (runPythonScript scriptArgs evs) = Fulfilled v ->
  exists text, parse text = inl v.
Proof.
  intros R.
  assert (T : existsb is_terminal evs = true).
  { rewrite <- (settled_iff_terminal scriptArgs), R. reflexivity. }
  destruct (first_terminal evs T) as (pre & t & post & -> & Hp & Ht).
  rewrite (run_first_terminal _ _ _ _ Hp Ht) in R.
  destruct t as [c|c|code|msg]; try discriminate Ht; cbn [handle] in R.
  - unfold on_close in R. destruct (is_zero code); [|discriminate].
    destruct (parse (text_to_parse _)) as [w|] eqn:P; [|discriminate].
    cbn in R. injection R as ->. eauto.
  - discriminate.
Qed.

Lemma route_answers (scriptArgs : list jsstring) (evs : list event) :
  if existsb is_terminal evs
  then exists body text,
         bridge_route (result (runPythonScript scriptArgs evs)) = Some body
         /\ sent (Some body) = Some text
  else bridge_route (result (runPythonScript scriptArgs evs)) = None.
Proof.
  rewrite <- (settled_iff_terminal scriptArgs).
  destruct (result _) as [|v|e] eqn:R; cbn [settled bridge_route];
    [reflexivity| |].
  - destruct (fulfilled_parsed _ _ _ R) as [t P]. apply parse_built in P.
    exists v, (serialize v). split; [reflexivity|].
    destruct v; [destruct P|reflexivity..].
  - eexists. eexists. split; reflexivity.
Qed.

(** X10.  The two admin routes answer exactly when the worker has closed or
    has failed to start, and then always with a JSON text: the value the
    promise was resolved with is never [undefined], for which [res.json]
    would have no text to send. *)
Theorem admin_route_always_answers (evs : list event) :
  (if existsb is_terminal evs
   then exists body text,
          generate_report evs = Some body /\ sent (Some body) = Some text
   else generate_report evs = None)
  /\ (if existsb is_terminal evs
      then exists body text,
             send_emails evs = Some body /\ sent (Some body) = Some text
      else send_emails evs = None).
Proof.
  split; [apply (route_answers [js "generate_report"])
         |apply (route_answers [js "send_emails"])].
Qed.

(** ** Start-up *)

(** X11.  Start-up waits for the [init_db] worker and for nothing else about
    it: the server starts to listen exactly when the worker has closed or
    has failed to start, whatever it wrote and however it ended, and
    [process.exit(1)] is never reached through the worker; while the worker
    neither closes nor fails, the server does not listen. *)
Theorem startup_survives_the_worker (env : option jsstring) (evs : list event) :
  startServer env evs
  = if existsb is_terminal evs then Listening (PORT env) else Waiting.
Proof.
  unfold startServer, initializeDatabase.
  rewrite <- (settled_iff_terminal [js "init_db"]).
  destruct (result _); reflexivity.
Qed.

(** ** More on the chat handler *)

Lemma mentions_lowered (m : jsstring) (word : string) :
  Chat.mentions (JStr m) word = inl (includes (toLowerCase m) (js word)).
Proof. reflexivity. Qed.

Lemma either_mentions (m : jsstring) (a b : string) :
  Chat.either (Chat.mentions (JStr m) a) (Chat.mentions (JStr m) b)
  = inl (includes (toLowerCase m) (js a) || includes (toLowerCase m) (js b)).
Proof.
  unfold Chat.either. rewrite !mentions_lowered. cbn [bind].
  now destruct (includes (toLowerCase m) (js a)).
Qed.

Lemma reply_by_topic (m : jsstring) (result data : value) :
  Chat.reply (JStr m) result data
  = Chat.reply (JStr (keyword (topic_of m))) result data.
Proof.
  unfold Chat.reply. rewrite !either_mentions, !mentions_lowered.
  unfold topic_of.
  destruct (includes (toLowerCase m) (js "status")
            || includes (toLowerCase m) (js "current")); [reflexivity|].
  destruct (includes (toLowerCase m) (js "report")
            || includes (toLowerCase m) (js "latest")); [reflexivity|].
  destruct (includes (toLowerCase m) (js "progress")); reflexivity.
Qed.

Lemma reply_needs_text (msg result data : value) :
  is_text msg = false -> exists e, Chat.reply msg result data = inr e.
Proof.
  intros H. unfold Chat.reply, Chat.either, Chat.mentions, Chat.lowered.
  destruct msg; try discriminate; cbn [bind]; eauto.
Qed.



(** X13.  The answer depends on the message only through the first branch it
    takes: a message that mentions "status" or "current", in any case of the
    letters, is answered like the message "status", whatever else it
    mentions; failing that, one that mentions "report" or "latest" like
    "report"; failing that, one that mentions "progress" like "progress";
    and any other message like the empty message.  The message itself is
    never part of the answer. *)
Theorem chat_keyword_priority (body : value) (m : jsstring) (outcome : promise) :
  Get body (js "message") = inl (JStr m) ->
  Chat.chat body outcome
  = Chat.chat (JObj [(js "message", JStr (keyword (topic_of m)))]) outcome.
Proof.
  intros H. unfold Chat.chat. rewrite H.
  change (Get (JObj [(js "message", JStr (keyword (topic_of m)))]) (js "message"))
    with (@inl value JsError (JStr (keyword (topic_of m)))).
  destruct outcome as [|result|e]; try reflexivity.
  unfold Chat.answer.
  destruct (Get result (js "success")) as [ok|]; [|reflexivity]. cbn [bind].
  destruct (ToBoolean ok); [|reflexivity].
  destruct (Get result (js "project_data")) as [data|]; [|reflexivity].
  cbn [bind]. now rewrite reply_by_topic.
Qed.

Lemma chat_keyword_priority_witness :
  let outcome := result (runPythonScript args
                           [StdoutData report_output; Close (Some 0%Z)]) in
  Chat.chat (JObj [(js "message", JStr (js "Latest report on the STATUS?"))]) outcome
  = Chat.chat (JObj [(js "message", JStr (js "status"))]) outcome.
Proof.
  exact (chat_keyword_priority
           (JObj [(js "message", JStr (js "Latest report on the STATUS?"))])
           (js "Latest report on the STATUS?")
           (result (runPythonScript args [StdoutData report_output; Close (Some 0%Z)]))
           eq_refl).
Defined.

(** X14.  A request whose [message] is missing or is not a string never
    gets a report: once the promise has settled the answer is the apology,
    or the "having trouble" reply when the report's [success] is falsy. *)
Theorem chat_needs_a_text_message (body msg : value) (outcome : promise) :
  Get body (js "message") = inl msg -> is_text msg = false ->
  settled outcome = true ->
  Chat.chat body outcome = Some Chat.apology
  \/ Chat.chat body outcome = Some trouble.
Proof.
  intros G T H. unfold Chat.chat. rewrite G.
  destruct outcome as [|result|e]; [discriminate| |now left].
  unfold Chat.answer.
  destruct (Get result (js "success")) as [ok|]; [|now left]. cbn [bind].
  destruct (ToBoolean ok); [|now right].
  destruct (Get result (js "project_data")) as [data|]; [|now left].
  cbn [bind]. destruct (reply_needs_text msg result data T) as [e ->].
  now left.
Qed.

Lemma chat_needs_a_text_message_witness :
  let outcome := result (runPythonScript args
                           [StdoutData report_output; Close (Some 0%Z)]) in
  Chat.chat (JObj []) outcome = Some Chat.apology
  \/ Chat.chat (JObj []) outcome = Some trouble.
Proof.
  exact (chat_needs_a_text_message (JObj []) JUndefined
           (result (runPythonScript args [StdoutData report_output; Close (Some 0%Z)]))
           eq_refl eq_refl eq_refl).
Defined.

(** ** The percentage of the chat replies *)

Import Figures.

Lemma digits_of_uint (u : Decimal.uint) :
  forallb is_digit (uint_digits u) = true.
Proof. induction u; cbn [uint_digits forallb]; auto. Qed.

Lemma uint_digits_nonempty (u : Decimal.uint) :
  u <> Decimal.Nil -> uint_digits u <> [].
Proof. destruct u; intros H; [congruence|discriminate..]. Qed.

Lemma of_N_nonempty (n : N) : of_N n <> [].
Proof.
  unfold of_N. apply uint_digits_nonempty. destruct n as [|p]; [discriminate|].
  apply DecimalPos.Unsigned.to_uint_nonnil.
Qed.

(** A point before the last digit. *)
Lemma point_before_last (d : jsstring) :
  (2 <= List.length d)%nat -> forallb is_digit d = true ->
  let k := Z.of_nat (List.length d) in
  exists whole c,
    firstn (Z.to_nat (k - 1)) d ++ [46] ++ skipn (Z.to_nat (k - 1)) d
    = whole ++ [46; c]
    /\ whole <> [] /\ forallb is_digit whole = true /\ is_digit c = true.
Proof.
  intros L D k. subst k.
  destruct d as [|x d] using rev_ind; [cbn in L; lia|]. clear IHd.
  rewrite length_app in *. cbn [List.length] in *.
  replace (Z.to_nat (Z.of_nat (List.length d + 1) - 1)) with (List.length d) by lia.
  rewrite firstn_app, firstn_all, Nat.sub_diag, skipn_app, skipn_all, Nat.sub_diag.
  cbn [firstn skipn app]. rewrite app_nil_r.
  rewrite forallb_app in D. apply andb_true_iff in D as [D1 D2].
  cbn in D2. rewrite andb_true_r in D2.
  exists d, x. repeat split; try assumption.
  intros ->. cbn in L. lia.
Qed.

Lemma fixed_one_digit (m : positive) (e : Z) :
  exists whole c,
    Num.fixed_digits m e 1 = whole ++ [46; c]
    /\ whole <> [] /\ forallb is_digit whole = true /\ is_digit c = true.
Proof.
  unfold Num.fixed_digits. destruct (Num.scale10 _ _) as [a b].
  change (1 =? 0)%Z with false. cbv iota.
  set (d := of_N _).
  assert (D : forallb is_digit d = true) by apply digits_of_uint.
  assert (N : d <> []) by apply of_N_nonempty.
  destruct (Z.leb_spec (Z.of_nat (List.length d)) 1) as [K|K].
  - assert (L : List.length d = 1%nat).
    { destruct d; [congruence|]. cbn [List.length] in *. lia. }
    rewrite L. change (Num.zeros (1 + 1 - Z.of_nat 1)) with [48].
    apply point_before_last.
    + cbn [app List.length]. lia.
    + cbn [app forallb]. now rewrite D.
  - apply point_before_last; [lia|exact D].
Qed.

Lemma toFixed_one_digit (x : spec_float) :
  fixable x = true ->
  exists sign whole c,
    Num.toFixed x 1 = sign ++ whole ++ [46; c]
    /\ (sign = [] \/ sign = [45])
    /\ whole <> [] /\ forallb is_digit whole = true /\ is_digit c = true.
Proof.
  destruct x as [s|s| |s m e]; try discriminate; intros F.
  - exists [], [48], 48. cbn. repeat split; auto. discriminate.
  - cbn [Num.toFixed fixable] in *. destruct (Num.fraction m e) as [a b].
    apply negb_true_iff in F. rewrite F.
    destruct (fixed_one_digit m e) as (whole & c & -> & H).
    exists (if s then [45] else []), whole, c.
    split; [reflexivity|]. split; [destruct s; auto|exact H].
Qed.

(** X15.  The percentage of the status and progress replies always has one
    digit after the point: whenever a hundred times [completion_percentage]
    is a zero or a finite Number below 10^21, the text is a sign or none,
    one or more digits, a point and one digit. *)
Theorem percentage_has_one_decimal (v : value) (x : spec_float) :
  ToNumber v = inl x ->
  fixable (Num.mul x (Conv.of_integer 100)) = true ->
  exists sign whole c,
    Chat.percent v = inl (sign ++ whole ++ [46; c])
    /\ (sign = [] \/ sign = [45])
    /\ whole <> [] /\ forallb is_digit whole = true /\ is_digit c = true.
Proof.
  intros T F. unfold Chat.percent. rewrite T. cbn [bind].
  destruct (toFixed_one_digit _ F) as (sign & whole & c & -> & H).
  exists sign, whole, c. auto.
Qed.

Lemma percentage_has_one_decimal_witness :
  exists sign whole c,
    Chat.percent (JNum (Num.of_decimal false 45 (-2)))
    = inl (sign ++ whole ++ [46; c])
    /\ (sign = [] \/ sign = [45])
    /\ whole <> [] /\ forallb is_digit whole = true /\ is_digit c = true.
Proof.
  exact (percentage_has_one_decimal (JNum (Num.of_decimal false 45 (-2)))
           (Num.of_decimal false 45 (-2)) eq_refl eq_refl).
Defined.

(** ** More on the settings handlers *)

(** *** What the GET handler shows *)

(** X16.  The GET handler shows, under every key other than [__proto__],
    what it makes of the text of the last row with that key: the parsed
    value when the text starts with a bracket or a brace and is valid JSON,
    the text itself otherwise; a key without a row is not shown.  This holds
    for every table, also one with several rows under a key. *)
Theorem get_shows_last_row (db : list row) (key : jsstring) :
  Str.eqb key (js "__proto__") = false ->
  Get (get_settings db) (js "success") = inl (JBool true)
  /\ exists shown,
       Get (get_settings db) (js "settings") = inl (JObj shown)
       /\ get_own key shown = option_map read_back (stored key db).
Proof.
  intros Hp. split; [reflexivity|]. exists (getAll db). split; [reflexivity|].
  unfold getAll. rewrite (getAll_stored _ _ Hp).
  now destruct (stored key db).
Qed.

Lemma get_shows_last_row_witness :
  let db := [mkRow (js "tags") (js "old") (js "t1");
             mkRow (js "name") (js "{oops") (js "t2");
             mkRow (js "tags") (jsq "['a']") (js "t3")] in
  Get (get_settings db) (js "success") = inl (JBool true)
  /\ exists shown,
       Get (get_settings db) (js "settings") = inl (JObj shown)
       /\ get_own (js "tags") shown
          = option_map read_back (stored (js "tags") db).
Proof.
  exact (get_shows_last_row
           [mkRow (js "tags") (js "old") (js "t1");
            mkRow (js "name") (js "{oops") (js "t2");
            mkRow (js "tags") (jsq "['a']") (js "t3")]
           (js "tags") eq_refl).
Defined.

(** *** The text of a number *)

Lemma number_chars_all (p : N -> bool) (s : jsstring) :
  forallb p (js "0123456789+-.eInfinityNaN") = true ->
  forallb number_char s = true -> forallb p s = true.
Proof.
  intros Hp H. apply forallb_forall. intros c Hc.
  apply (proj1 (forallb_forall _ _) H), number_char_cases in Hc.
  revert c Hc. now apply forallb_forall.
Qed.

(** No character of the text of a number is a bracket or a brace. *)
Lemma plain_toString (x : spec_float) : forallb plain (Num.toString x) = true.
Proof.
  apply number_chars_all; [reflexivity|apply number_chars_toString].
Qed.

Lemma plain_text (s : jsstring) :
  forallb plain s = true -> read_back s = JStr s.
Proof.
  intros H. unfold read_back.
  destruct s as [|c s]; [reflexivity|].
  cbn [forallb] in H. apply andb_true_iff in H as [H _].
  unfold plain in H. apply andb_true_iff in H as [H1 H2].
  apply negb_true_iff in H1, H2.
  cbn [startsWith js map list_ascii_of_string N_of_ascii N_of_digits].
  cbn. rewrite H1, H2. reflexivity.
Qed.

Lemma read_back_scalar (v : value) :
  is_scalar v = true -> read_back (valueStr v) = JStr (valueStr v).
Proof.
  destruct v as [| |[|]|x|s|l|ps]; try discriminate; intros _; try reflexivity.
  apply plain_text, plain_toString.
Qed.

(** The text of a number, of a boolean and of [null] is ASCII: the table
    keeps it as it is. *)
Lemma as_utf8_scalar (v : value) :
  is_scalar v = true -> as_utf8 (valueStr v) = valueStr v.
Proof.
  destruct v as [| |[|]|x|s|l|ps]; try discriminate; intros _; try reflexivity.
  apply as_utf8_kept, kept_text_units, number_chars_units, number_chars_toString.
Qed.

(** X17.  A value that is a number, a boolean or [null] does not come back
    as what it was: written under a key other than [__proto__] that holds
    no surrogate on its own and that no other key of the request is stored
    as, it is read back as a string, the text [String(value)] ("null" for
    [null]). *)
Theorem scalars_read_back_as_text (clock : nat -> jsstring) (text : jsstring)
        (body : value) (db : list row) (es : list (jsstring * value))
        (key : jsstring) (v : value) :
  parse text = inl body ->
  Get body (js "settings") = inl (JObj es) ->
  get_own key es = Some v ->
  Str.eqb key (js "__proto__") = false ->
  as_utf8 key = key ->
  rivals key es = false ->
  is_scalar v = true ->
  get_own key (getAll (snd (put_settings clock body db)))
  = Some (JStr (valueStr v)).
Proof.
  intros Hb Hs G Hp U R K. apply parse_built in Hb.
  destruct (settings_object body es Hb Hs) as [S [O B]].
  unfold put_settings. rewrite S. cbn [bind entries snd].
  rewrite (read_after_write clock db es key v G (ordered_distinct es O) U R Hp).
  now rewrite (as_utf8_scalar v K), read_back_scalar.
Qed.

Lemma scalars_read_back_as_text_witness :
  get_own (js "report_hour") (getAll (snd (put_settings clock typed_body one_row)))
  = Some (JStr (js "9")).
Proof.
  exact (scalars_read_back_as_text clock typed_text typed_body one_row
           typed_entries (js "report_hour") (JNum (Num.of_decimal false 9 0))
           eq_refl eq_refl eq_refl eq_refl eq_refl eq_refl eq_refl).
Defined.

(** *** What a PUT leaves alone *)

Lemma stored_write_kept (clock : nat -> jsstring) (key : jsstring)
      (es : list (jsstring * value)) :
  forall i db, stored key db <> None -> stored key (write_all clock i es db) <> None.
Proof.
  induction es as [|[k x] es IH]; intros i db H; [exact H|].
  cbn [write_all]. apply IH. rewrite stored_insert. cbn [setting_key].
  destruct (Str.eqb _ key); [discriminate|exact H].
Qed.

(** X18.  A PUT merges: a key that no key of the request is stored as keeps
    the text stored under it, and the GET handler shows it as before. *)
Theorem put_keeps_other_keys (clock : nat -> jsstring) (body settings : value)
        (db : list row) (es : list (jsstring * value)) (key : jsstring) :
  settings_of body = inl settings -> entries settings = inl es ->
  names key es = false ->
  let db' := snd (put_settings clock body db) in
  stored key db' = stored key db
  /\ (Str.eqb key (js "__proto__") = false ->
      get_own key (getAll db') = get_own key (getAll db)).
Proof.
  intros S E H db'. subst db'. unfold put_settings. rewrite S. cbn [bind].
  rewrite E. cbn [snd].
  assert (W := stored_write_other clock key es H 0%nat db).
  split; [exact W|]. intros Hp. unfold getAll.
  now rewrite !(getAll_stored _ _ Hp), W.
Qed.

Lemma put_keeps_other_keys_witness :
  let db' := snd (put_settings clock settings_body one_row) in
  stored (js "smtp_host") db' = stored (js "smtp_host") one_row
  /\ (Str.eqb (js "smtp_host") (js "__proto__") = false ->
      get_own (js "smtp_host") (getAll db') = get_own (js "smtp_host") (getAll one_row)).
Proof.
  exact (put_keeps_other_keys clock settings_body (JObj settings_entries)
           one_row settings_entries (js "smtp_host") eq_refl eq_refl eq_refl).
Defined.

(** A key of the request with a surrogate on its own is stored under the
    key with U+FFFD in its place, and replaces the row of that key. *)
Example put_replaces_the_stored_key :
  let db := [mkRow [107; 65533] (js "old") (js "t1")] in
  let es := [([107; 55296], JStr (js "new"))] in
  let db' := snd (put_settings clock (JObj [(js "settings", JObj es)]) db) in
  has_own [107; 65533] es = false
  /\ stored [107; 65533] db = Some (js "old")
  /\ stored [107; 65533] db' = Some (js "new").
Proof. repeat split; reflexivity. Qed.

(** X19.  No request removes a setting: whatever the body of a PUT, a key
    that has a row before it has one after it. *)
Theorem put_never_deletes (clock : nat -> jsstring) (body : value)
        (db : list row) (key t : jsstring) :
  stored key db = Some t ->
  exists t', stored key (snd (put_settings clock body db)) = Some t'.
Proof.
  intros H.
  assert (N : stored key (snd (put_settings clock body db)) <> None).
  { unfold put_settings.
    destruct (do settings <- settings_of body; entries settings); cbn [snd].
    - apply stored_write_kept. congruence.
    - congruence. }
  destruct (stored key (snd (put_settings clock body db))); [eauto|congruence].
Qed.

Lemma put_never_deletes_witness :
  exists t',
    stored (js "smtp_host")
           (snd (put_settings clock (JObj [(js "settings", JObj [])]) one_row))
    = Some t'.
Proof.
  exact (put_never_deletes clock (JObj [(js "settings", JObj [])]) one_row
           (js "smtp_host") (js "mail.example.com") eq_refl).
Defined.

(** *** Writing twice *)

Lemma read_row_selected (r r' : row) (st : obj_state) :
  selected r = selected r' -> read_row st r = read_row st r'.
Proof.
  unfold selected, read_row. intros H. injection H as -> ->. reflexivity.
Qed.

Lemma getAll_selected (db db' : list row) :
  map selected db = map selected db' -> getAll db = getAll db'.
Proof.
  unfold getAll. generalize (@nil (jsstring * value), @None value).
  revert db'. induction db as [|r db IH]; intros [|r' db'] st H;
    try discriminate; [reflexivity|].
  cbn [map] in H.
  assert (H1 : selected r = selected r') by congruence.
  assert (H2 : map selected db = map selected db') by congruence.
  cbn [fold_left].
  rewrite (read_row_selected r r' st H1). now apply IH.
Qed.

Lemma filter_filter {A : Type} (f g : A -> bool) (l : list A) :
  filter g (filter f l) = filter (fun a => f a && g a) l.
Proof.
  induction l as [|a l IH]; [reflexivity|]. cbn [filter].
  destruct (f a); cbn [filter andb]; [destruct (g a)|]; now rewrite IH.
Qed.

Lemma filter_map_selected (f : jsstring -> bool) (db : list row) :
  map selected (filter (fun r => f (setting_key r)) db)
  = filter (fun p => f (fst p)) (map selected db).
Proof.
  induction db as [|r db IH]; [reflexivity|]. cbn [filter map selected fst].
  destruct (f (setting_key r)); cbn [map]; now rewrite IH.
Qed.

Lemma filter_true {A : Type} (f : A -> bool) (l : list A) :
  (forall a, f a = true) -> filter f l = l.
Proof.
  intros H. induction l as [|a l IH]; [reflexivity|].
  cbn [filter]. now rewrite H, IH.
Qed.

Lemma filter_written (es : list (jsstring * value)) :
  filter (fun p => negb (names (fst p) es)) (written es) = [].
Proof.
  assert (G : forall l, (forall k, names k l = true -> names k es = true) ->
                        filter (fun p => negb (names (fst p) es)) (written l) = []).
  { induction l as [|[k x] l IH]; intros H; [reflexivity|].
    cbn [written]. rewrite filter_app, IH, app_nil_r.
    - destruct (names (as_utf8 k) l); [reflexivity|]. cbn [filter fst].
      rewrite (H (as_utf8 k)); [reflexivity|].
      unfold names. cbn [existsb fst]. now rewrite eqb_refl.
    - intros k' Hk. apply H. unfold names in *. cbn [existsb].
      rewrite Hk. apply orb_true_r. }
  apply G. auto.
Qed.

(** The table after the loop of lines 133-148: the rows of the keys that
    were not written, then the rows written, in the order of the last write
    under each key. *)
Lemma write_all_selected (clock : nat -> jsstring) (es : list (jsstring * value)) :
  forall i db,
    map selected (write_all clock i es db)
    = filter (fun p => negb (names (fst p) es)) (map selected db) ++ written es.
Proof.
  induction es as [|[k x] es IH]; intros i db.
  - cbn [write_all written]. rewrite app_nil_r.
    symmetry. now apply filter_true.
  - cbn [write_all]. rewrite IH. unfold insert_or_replace.
    cbn [setting_key]. rewrite map_app.
    rewrite (filter_map_selected (fun key => negb (Str.eqb key (as_utf8 k)))).
    rewrite filter_app, filter_filter.
    cbn [map selected setting_key setting_value filter fst].
    cbn [written]. rewrite <- app_assoc. f_equal.
    + apply filter_ext. intros [key t]. cbn [fst]. unfold names.
      cbn [existsb fst]. now rewrite negb_orb, (eqb_sym key).
    + f_equal. now destruct (names (as_utf8 k) es).
Qed.

(** X20.  A PUT is idempotent but for its time stamps: sending the same
    request a second time leaves every key and every stored text, and the
    order of the rows, as the first request left them, so that the GET
    handler shows the same settings. *)
Theorem put_is_idempotent (clock clock' : nat -> jsstring) (text : jsstring)
        (body : value) (db : list row) (es : list (jsstring * value)) :
  parse text = inl body ->
  Get body (js "settings") = inl (JObj es) ->
  let db1 := snd (put_settings clock body db) in
  let db2 := snd (put_settings clock' body db1) in
  map selected db2 = map selected db1 /\ getAll db2 = getAll db1.
Proof.
  intros Hb Hs db1 db2. subst db1 db2. apply parse_built in Hb.
  destruct (settings_object body es Hb Hs) as [S [O B]].
  unfold put_settings. rewrite S. cbn [bind entries snd].
  assert (E : map selected (write_all clock' 0 es (write_all clock 0 es db))
              = map selected (write_all clock 0 es db)).
  { rewrite !write_all_selected.
    rewrite filter_app, filter_filter, filter_written, app_nil_r.
    f_equal. apply filter_ext. intros p. now rewrite andb_diag. }
  split; [exact E|now apply getAll_selected].
Qed.

Lemma put_is_idempotent_witness :
  let db1 := snd (put_settings clock settings_body one_row) in
  let db2 := snd (put_settings later settings_body db1) in
  map selected db2 = map selected db1 /\ getAll db2 = getAll db1.
Proof.
  exact (put_is_idempotent clock later settings_text settings_body one_row
           settings_entries eq_refl eq_refl).
Defined.

(** *** A request that is cut short *)

Lemma write_until_refused (clock : nat -> jsstring) (refused : Store.faults)
      (err : JsError) (es : list (jsstring * value)) :
  forall (k i : nat) (db : list row),
    (k < List.length es)%nat -> refused (i + k)%nat = Some err ->
    (forall j, (j < k)%nat -> refused (i + j)%nat = None) ->
    Store.write_until clock refused i es db
    = (write_all clock i (firstn k es) db, Some err).
Proof.
  induction es as [|[key v] es IH]; intros k i db Hk Hr Hn;
    [cbn in Hk; lia|].
  destruct k as [|k].
  - cbn [Store.write_until firstn write_all]. rewrite Nat.add_0_r in Hr.
    now rewrite Hr.
  - cbn [Store.write_until firstn write_all].
    rewrite <- (Nat.add_0_r i) at 1. rewrite (Hn 0%nat) by lia.
    apply IH.
    + cbn [List.length] in Hk. lia.
    + now rewrite Nat.add_succ_comm.
    + intros j Hj. rewrite Nat.add_succ_comm. apply Hn. lia.
Qed.

Lemma write_until_carried (clock : nat -> jsstring) (refused : Store.faults)
      (es : list (jsstring * value)) :
  (forall j, refused j = None) ->
  forall i db, Store.write_until clock refused i es db = (write_all clock i es db, None).
Proof.
  intros H. induction es as [|[key v] es IH]; intros i db; [reflexivity|].
  cbn [Store.write_until write_all]. now rewrite H.
Qed.

(** With a database that carries out every statement the handler is the one
    of the module [Settings]. *)
Lemma put_settings_carried (clock : nat -> jsstring) (refused : Store.faults)
      (body : value) (db : list row) :
  (forall j, refused j = None) ->
  Store.put_settings clock refused body db = Settings.put_settings clock body db.
Proof.
  intros H. unfold Store.put_settings, Settings.put_settings.
  destruct (do settings <- settings_of body; entries settings); [|reflexivity].
  now rewrite write_until_carried.
Qed.

(** X21.  A PUT is not atomic.  When the database refuses the write of the
    [k]-th setting of a request, the request is answered with [success:
    false] and the message of the database, the settings before the [k]-th
    have been written and stay written, and no later one is written. *)
Theorem put_stops_at_refused_write (clock : nat -> jsstring) (refused : Store.faults)
        (body settings : value) (db : list row) (es : list (jsstring * value))
        (k : nat) (err : JsError) :
  settings_of body = inl settings -> entries settings = inl es ->
  (k < List.length es)%nat ->
  refused k = Some err ->
  (forall j, (j < k)%nat -> refused j = None) ->
  Store.put_settings clock refused body db
  = (failure err, write_all clock 0 (firstn k es) db).
Proof.
  intros S E Hk Hr Hn. unfold Store.put_settings. rewrite S. cbn [bind].
  rewrite E. now rewrite (write_until_refused clock refused err es k 0 db Hk Hr Hn).
Qed.

Lemma put_stops_at_refused_write_witness :
  let busy := mkError (js "SQLITE_BUSY: database is locked") in
  let refused := fun i => if Nat.eqb i 2 then Some busy else None in
  Store.put_settings clock refused settings_body one_row
  = (failure busy, write_all clock 0 (firstn 2 settings_entries) one_row).
Proof.
  refine (put_stops_at_refused_write clock
            (fun i => if Nat.eqb i 2
                      then Some (mkError (js "SQLITE_BUSY: database is locked"))
                      else None)
            settings_body (JObj settings_entries) one_row settings_entries 2
            (mkError (js "SQLITE_BUSY: database is locked"))
            eq_refl eq_refl _ eq_refl _).
  - cbn. lia.
  - intros [|[|j]] Hj; [reflexivity|reflexivity|lia].
Defined.

(** *** The key [__proto__] *)

Lemma get_own_none (k : jsstring) (ps : list (jsstring * value)) :
  get_own k ps = None -> has_own k ps = false.
Proof.
  induction ps as [|[q x] ps IH]; cbn [has_own get_own]; [reflexivity|].
  destruct (Str.eqb k q); [discriminate|exact IH].
Qed.

Lemma proto_not_assigned (db : list row) :
  forall st : obj_state,
    (List.length (Store.rows_of (js "__proto__") db) <= 1)%nat ->
    get_own (js "__proto__") (fst st) = None ->
    (Store.rows_of (js "__proto__") db <> [] -> snd st = None) ->
    get_own (js "__proto__") (fst (fold_left read_row db st)) = None.
Proof.
  induction db as [|r db IH]; intros [props proto] Hc Hg Hs; [exact Hg|].
  cbn [fold_left]. rewrite read_row_assign.
  cbn [Store.rows_of filter] in Hc, Hs. fold (Store.rows_of (js "__proto__") db) in Hc, Hs.
  cbn [fst snd] in Hg, Hs. unfold assign.
  destruct (Str.eqb (setting_key r) (js "__proto__")) eqn:E.
  - cbn [List.length] in Hc.
    assert (Z : Store.rows_of (js "__proto__") db = []).
    { destruct (Store.rows_of (js "__proto__") db); [reflexivity|cbn in Hc; lia]. }
    rewrite (proj1 (eqb_eq _ _) E).
    rewrite (get_own_none _ _ Hg), (Hs ltac:(discriminate)).
    destruct (read_back (setting_value r));
      apply IH; rewrite ?Z; cbn [List.length fst snd]; try lia; try exact Hg;
      intros N; now destruct N.
  - apply IH; cbn [fst snd]; try assumption.
    rewrite get_own_define, eqb_sym, E. exact Hg.
Qed.

(** X22.  A setting named [__proto__] cannot be read: the assignment of
    line 112 or 114 reaches the prototype of the object [settings], not a
    property of its own.  For a table with at most one row under that key,
    as a table keyed by [setting_key] has, the GET handler never shows the
    key, whatever the row holds. *)
Theorem proto_setting_is_never_shown (db : list row) :
  (List.length (Store.rows_of (js "__proto__") db) <=? 1)%nat = true ->
  get_own (js "__proto__") (getAll db) = None.
Proof.
  intros H. apply Nat.leb_le in H. unfold getAll.
  apply proto_not_assigned; [exact H|reflexivity|reflexivity].
Qed.

Lemma proto_setting_is_never_shown_witness :
  get_own (js "__proto__")
          (getAll [mkRow (js "theme") (js "dark") (js "t1");
                   mkRow (js "__proto__") (jsq "{'admin': true}") (js "t2")])
  = None.
Proof.
  exact (proto_setting_is_never_shown
           [mkRow (js "theme") (js "dark") (js "t1");
            mkRow (js "__proto__") (jsq "{'admin': true}") (js "t2")] eq_refl).
Defined.
